(** * fe-web-utils: the outbound message pipeline of the fe-web module

    A shallow embedding of [src/fe-web-utils.c] and the properties of its
    JSON escaper, message-id generator, serializer, sender and fan-out.

    Conventions.
    - A C string ([char *]) is a [string]: the bytes before the terminating
      NUL.  A nullable [char *] is an [option string].
    - [int], [long] and [time_t] values are integers in [Z]; the
      [unsigned char] read through [*p] is [N_of_ascii c].
    - A [GString] that is appended to is a [string] threaded through the
      appends.
    - The hash table [extra_data] is a [GHashTable]: the [gmap] of what it
      holds, with the order in which iterating it gives the entries, which
      may be any order.
    - The registry [web_clients] is the list of the records of its
      (distinct) clients; a function that writes to a client returns the
      record after the call.
    - What a call does to the outside is a trace of events, appended to in
      the order of the calls. *)

From Stdlib Require Import ZArith NArith String Ascii List Lia.
From Stdlib Require Import Decimal Hexadecimal DecimalString HexadecimalString.
From Stdlib Require Import DecimalFacts DecimalN.
From stdpp Require Import gmap strings list.

Open Scope Z_scope.

(** ** Strings *)

Module Str.

(** [s] occurs in [t] as a contiguous run of bytes. *)
Definition includes (s t : string) : Prop :=
  exists pre post, t = pre +:+ s +:+ post.

(** [c] is one of the bytes of [s]. *)
Fixpoint has_byte (c : ascii) (s : string) : bool :=
  match s with
  | EmptyString => false
  | String x s' => Ascii.eqb x c || has_byte c s'
  end.

(** The first byte of a C string ([s[0]]); the terminator when [s] is
    empty. *)
Definition first_byte (s : string) : ascii :=
  match s with
  | EmptyString => "000"%char
  | String c _ => c
  end.

(** A Rocq literal cannot hold a double quote as the C literals of the
    source do, so the C literals are written with an apostrophe in its
    place (no C literal of the source has an apostrophe of its own);
    [lit] puts the double quotes (byte 34) back. *)
Fixpoint lit (s : string) : string :=
  match s with
  | EmptyString => EmptyString
  | String c s' => String (if Ascii.eqb c "'" then "034"%char else c) (lit s')
  end.

(** [sep]-separated concatenation. *)
Fixpoint join (sep : string) (l : list string) : string :=
  match l with
  | [] => ""
  | [x] => x
  | x :: l' => x +:+ sep +:+ join sep l'
  end.

(** Every element preceded by the separator. *)
Fixpoint seps (sep : string) (l : list string) : string :=
  match l with
  | [] => ""
  | x :: l' => sep +:+ x +:+ seps sep l'
  end.

End Str.

(** ** printf conversions *)

Module Printf.

Fixpoint zeros (n : nat) : string :=
  match n with
  | O => ""
  | S n' => String "0" (zeros n')
  end.

(** Left padding with ['0'] up to a minimal field width. *)
Definition pad0 (width : nat) (digits : string) : string :=
  zeros (width - String.length digits) +:+ digits.

Definition dec_digits (n : N) : string :=
  DecimalString.NilZero.string_of_uint (N.to_uint n).

Definition hex_digits (n : N) : string :=
  HexadecimalString.NilZero.string_of_uint (N.to_hex_uint n).

(** ["%d"] and ["%ld"]. *)
Definition fmt_d (z : Z) : string :=
  if z <? 0 then "-" +:+ dec_digits (Z.to_N (- z)) else dec_digits (Z.to_N z).

(** ["%04d"]: the sign counts in the field width. *)
Definition fmt_04d (z : Z) : string :=
  if z <? 0 then "-" +:+ pad0 3 (dec_digits (Z.to_N (- z)))
  else pad0 4 (dec_digits (Z.to_N z)).

(** ["%04x"] of an unsigned value. *)
Definition fmt_04x (n : N) : string := pad0 4 (hex_digits n).

End Printf.

(** ** The escaper, [fe_web_escape_json] *)

(** One iteration of the [switch] on the current byte: the text appended
    for byte [c].  The [case] labels are the bytes 34 (double quote), 92
    (backslash), 8, 12, 10, 13 and 9. *)
Definition escape_byte (c : ascii) : string :=
  match c with
  | "034"%char => Str.lit "\'"
  | "\"%char => "\\"
  | "008"%char => "\b"
  | "012"%char => "\f"
  | "010"%char => "\n"
  | "013"%char => "\r"
  | "009"%char => "\t"
  | _ =>
      if (N_of_ascii c <? 32)%N then "\u" +:+ Printf.fmt_04x (N_of_ascii c)
      else String c ""
  end.

(** The [for] loop over the bytes of [str] up to the terminator,
    appending to [result]. *)
Fixpoint escape_loop (p : string) (result : string) : string :=
  match p with
  | EmptyString => result
  | String c p' => escape_loop p' (result +:+ escape_byte c)
  end.

Definition fe_web_escape_json (str : option string) : string :=
  match str with
  | None => ""
  | Some s => escape_loop s ""
  end.

(** ** A JSON string decoder (RFC 8259, section 7)

    The reference against which the escaper is checked.  It works on bytes,
    as the escaper does: the two-character escapes and [\uXXXX] (either
    case of hex digit, surrogate pairs included) are decoded, a raw control
    character is refused, and every other byte stands for itself. *)

Module Json.

Inductive dstate : Type :=
| DText                                   (* between escapes *)
| DEscape                                 (* after a backslash *)
| DHex (more : nat) (acc : N) (hi : option N)
    (* in [\uXXXX]: digits still due after this one, value so far,
       pending high surrogate *)
| DLowSlash (hi : N)                      (* high surrogate read: expects a backslash *)
| DLowU (hi : N).                         (* ... then a [u] *)

Inductive daction : Type :=
| Close                                   (* the closing quote *)
| Skip (st : dstate)                      (* nothing decoded yet *)
| Emit (bytes : string) (st : dstate)
| Bad.

Definition hex_val (c : ascii) : option N :=
  let n := N_of_ascii c in
  if ((48 <=? n) && (n <=? 57))%N then Some (n - 48)%N
  else if ((97 <=? n) && (n <=? 102))%N then Some (n - 87)%N
  else if ((65 <=? n) && (n <=? 70))%N then Some (n - 55)%N
  else None.

Definition byte (n : N) : ascii := ascii_of_N n.

(** UTF-8 encoding of a code point below 0x110000. *)
Definition utf8 (cp : N) : string :=
  (if cp <? 128 then String (byte cp) ""
   else if cp <? 2048 then
     String (byte (192 + cp / 64)) (String (byte (128 + cp mod 64)) "")
   else if cp <? 65536 then
     String (byte (224 + cp / 4096))
       (String (byte (128 + (cp / 64) mod 64))
          (String (byte (128 + cp mod 64)) ""))
   else
     String (byte (240 + cp / 262144))
       (String (byte (128 + (cp / 4096) mod 64))
          (String (byte (128 + (cp / 64) mod 64))
             (String (byte (128 + cp mod 64)) ""))))%N.

(** What a complete [\uXXXX] of value [v] stands for. *)
Definition unit_done (v : N) (hi : option N) : daction :=
  let is_high := ((55296 <=? v) && (v <? 56320))%N in
  let is_low := ((56320 <=? v) && (v <? 57344))%N in
  match hi with
  | None =>
      if is_high then Skip (DLowSlash v)
      else if is_low then Bad
      else Emit (utf8 v) DText
  | Some h =>
      if is_low then Emit (utf8 (65536 + (h - 55296) * 1024 + (v - 56320))%N) DText
      else Bad
  end.

Definition step (st : dstate) (c : ascii) : daction :=
  match st with
  | DText =>
      match c with
      | "034"%char => Close
      | "\"%char => Skip DEscape
      | _ => if (N_of_ascii c <? 32)%N then Bad else Emit (String c "") DText
      end
  | DEscape =>
      match c with
      | "034"%char => Emit (String "034" "") DText
      | "\"%char => Emit "\" DText
      | "/"%char => Emit "/" DText
      | "b"%char => Emit (String "008" "") DText
      | "f"%char => Emit (String "012" "") DText
      | "n"%char => Emit (String "010" "") DText
      | "r"%char => Emit (String "013" "") DText
      | "t"%char => Emit (String "009" "") DText
      | "u"%char => Skip (DHex 3 0 None)
      | _ => Bad
      end
  | DHex more acc hi =>
      match hex_val c with
      | None => Bad
      | Some d =>
          let v := (acc * 16 + d)%N in
          match more with
          | O => unit_done v hi
          | S more' => Skip (DHex more' v hi)
          end
      end
  | DLowSlash h =>
      match c with
      | "\"%char => Skip (DLowU h)
      | _ => Bad
      end
  | DLowU h =>
      match c with
      | "u"%char => Skip (DHex 3 0 (Some h))
      | _ => Bad
      end
  end.

(** Reads the body of a string literal up to its closing quote: the
    decoded bytes and the input left after the quote. *)
Fixpoint scan (st : dstate) (out : string) (s : string) : option (string * string) :=
  match s with
  | EmptyString => None
  | String c s' =>
      match step st c with
      | Close => Some (out, s')
      | Skip st' => scan st' out s'
      | Emit bytes st' => scan st' (out +:+ bytes) s'
      | Bad => None
      end
  end.

(** Reads a string literal at the head of [s]. *)
Definition read_string (s : string) : option (string * string) :=
  match s with
  | String "034"%char body => scan DText "" body
  | _ => None
  end.

(** Decodes [lit], which must be one string literal and nothing more. *)
Definition decode_string (lit : string) : option string :=
  match read_string lit with
  | Some (v, EmptyString) => Some v
  | _ => None
  end.

Definition quote (s : string) : string :=
  String "034" (s +:+ String "034" "").

End Json.

(** ** The message model *)

(** Modelled from the spec: the enum [WEB_MESSAGE_TYPE] is declared in
    [fe-web.h], which is not among the sources.  Its tags are those
    [fe_web_type_to_string] lists (the variants of section 3), and
    [WEB_MSG_OTHER] stands for any other value a variable of the enum may
    hold (the [default] branch). *)
Inductive WEB_MESSAGE_TYPE : Type :=
| WEB_MSG_AUTH_OK
| WEB_MSG_MESSAGE
| WEB_MSG_SERVER_STATUS
| WEB_MSG_CHANNEL_JOIN
| WEB_MSG_CHANNEL_PART
| WEB_MSG_CHANNEL_KICK
| WEB_MSG_USER_QUIT
| WEB_MSG_TOPIC
| WEB_MSG_CHANNEL_MODE
| WEB_MSG_NICKLIST
| WEB_MSG_NICKLIST_UPDATE
| WEB_MSG_NICK_CHANGE
| WEB_MSG_USER_MODE
| WEB_MSG_AWAY
| WEB_MSG_WHOIS
| WEB_MSG_CHANNEL_LIST
| WEB_MSG_STATE_DUMP
| WEB_MSG_ERROR
| WEB_MSG_PONG
| WEB_MSG_QUERY_OPENED
| WEB_MSG_QUERY_CLOSED
| WEB_MSG_ACTIVITY_UPDATE
| WEB_MSG_MARK_READ
| WEB_MSG_OTHER (tag : Z).

#[global] Instance WEB_MESSAGE_TYPE_eq_dec : EqDecision WEB_MESSAGE_TYPE.
Proof. solve_decision. Defined.

(** The 23 variants the table knows. *)
Definition known_type (t : WEB_MESSAGE_TYPE) : bool :=
  match t with
  | WEB_MSG_OTHER _ => false
  | _ => true
  end.

Definition known_types : list WEB_MESSAGE_TYPE :=
  [ WEB_MSG_AUTH_OK; WEB_MSG_MESSAGE; WEB_MSG_SERVER_STATUS;
    WEB_MSG_CHANNEL_JOIN; WEB_MSG_CHANNEL_PART; WEB_MSG_CHANNEL_KICK;
    WEB_MSG_USER_QUIT; WEB_MSG_TOPIC; WEB_MSG_CHANNEL_MODE; WEB_MSG_NICKLIST;
    WEB_MSG_NICKLIST_UPDATE; WEB_MSG_NICK_CHANGE; WEB_MSG_USER_MODE;
    WEB_MSG_AWAY; WEB_MSG_WHOIS; WEB_MSG_CHANNEL_LIST; WEB_MSG_STATE_DUMP;
    WEB_MSG_ERROR; WEB_MSG_PONG; WEB_MSG_QUERY_OPENED; WEB_MSG_QUERY_CLOSED;
    WEB_MSG_ACTIVITY_UPDATE; WEB_MSG_MARK_READ ].

Definition fe_web_type_to_string (type : WEB_MESSAGE_TYPE) : string :=
  match type with
  | WEB_MSG_AUTH_OK => "auth_ok"
  | WEB_MSG_MESSAGE => "message"
  | WEB_MSG_SERVER_STATUS => "server_status"
  | WEB_MSG_CHANNEL_JOIN => "channel_join"
  | WEB_MSG_CHANNEL_PART => "channel_part"
  | WEB_MSG_CHANNEL_KICK => "channel_kick"
  | WEB_MSG_USER_QUIT => "user_quit"
  | WEB_MSG_TOPIC => "topic"
  | WEB_MSG_CHANNEL_MODE => "channel_mode"
  | WEB_MSG_NICKLIST => "nicklist"
  | WEB_MSG_NICKLIST_UPDATE => "nicklist_update"
  | WEB_MSG_NICK_CHANGE => "nick_change"
  | WEB_MSG_USER_MODE => "user_mode"
  | WEB_MSG_AWAY => "away"
  | WEB_MSG_WHOIS => "whois"
  | WEB_MSG_CHANNEL_LIST => "channel_list"
  | WEB_MSG_STATE_DUMP => "state_dump"
  | WEB_MSG_ERROR => "error"
  | WEB_MSG_PONG => "pong"
  | WEB_MSG_QUERY_OPENED => "query_opened"
  | WEB_MSG_QUERY_CLOSED => "query_closed"
  | WEB_MSG_ACTIVITY_UPDATE => "activity_update"
  | WEB_MSG_MARK_READ => "mark_read"
  | WEB_MSG_OTHER _ => "unknown"
  end.

(** ** The table [extra_data]

    A [GHashTable] from strings to nullable strings: what it holds, and
    the order in which [g_hash_table_iter_next] gives its entries.  That
    order is GLib's (the buckets that the hashes of the keys fall into, and
    the history of the table); all that is known of it here is that the
    iteration gives every entry of the table once, so a table may have
    any order of its entries. *)
Record GHashTable : Type := {
  table_map : gmap string (option string);
  table_iter : list (string * option string);
  table_iter_once : table_iter ≡ₚ map_to_list table_map
}.

(** [g_hash_table_size]. *)
Definition g_hash_table_size (table : GHashTable) : nat := size (table_map table).

(** The table that holds the entries [l], of distinct keys, and gives them
    in the order of [l]. *)
Definition table_of (l : list (string * option string)) (distinct : NoDup l.*1)
    : GHashTable :=
  {| table_map := list_to_map l; table_iter := l;
     table_iter_once := Permutation_sym (map_to_list_to_map l distinct) |}.

(** [g_hash_table_new_full]: the empty table. *)
Definition g_hash_table_new_full : GHashTable := table_of [] NoDup_nil_2.

(** Modelled from the spec: [WEB_MESSAGE_REC] is declared in [fe-web.h],
    which is not among the sources.  The fields are those the functions
    here read, write or free.  The strings and the hash table are pointers
    and may be NULL; so may a value stored in the table. *)
Record WEB_MESSAGE_REC : Type := {
  msg_id : option string;
  msg_type : WEB_MESSAGE_TYPE;
  msg_server_tag : option string;
  msg_target : option string;
  msg_nick : option string;
  msg_text : option string;
  msg_response_to : option string;
  msg_timestamp : Z;
  msg_level : Z;
  msg_is_own : bool;
  msg_extra_data : option GHashTable
}.

(** [fe_web_message_new]: [g_new0] zeroes the record, then the type, the
    time [now] read from the clock, an empty table and [is_own] are set. *)
Definition fe_web_message_new (type : WEB_MESSAGE_TYPE) (now : Z) : WEB_MESSAGE_REC :=
  {| msg_id := None; msg_type := type; msg_server_tag := None;
     msg_target := None; msg_nick := None; msg_text := None;
     msg_response_to := None; msg_timestamp := now; msg_level := 0;
     msg_is_own := false; msg_extra_data := Some g_hash_table_new_full |}.

(** ** The serializer, [fe_web_message_to_json] *)

(** The [%s] of a nullable value handed to [fe_web_escape_json]. *)
Definition escaped (s : string) : string := fe_web_escape_json (Some s).

(** The test that sends a value of the table out unescaped. *)
Definition raw_params (key_str : string) (value_str : option string) : bool :=
  match value_str with
  | Some v => String.eqb key_str "params" && Ascii.eqb (Str.first_byte v) "["
  | None => false
  end.

(** The body of the [while (g_hash_table_iter_next ...)] loop for one
    entry; [first] is the flag of the same name. *)
Definition extra_entry (first : bool) (json : string)
    (key_str : string) (value_str : option string) : string :=
  let json := if negb first then json +:+ "," else json in
  let escaped_key := fe_web_escape_json (Some key_str) in
  if raw_params key_str value_str then
    json +:+ Str.lit "'" +:+ escaped_key +:+ Str.lit "':" +:+ default "" value_str
  else
    let escaped_value := fe_web_escape_json value_str in
    json +:+ Str.lit "'" +:+ escaped_key +:+ Str.lit "':'" +:+ escaped_value +:+ Str.lit "'".

(** The loop over the entries [iter] still to come. *)
Fixpoint extra_loop (iter : list (string * option string)) (first : bool)
    (json : string) : string :=
  match iter with
  | [] => json
  | (key, value) :: iter' =>
      extra_loop iter' false (extra_entry first json key value)
  end.

(** The [extra_data] block; the loop takes the entries in the order in
    which the table gives them. *)
Definition extra_block (extra_data : option GHashTable)
    (json : string) : string :=
  match extra_data with
  | Some table =>
      if (0 <? g_hash_table_size table)%nat then
        let json := json +:+ Str.lit ",'extra':{" in
        let json := extra_loop (table_iter table) true json in
        json +:+ "}"
      else json
  | None => json
  end.

Definition fe_web_message_to_json (msg : WEB_MESSAGE_REC) : string :=
  let json := "{" in
  (* id *)
  let json :=
    match msg_id msg with
    | Some id => json +:+ Str.lit "'id':'" +:+ escaped id +:+ Str.lit "',"
    | None => json
    end in
  (* type *)
  let json :=
    json +:+ Str.lit "'type':'" +:+ fe_web_type_to_string (msg_type msg) +:+ Str.lit "'" in
  (* response_to *)
  let json :=
    match msg_response_to msg with
    | Some r => json +:+ Str.lit ",'response_to':'" +:+ escaped r +:+ Str.lit "'"
    | None => json
    end in
  (* server *)
  let json :=
    match msg_server_tag msg with
    | Some s => json +:+ Str.lit ",'server':'" +:+ escaped s +:+ Str.lit "'"
    | None => json
    end in
  (* channel/target *)
  let json :=
    match msg_target msg with
    | Some t => json +:+ Str.lit ",'channel':'" +:+ escaped t +:+ Str.lit "'"
    | None => json
    end in
  (* nick *)
  let json :=
    match msg_nick msg with
    | Some n => json +:+ Str.lit ",'nick':'" +:+ escaped n +:+ Str.lit "'"
    | None => json
    end in
  (* text (or task for nicklist_update) *)
  let json :=
    match msg_text msg with
    | Some t =>
        if decide (msg_type msg = WEB_MSG_NICKLIST_UPDATE) then
          json +:+ Str.lit ",'task':'" +:+ escaped t +:+ Str.lit "'"
        else
          json +:+ Str.lit ",'text':'" +:+ escaped t +:+ Str.lit "'"
    | None => json
    end in
  (* timestamp *)
  let json := json +:+ Str.lit ",'timestamp':" +:+ Printf.fmt_d (msg_timestamp msg) in
  (* level *)
  let json :=
    if negb (msg_level msg =? 0) then
      json +:+ Str.lit ",'level':" +:+ Printf.fmt_d (msg_level msg)
    else json in
  (* is_own *)
  let json :=
    if decide (msg_type msg = WEB_MSG_MESSAGE) then
      json +:+ Str.lit ",'is_own':" +:+ (if msg_is_own msg then "true" else "false")
    else json in
  (* extra_data *)
  let json := extra_block (msg_extra_data msg) json in
  json +:+ "}".

(** ** The id generator, [fe_web_generate_message_id]

    [now] is the clock reading of the call and [counter] the static
    variable; the new value of the variable is returned with the id. *)

Definition counter_init : Z := 0.

Definition fe_web_generate_message_id (now : Z) (counter : Z) : string * Z :=
  let id := Printf.fmt_d now +:+ "-" +:+ Printf.fmt_04d counter in
  let counter := counter + 1 in
  let counter := if 10000 <=? counter then 0 else counter in
  (id, counter).

(** Successive calls, one per clock reading in [clock]: the ids in call
    order and the counter left behind. *)
Fixpoint generate_ids (clock : list Z) (counter : Z) : list string * Z :=
  match clock with
  | [] => ([], counter)
  | now :: clock' =>
      let '(id, counter) := fe_web_generate_message_id now counter in
      let '(ids, counter) := generate_ids clock' counter in
      (id :: ids, counter)
  end.

(** ** Clients, collaborators and the observable trace *)

(** Modelled from the spec: [WEB_CLIENT_REC] is declared in [fe-web.h],
    which is not among the sources.  The fields are those this file reads
    or writes: the identity, the flags as booleans, the transport handle,
    the SSL channel and the bound server as nullable references (an address
    or nothing), and the send counter as a natural number. *)
Record WEB_CLIENT_REC : Type := {
  client_id : string;
  authenticated : bool;
  handshake_done : bool;
  handle : option Z;
  encryption_enabled : bool;
  use_ssl : bool;
  ssl_channel : option Z;
  server : option Z;
  wants_all_servers : bool;
  messages_sent : N
}.

(** [client->messages_sent++]. *)
Definition count_sent (c : WEB_CLIENT_REC) : WEB_CLIENT_REC :=
  {| client_id := client_id c; authenticated := authenticated c;
     handshake_done := handshake_done c; handle := handle c;
     encryption_enabled := encryption_enabled c; use_ssl := use_ssl c;
     ssl_channel := ssl_channel c; server := server c;
     wants_all_servers := wants_all_servers c;
     messages_sent := (messages_sent c + 1)%N |}.

(** Modelled from the spec: the collaborators of section 6, declared in
    [fe-web.h], [fe-web-ssl.h] and [fe-web-crypto.h], which are not among
    the sources.  [fe_web_crypto_get_key] is the current key or nothing;
    [fe_web_crypto_encrypt plaintext key] is the ciphertext, or nothing
    when encryption fails; [fe_web_websocket_create_frame opcode payload]
    is the frame; [fe_web_ssl_write channel frame] is the integer the SSL
    write returns, negative on failure. *)
Class Collaborators : Type := {
  fe_web_crypto_get_key : option string;
  fe_web_crypto_encrypt : string -> string -> option string;
  fe_web_websocket_create_frame : Z -> string -> string;
  fe_web_ssl_write : Z -> string -> Z
}.

Inductive MSGLEVEL : Type :=
| MSGLEVEL_CLIENTNOTICE
| MSGLEVEL_CLIENTERROR.

(** What a call does to the outside, in order: the lines given to
    [printtext], the requests to [fe_web_crypto_encrypt] with their result,
    the writes through [fe_web_ssl_write] with the integer returned, and the
    frames given to [net_sendbuffer_send]. *)
Inductive event : Type :=
| EvPrint (level : MSGLEVEL) (text : string)
| EvEncrypt (plaintext key : string) (result : option string)
| EvSslWrite (channel : Z) (frame : string) (ret : Z)
| EvNetSend (handle : Z) (frame : string).

Definition printtext (level : MSGLEVEL) (text : string) (w : list event) : list event :=
  w ++ [EvPrint level text].

(** The cast [(int)] of a [size_t] length. *)
Definition int_of_size (n : nat) : Z :=
  (Z.of_nat n + 2 ^ 31) mod 2 ^ 32 - 2 ^ 31.

(** ["%d"] of a flag. *)
Definition fmt_flag (b : bool) : string := Printf.fmt_d (if b then 1 else 0).

(** ** The sender, [fe_web_send_message] *)

Section Sender.
Context `{Collaborators}.

(** The transmission block: the frame goes through SSL when the client
    uses SSL and has a channel, through the plain handle [h] otherwise;
    then the counter is incremented. *)
Definition send_frame (c : WEB_CLIENT_REC) (h : Z) (type_str frame : string)
    (w : list event) : WEB_CLIENT_REC * list event :=
  let frame_len := String.length frame in
  let sent (w : list event) :=
    let w :=
      printtext MSGLEVEL_CLIENTNOTICE
        ("fe-web: [" +:+ client_id c +:+ "] Sent " +:+ type_str +:+ " ("
         +:+ Printf.fmt_d (int_of_size frame_len) +:+ " bytes frame)"
         +:+ (if use_ssl c then " [SSL]" else "")
         +:+ (if encryption_enabled c then " [ENCRYPTED]" else "")) w in
    (count_sent c, w) in
  match use_ssl c, ssl_channel c with
  | true, Some channel =>
      let ssl_ret := fe_web_ssl_write channel frame in
      let w := w ++ [EvSslWrite channel frame ssl_ret] in
      if ssl_ret <? 0 then
        (c, printtext MSGLEVEL_CLIENTERROR
              ("fe-web: [" +:+ client_id c +:+ "] SSL write failed for " +:+ type_str) w)
      else sent w
  | _, _ =>
      sent (w ++ [EvNetSend h frame])
  end.

(** From the serialization on, for a client that passed the checks and
    whose handle is [h]. *)
Definition send_json (c : WEB_CLIENT_REC) (h : Z) (type_str : string)
    (msg : WEB_MESSAGE_REC) (w : list event) : WEB_CLIENT_REC * list event :=
  let json := fe_web_message_to_json msg in
  let w :=
    printtext MSGLEVEL_CLIENTNOTICE
      ("fe-web: [" +:+ client_id c +:+ "] Sending " +:+ type_str +:+ ": " +:+ json) w in
  if encryption_enabled c then
    match fe_web_crypto_get_key with
    | None =>
        (c, printtext MSGLEVEL_CLIENTERROR
              ("fe-web: [" +:+ client_id c +:+ "] Encryption key not available for "
               +:+ type_str) w)
    | Some key =>
        let result := fe_web_crypto_encrypt json key in
        let w := w ++ [EvEncrypt json key result] in
        match result with
        | None =>
            (c, printtext MSGLEVEL_CLIENTERROR
                  ("fe-web: [" +:+ client_id c +:+ "] Encryption failed for "
                   +:+ type_str) w)
        | Some encrypted =>
            let encrypted_len := Z.of_nat (String.length encrypted) in
            let w :=
              printtext MSGLEVEL_CLIENTNOTICE
                ("fe-web: [" +:+ client_id c +:+ "] Encrypted " +:+ type_str +:+ " ("
                 +:+ Printf.fmt_d (int_of_size (String.length json)) +:+ " -> "
                 +:+ Printf.fmt_d encrypted_len +:+ " bytes)") w in
            let frame := fe_web_websocket_create_frame 2 encrypted in
            send_frame c h type_str frame w
        end
    end
  else
    let frame := fe_web_websocket_create_frame 1 json in
    send_frame c h type_str frame w.

(** The client after the call (the record [client] points to, when it is
    not NULL) and the trace extended by the call's events. *)
Definition fe_web_send_message (client : option WEB_CLIENT_REC)
    (msg : WEB_MESSAGE_REC) (w : list event)
    : option WEB_CLIENT_REC * list event :=
  let type_str := fe_web_type_to_string (msg_type msg) in
  match client with
  | None =>
      (None, printtext MSGLEVEL_CLIENTERROR
               ("fe-web: ERROR: Cannot send " +:+ type_str +:+ " - client is NULL") w)
  | Some c =>
      let checked (w : list event) :=
        match handle c with
        | None =>
            (Some c, printtext MSGLEVEL_CLIENTERROR
                       ("fe-web: [" +:+ client_id c +:+ "] ERROR: Cannot send "
                        +:+ type_str +:+ " - handle is NULL") w)
        | Some h =>
            let '(c', w) := send_json c h type_str msg w in (Some c', w)
        end in
      if negb (bool_decide (msg_type msg = WEB_MSG_AUTH_OK)) then
        if negb (authenticated c) || negb (handshake_done c) then
          (Some c, printtext MSGLEVEL_CLIENTNOTICE
                     ("fe-web: [" +:+ client_id c +:+ "] Skipping " +:+ type_str
                      +:+ " - not ready (auth:" +:+ fmt_flag (authenticated c)
                      +:+ " handshake:" +:+ fmt_flag (handshake_done c) +:+ ")") w)
        else checked w
      else
        if negb (handshake_done c) then
          (Some c, printtext MSGLEVEL_CLIENTERROR
                     ("fe-web: [" +:+ client_id c +:+ "] ERROR: Cannot send "
                      +:+ type_str +:+ " - handshake not done") w)
        else checked w
  end.

(** ** The fan-out *)

(** The registry [web_clients] is the list of its client records, in list
    order; a call returns the records after the sends, with the trace.
    [to] is the server the call is for (the argument [server], not NULL
    inside the loop). *)

Definition synced_with (to : Z) (client : WEB_CLIENT_REC) : bool :=
  authenticated client
  && (bool_decide (server client = Some to) || wants_all_servers client).

(** The call [fe_web_send_message(client, msg)] from a loop, on a client
    of the registry. *)
Definition send_to (client : WEB_CLIENT_REC) (msg : WEB_MESSAGE_REC)
    (w : list event) : WEB_CLIENT_REC * list event :=
  let '(client', w) := fe_web_send_message (Some client) msg w in
  (default client client', w).

(** The [for (tmp = web_clients; tmp != NULL; tmp = tmp->next)] loop of
    [fe_web_send_to_server_clients]. *)
Fixpoint server_clients_loop (to : Z) (msg : WEB_MESSAGE_REC)
    (tmp : list WEB_CLIENT_REC) (w : list event)
    : list WEB_CLIENT_REC * list event :=
  match tmp with
  | [] => ([], w)
  | client :: next =>
      let '(client, w) :=
        if synced_with to client then send_to client msg w else (client, w) in
      let '(rest, w) := server_clients_loop to msg next w in
      (client :: rest, w)
  end.

Definition fe_web_send_to_server_clients (to : option Z) (msg : WEB_MESSAGE_REC)
    (web_clients : list WEB_CLIENT_REC) (w : list event)
    : list WEB_CLIENT_REC * list event :=
  match to with
  | None => (web_clients, w)
  | Some to => server_clients_loop to msg web_clients w
  end.

(** The loop of [fe_web_send_to_all_clients]. *)
Fixpoint all_clients_loop (msg : WEB_MESSAGE_REC)
    (tmp : list WEB_CLIENT_REC) (w : list event)
    : list WEB_CLIENT_REC * list event :=
  match tmp with
  | [] => ([], w)
  | client :: next =>
      let '(client, w) :=
        if authenticated client then send_to client msg w else (client, w) in
      let '(rest, w) := all_clients_loop msg next w in
      (client :: rest, w)
  end.

Definition fe_web_send_to_all_clients (msg : WEB_MESSAGE_REC)
    (web_clients : list WEB_CLIENT_REC) (w : list event)
    : list WEB_CLIENT_REC * list event :=
  all_clients_loop msg web_clients w.

End Sender.

(** * The specification *)

(** The definitions of this part follow the words of the specification;
    the properties relate them to the functions above. *)

Module Spec.

(** ** Section 4.4: the fields of the object, in order *)

(** One field, [key] quoted and its rendered value. *)
Definition field (key value : string) : string :=
  Json.quote key +:+ ":" +:+ value.

(** A field that is included only if the string is present, escaped. *)
Definition str_field (key : string) (v : option string) : option string :=
  (fun s => field key (Json.quote (escaped s))) <$> v.

(** Key [task] when the type is nicklist-update, otherwise [text]. *)
Definition text_key (type : WEB_MESSAGE_TYPE) : string :=
  if decide (type = WEB_MSG_NICKLIST_UPDATE) then "task" else "text".

(** The value of an entry goes out raw if the key equals [params] and the
    first character of the value is an opening bracket. *)
Definition is_raw (key : string) (value : option string) : bool :=
  match value with
  | Some (String "["%char _) => bool_decide (key = "params")
  | _ => false
  end.

Definition entry (kv : string * option string) : string :=
  let '(key, value) := kv in
  field (escaped key)
    (if is_raw key value then default "" value
     else Json.quote (fe_web_escape_json value)).

(** The entries of the extension map, in the order in which the table
    gives them; an absent table has none. *)
Definition entries (extra : option GHashTable)
    : list (string * option string) :=
  match extra with
  | Some table => table_iter table
  | None => []
  end.

(** The nested object, when the extension map is non-empty. *)
Definition extra_object (extra : option GHashTable)
    : option string :=
  match entries extra with
  | [] => None
  | kvs => Some ("{" +:+ Str.join "," (map entry kvs) +:+ "}")
  end.

(** Fields 1 to 6. *)
Definition fields_before_text (msg : WEB_MESSAGE_REC) : list (option string) :=
  [ str_field "id" (msg_id msg);
    Some (field "type" (Json.quote (fe_web_type_to_string (msg_type msg))));
    str_field "response_to" (msg_response_to msg);
    str_field "server" (msg_server_tag msg);
    str_field "channel" (msg_target msg);
    str_field "nick" (msg_nick msg) ].

(** Field 7. *)
Definition text_field (msg : WEB_MESSAGE_REC) : option string :=
  str_field (text_key (msg_type msg)) (msg_text msg).

(** Fields 8 to 10. *)
Definition fields_after_text (msg : WEB_MESSAGE_REC) : list (option string) :=
  [ Some (field "timestamp" (Printf.fmt_d (msg_timestamp msg)));
    (if decide (msg_level msg = 0) then None
     else Some (field "level" (Printf.fmt_d (msg_level msg))));
    (if decide (msg_type msg = WEB_MSG_MESSAGE) then
       Some (field "is_own" (if msg_is_own msg then "true" else "false"))
     else None) ].

(** Field 11. *)
Definition extra_field (msg : WEB_MESSAGE_REC) : option string :=
  field "extra" <$> extra_object (msg_extra_data msg).

Definition fields (msg : WEB_MESSAGE_REC) : list (option string) :=
  fields_before_text msg ++ [text_field msg] ++ fields_after_text msg
  ++ [extra_field msg].

(** The fields that are included. *)
Definition present (fs : list (option string)) : list string := omap id fs.

(** Commas only between the included fields. *)
Definition object (msg : WEB_MESSAGE_REC) : string :=
  "{" +:+ Str.join "," (present (fields msg)) +:+ "}".

(** No line feed and no carriage return. *)
Definition single_line (s : string) : bool :=
  negb (Str.has_byte "010" s) && negb (Str.has_byte "013" s).

(** The values that go out raw hold no line break. *)
Definition raw_values_single_line (msg : WEB_MESSAGE_REC) : bool :=
  forallb
    (fun kv : string * option string =>
       if is_raw kv.1 kv.2 then single_line (default "" kv.2) else true)
    (entries (msg_extra_data msg)).

(** The contract of [to_json] as section 4.4 words it: a single-line
    object of the fields in order. *)
Definition to_json_contract (msg : WEB_MESSAGE_REC) : Prop :=
  fe_web_message_to_json msg = object msg
  /\ single_line (fe_web_message_to_json msg) = true.

(** ** Section 4.2: the counter of an id *)

(** Every byte is a decimal digit. *)
Fixpoint all_digits (s : string) : bool :=
  match s with
  | EmptyString => true
  | String c s' =>
      (48 <=? N_of_ascii c)%N && (N_of_ascii c <=? 57)%N && all_digits s'
  end.

(** The number a string of decimal digits denotes. *)
Fixpoint digits_value_from (acc : Z) (s : string) : Z :=
  match s with
  | EmptyString => acc
  | String c s' => digits_value_from (10 * acc + (Z.of_N (N_of_ascii c) - 48)) s'
  end.

Definition digits_value (s : string) : Z := digits_value_from 0 s.

(** Four digits that denote [k]. *)
Definition four_digits_of (k : Z) (s : string) : bool :=
  (String.length s =? 4)%nat && all_digits s && (digits_value s =? k).

(** ** Section 4.4, continued *)

(** The extension map is non-empty. *)
Definition extra_nonempty (extra : option GHashTable) : Prop :=
  exists table, extra = Some table /\ table_map table <> ∅.

(** The object up to field 10, without its closing brace. *)
Definition fields_text (msg : WEB_MESSAGE_REC) : string :=
  "{" +:+ Str.join ","
    (present (fields_before_text msg ++ [text_field msg] ++ fields_after_text msg)).

(** Field 11 with its comma, or nothing. *)
Definition extra_text (extra : option GHashTable) : string :=
  match extra_object extra with
  | Some o => "," +:+ field "extra" o
  | None => ""
  end.

(** The object up to field 6. *)
Definition head_text (msg : WEB_MESSAGE_REC) : string :=
  "{" +:+ Str.join "," (present (fields_before_text msg)).

(** The object from field 8 on. *)
Definition tail_text (msg : WEB_MESSAGE_REC) : string :=
  Str.seps "," (present (fields_after_text msg ++ [extra_field msg])) +:+ "}".

(** A reader of the [type] field of an object as [to_json] writes it: the
    opening brace, the [id] field if there is one, then the [type] key and
    its string. *)
Definition expect (c : ascii) (s : string) : option string :=
  match s with
  | String x s' => if Ascii.eqb x c then Some s' else None
  | EmptyString => None
  end.

Definition read_type_value (s : string) : option string :=
  s ← expect ":" s; fst <$> Json.read_string s.

Definition read_type (json : string) : option string :=
  s ← expect "{" json;
  '(key, s) ← Json.read_string s;
  if String.eqb key "type" then read_type_value s
  else if String.eqb key "id" then
    s ← expect ":" s;
    '(_, s) ← Json.read_string s;
    s ← expect "," s;
    '(key, s) ← Json.read_string s;
    if String.eqb key "type" then read_type_value s else None
  else None.

End Spec.

(** ** Section 4.5: the sender *)

Module SendSpec.

(** The points at which a send is given up. *)
Inductive abort_point : Type :=
| AbortNoClient          (* absent client *)
| AbortNotReady          (* failed gating *)
| AbortNoHandle          (* absent transport handle *)
| AbortNoKey             (* absent key *)
| AbortEncryptFailed     (* encryption failure *)
| AbortSslWriteFailed.   (* negative SSL write result *)

Inductive outcome : Type :=
| Sent (frame : string)
| Aborted (at_point : abort_point).

(** The frames a trace shows as transmitted: those given to the plain
    transport, and those an SSL write took without a negative result. *)
Definition transmitted (w : list event) : list string :=
  omap (fun e =>
          match e with
          | EvNetSend _ frame => Some frame
          | EvSslWrite _ frame ret => if ret <? 0 then None else Some frame
          | _ => None
          end) w.

(** A line names the client it is about. *)
Definition names_client (client : option WEB_CLIENT_REC) (line : string) : Prop :=
  exists c, client = Some c /\ Str.includes (client_id c) line.

(** A line names the type of the message. *)
Definition names_type (msg : WEB_MESSAGE_REC) (line : string) : Prop :=
  Str.includes (fe_web_type_to_string (msg_type msg)) line.

(** An event of the pipeline that is not the report of an abort: a write,
    an encryption request, or one of the two notices of progress (the
    plaintext about to be sent, the sizes after encryption). *)
Definition progress_event (c : WEB_CLIENT_REC) (msg : WEB_MESSAGE_REC)
    (e : event) : Prop :=
  match e with
  | EvPrint level text =>
      level = MSGLEVEL_CLIENTNOTICE
      /\ exists what rest,
           (what = "Sending" \/ what = "Encrypted")
           /\ text = "fe-web: [" +:+ client_id c +:+ "] " +:+ what +:+ " "
                     +:+ fe_web_type_to_string (msg_type msg) +:+ rest
  | _ => True
  end.

(** The report of an abort at [p]: the level and the text of its line,
    as the source gives them to [printtext]. *)
Definition abort_line (client : option WEB_CLIENT_REC) (msg : WEB_MESSAGE_REC)
    (p : abort_point) : MSGLEVEL * string :=
  let type_str := fe_web_type_to_string (msg_type msg) in
  let no_client :=
    (MSGLEVEL_CLIENTERROR,
     "fe-web: ERROR: Cannot send " +:+ type_str +:+ " - client is NULL") in
  match client with
  | None => no_client
  | Some c =>
      match p with
      | AbortNoClient => no_client
      | AbortNotReady =>
          if decide (msg_type msg = WEB_MSG_AUTH_OK) then
            (MSGLEVEL_CLIENTERROR,
             "fe-web: [" +:+ client_id c +:+ "] ERROR: Cannot send "
             +:+ type_str +:+ " - handshake not done")
          else
            (MSGLEVEL_CLIENTNOTICE,
             "fe-web: [" +:+ client_id c +:+ "] Skipping " +:+ type_str
             +:+ " - not ready (auth:" +:+ fmt_flag (authenticated c)
             +:+ " handshake:" +:+ fmt_flag (handshake_done c) +:+ ")")
      | AbortNoHandle =>
          (MSGLEVEL_CLIENTERROR,
           "fe-web: [" +:+ client_id c +:+ "] ERROR: Cannot send "
           +:+ type_str +:+ " - handle is NULL")
      | AbortNoKey =>
          (MSGLEVEL_CLIENTERROR,
           "fe-web: [" +:+ client_id c +:+ "] Encryption key not available for "
           +:+ type_str)
      | AbortEncryptFailed =>
          (MSGLEVEL_CLIENTERROR,
           "fe-web: [" +:+ client_id c +:+ "] Encryption failed for " +:+ type_str)
      | AbortSslWriteFailed =>
          (MSGLEVEL_CLIENTERROR,
           "fe-web: [" +:+ client_id c +:+ "] SSL write failed for " +:+ type_str)
      end
  end.

(** An event that is the report of an abort, at whatever point. *)
Definition abort_report (client : option WEB_CLIENT_REC) (msg : WEB_MESSAGE_REC)
    (e : event) : Prop :=
  exists p, e = EvPrint (abort_line client msg p).1 (abort_line client msg p).2.

Section WithCollaborators.
Context `{Collaborators}.

(** Gating on the flags: the authentication acknowledgement requires the
    handshake only, every other type authentication and handshake. *)
Definition ready (c : WEB_CLIENT_REC) (msg : WEB_MESSAGE_REC) : bool :=
  if decide (msg_type msg = WEB_MSG_AUTH_OK) then handshake_done c
  else authenticated c && handshake_done c.

(** Step 4: the write; only an SSL write can fail. *)
Definition transmit (c : WEB_CLIENT_REC) (frame : string) : outcome :=
  match use_ssl c, ssl_channel c with
  | true, Some channel =>
      if fe_web_ssl_write channel frame <? 0 then Aborted AbortSslWriteFailed
      else Sent frame
  | _, _ => Sent frame
  end.

(** Steps 1 to 3: a binary frame of the ciphertext, or a text frame of
    the JSON. *)
Definition pipeline (c : WEB_CLIENT_REC) (msg : WEB_MESSAGE_REC) : outcome :=
  let json := fe_web_message_to_json msg in
  if encryption_enabled c then
    match fe_web_crypto_get_key with
    | None => Aborted AbortNoKey
    | Some key =>
        match fe_web_crypto_encrypt json key with
        | None => Aborted AbortEncryptFailed
        | Some ciphertext => transmit c (fe_web_websocket_create_frame 2 ciphertext)
        end
    end
  else transmit c (fe_web_websocket_create_frame 1 json).

(** What becomes of a send. *)
Definition send_outcome (client : option WEB_CLIENT_REC)
    (msg : WEB_MESSAGE_REC) : outcome :=
  match client with
  | None => Aborted AbortNoClient
  | Some c =>
      if negb (ready c msg) then Aborted AbortNotReady
      else match handle c with
           | None => Aborted AbortNoHandle
           | Some _ => pipeline c msg
           end
  end.

(** The frame delivered to a client, if any. *)
Definition delivered (c : WEB_CLIENT_REC) (msg : WEB_MESSAGE_REC) : option string :=
  match send_outcome (Some c) msg with
  | Sent frame => Some frame
  | Aborted _ => None
  end.

(** One send to a client of the registry, from an empty trace. *)
Definition one_send (c : WEB_CLIENT_REC) (msg : WEB_MESSAGE_REC)
    : WEB_CLIENT_REC * list event :=
  send_to c msg [].

(** Section 4.6: what a fan-out over [web_clients] leaves, when [selects]
    tells the clients it sends to: every selected client after its one
    send, and the events of those sends in registry order. *)
Definition fan_out (selects : WEB_CLIENT_REC -> bool) (msg : WEB_MESSAGE_REC)
    (web_clients : list WEB_CLIENT_REC) (w : list event)
    : list WEB_CLIENT_REC * list event :=
  (map (fun c => if selects c then (one_send c msg).1 else c) web_clients,
   w ++ concat (map (fun c => if selects c then (one_send c msg).2 else [])
                  web_clients)).

(** The filter of [send_to_server_clients]. *)
Definition for_server (to : Z) (c : WEB_CLIENT_REC) : bool :=
  authenticated c
  && (bool_decide (server c = Some to) || wants_all_servers c).

End WithCollaborators.

End SendSpec.

(** * Auxiliary definitions *)

Module Aux.

(** Appending a field that may be omitted, with the comma before it. *)
Definition add_field (f : option string) (json : string) : string :=
  match f with
  | Some x => json +:+ "," +:+ x
  | None => json
  end.

(** The blocks of [fe_web_message_to_json], each as the function it is of
    the text built so far. *)
Definition block_id (msg : WEB_MESSAGE_REC) (json : string) : string :=
  match msg_id msg with
  | Some id => json +:+ Str.lit "'id':'" +:+ escaped id +:+ Str.lit "',"
  | None => json
  end.

Definition block_type (msg : WEB_MESSAGE_REC) (json : string) : string :=
  json +:+ Str.lit "'type':'" +:+ fe_web_type_to_string (msg_type msg) +:+ Str.lit "'".

Definition block_str (pre : string) (v : option string) (json : string) : string :=
  match v with
  | Some s => json +:+ pre +:+ escaped s +:+ Str.lit "'"
  | None => json
  end.

Definition block_text (msg : WEB_MESSAGE_REC) (json : string) : string :=
  match msg_text msg with
  | Some t =>
      if decide (msg_type msg = WEB_MSG_NICKLIST_UPDATE) then
        json +:+ Str.lit ",'task':'" +:+ escaped t +:+ Str.lit "'"
      else
        json +:+ Str.lit ",'text':'" +:+ escaped t +:+ Str.lit "'"
  | None => json
  end.

Definition block_tail (msg : WEB_MESSAGE_REC) (json : string) : string :=
  let json := json +:+ Str.lit ",'timestamp':" +:+ Printf.fmt_d (msg_timestamp msg) in
  let json :=
    if negb (msg_level msg =? 0) then
      json +:+ Str.lit ",'level':" +:+ Printf.fmt_d (msg_level msg)
    else json in
  if decide (msg_type msg = WEB_MSG_MESSAGE) then
    json +:+ Str.lit ",'is_own':" +:+ (if msg_is_own msg then "true" else "false")
  else json.

(** A field that may be omitted holds no line break. *)
Definition field_ok (f : option string) : Prop :=
  forall x, f = Some x -> Spec.single_line x = true.

(** The text of the id made at time [now] with the counter at [counter]. *)
Definition id_text (now counter : Z) : string :=
  Printf.fmt_d now +:+ "-" +:+ Printf.fmt_04d counter.

(** The variant a name of the table stands for. *)
Definition type_of_string (name : string) : option WEB_MESSAGE_TYPE :=
  list_find (fun t => String.eqb (fe_web_type_to_string t) name) known_types
  ≫= fun r => Some r.2.

End Aux.

(** * Sample inputs *)

(** A table whose one entry goes out raw. *)
Definition params_table : GHashTable :=
  table_of [("params", Some "[1,2,3]")] (NoDup_singleton _).

Definition sample_message : WEB_MESSAGE_REC :=
  {| msg_id := Some "1700000000-0001"; msg_type := WEB_MSG_MESSAGE;
     msg_server_tag := Some "libera"; msg_target := Some "#rocq";
     msg_nick := Some "al"; msg_text := Some (Str.lit "hi 'there'");
     msg_response_to := None; msg_timestamp := 1700000000; msg_level := 4;
     msg_is_own := true;
     msg_extra_data := Some params_table |}.

(** A pong whose [params] value is an array literal written on two lines. *)
Definition multiline_message : WEB_MESSAGE_REC :=
  {| msg_id := None; msg_type := WEB_MSG_PONG; msg_server_tag := None;
     msg_target := None; msg_nick := None; msg_text := None;
     msg_response_to := None; msg_timestamp := 0; msg_level := 0;
     msg_is_own := false;
     msg_extra_data :=
       Some (table_of [("params", Some ("[" +:+ String "010" "]"))]
               (NoDup_singleton _)) |}.

Definition nicklist_message : WEB_MESSAGE_REC :=
  {| msg_id := None; msg_type := WEB_MSG_NICKLIST_UPDATE; msg_server_tag := None;
     msg_target := Some "#rocq"; msg_nick := None; msg_text := Some "add";
     msg_response_to := None; msg_timestamp := 7; msg_level := 0;
     msg_is_own := false; msg_extra_data := Some g_hash_table_new_full |}.

(** Collaborators for the sample runs: a key is there, encryption prefixes
    the plaintext, a frame is the opcode byte and the payload, and the SSL
    write fails on channel 13. *)
Definition sample_collaborators : Collaborators :=
  {| fe_web_crypto_get_key := Some "key";
     fe_web_crypto_encrypt := fun plaintext key => Some ("enc:" +:+ plaintext);
     fe_web_websocket_create_frame :=
       fun opcode payload => String (ascii_of_N (Z.to_N (128 + opcode))) payload;
     fe_web_ssl_write :=
       fun channel frame =>
         if channel =? 13 then -1 else Z.of_nat (String.length frame) |}.

(** The same without a key. *)
Definition keyless_collaborators : Collaborators :=
  {| fe_web_crypto_get_key := None;
     fe_web_crypto_encrypt := fun plaintext key => Some ("enc:" +:+ plaintext);
     fe_web_websocket_create_frame :=
       fun opcode payload => String (ascii_of_N (Z.to_N (128 + opcode))) payload;
     fe_web_ssl_write :=
       fun channel frame =>
         if channel =? 13 then -1 else Z.of_nat (String.length frame) |}.

(** A client whose handshake is done and who is not authenticated yet. *)
Definition pending_client : WEB_CLIENT_REC :=
  {| client_id := "c1"; authenticated := false; handshake_done := true;
     handle := Some 7; encryption_enabled := false; use_ssl := false;
     ssl_channel := None; server := None; wants_all_servers := false;
     messages_sent := 0 |}.

Definition plain_client : WEB_CLIENT_REC :=
  {| client_id := "c2"; authenticated := true; handshake_done := true;
     handle := Some 8; encryption_enabled := false; use_ssl := false;
     ssl_channel := None; server := Some 1; wants_all_servers := false;
     messages_sent := 0 |}.

Definition encrypted_client : WEB_CLIENT_REC :=
  {| client_id := "c3"; authenticated := true; handshake_done := true;
     handle := Some 9; encryption_enabled := true; use_ssl := false;
     ssl_channel := None; server := Some 2; wants_all_servers := true;
     messages_sent := 0 |}.

(** A client whose SSL channel is the one that fails. *)
Definition ssl_client : WEB_CLIENT_REC :=
  {| client_id := "c4"; authenticated := true; handshake_done := true;
     handle := Some 10; encryption_enabled := false; use_ssl := true;
     ssl_channel := Some 13; server := Some 1; wants_all_servers := false;
     messages_sent := 5 |}.

Definition auth_ok_message : WEB_MESSAGE_REC := fe_web_message_new WEB_MSG_AUTH_OK 0.

Definition chat_message : WEB_MESSAGE_REC := fe_web_message_new WEB_MSG_MESSAGE 0.

Definition pong_message : WEB_MESSAGE_REC := fe_web_message_new WEB_MSG_PONG 0.

(** * Observations

    The measures of texts, traces and registries that the further
    properties are stated with. *)

Module Bytes.

(** Every byte of [s] passes the test [p]. *)
Fixpoint all_bytes (p : ascii -> bool) (s : string) : bool :=
  match s with
  | EmptyString => true
  | String c s' => p c && all_bytes p s'
  end.

(** Not a control character. *)
Definition printable (c : ascii) : bool := (32 <=? N_of_ascii c)%N.

(** A byte with no meaning of its own inside a JSON string: not a control
    character, not the double quote, not the backslash. *)
Definition plain_byte (c : ascii) : bool :=
  printable c && negb (Ascii.eqb c "034") && negb (Ascii.eqb c "\").

(** A lowercase letter or the underscore. *)
Definition name_byte (c : ascii) : bool :=
  ((97 <=? N_of_ascii c) && (N_of_ascii c <=? 122))%N || Ascii.eqb c "_".

(** A decimal digit or the minus sign. *)
Definition id_byte (c : ascii) : bool :=
  ((48 <=? N_of_ascii c) && (N_of_ascii c <=? 57))%N || Ascii.eqb c "-".

End Bytes.

(** The decimal number [Printf.fmt_d] prints. *)
Definition dec_int (z : Z) : Decimal.int :=
  if z <? 0 then Decimal.Neg (N.to_uint (Z.to_N (- z)))
  else Decimal.Pos (N.to_uint (Z.to_N z)).

Module Reader.

(** A reader of the [id] field of an object as [to_json] writes it: the
    field comes first when it is there. *)
Definition read_id (json : string) : option string :=
  s ← Spec.expect "{" json;
  '(key, s) ← Json.read_string s;
  if String.eqb key "id" then
    s ← Spec.expect ":" s; fst <$> Json.read_string s
  else None.

End Reader.

Module Obs.

(** A frame handed to a transport: to the plain handle, or to an SSL
    channel (whatever came of the write). *)
Inductive write : Type :=
| PlainWrite (handle : Z) (frame : string)
| SslWrite (channel : Z) (frame : string).

(** The writes a trace shows, in order. *)
Definition writes (w : list event) : list write :=
  omap (fun e =>
          match e with
          | EvNetSend h frame => Some (PlainWrite h frame)
          | EvSslWrite ch frame _ => Some (SslWrite ch frame)
          | _ => None
          end) w.

Definition frame_of (x : write) : string :=
  match x with
  | PlainWrite _ frame => frame
  | SslWrite _ frame => frame
  end.

(** The lines a trace shows at error level. *)
Definition error_lines (w : list event) : list string :=
  omap (fun e =>
          match e with
          | EvPrint MSGLEVEL_CLIENTERROR text => Some text
          | _ => None
          end) w.

(** The sum of the send counters of a registry. *)
Definition total_sent (web_clients : list WEB_CLIENT_REC) : N :=
  foldr (fun c n => (messages_sent c + n)%N) 0%N web_clients.

Section WithCollaborators.
Context `{Collaborators}.

(** The events of one call, from an empty trace. *)
Definition call_events (client : option WEB_CLIENT_REC) (msg : WEB_MESSAGE_REC)
    : list event :=
  (fe_web_send_message client msg []).2.

(** The frame the pipeline makes for a client, if the stages before the
    write succeed. *)
Definition framed (c : WEB_CLIENT_REC) (msg : WEB_MESSAGE_REC) : option string :=
  let json := fe_web_message_to_json msg in
  if encryption_enabled c then
    key ← fe_web_crypto_get_key;
    ciphertext ← fe_web_crypto_encrypt json key;
    Some (fe_web_websocket_create_frame 2 ciphertext)
  else Some (fe_web_websocket_create_frame 1 json).

(** The transport of a client whose plain handle is [h]. *)
Definition write_to (c : WEB_CLIENT_REC) (h : Z) (frame : string) : write :=
  match use_ssl c, ssl_channel c with
  | true, Some channel => SslWrite channel frame
  | _, _ => PlainWrite h frame
  end.

End WithCollaborators.

End Obs.

(** ** A JSON parser (RFC 8259)

    The reference against which the serializer is checked: [ws], the
    six kinds of value, numbers with fraction and exponent.  Strings are
    read by [Json.read_string].  The recursion is on [fuel], one unit per
    nested call. *)

Module Doc.

#[local] Set Warnings "-register-all".

Inductive value : Type :=
| Null
| Bool (b : bool)
| Number (d : Decimal.decimal)
| Text (s : string)
| Array (items : list value)
| Object (members : list (string * value)).

(** An integer as a number. *)
Definition Int (z : Z) : value := Number (Decimal.Decimal (Z.to_int z) Decimal.Nil).

Definition is_ws (c : ascii) : bool :=
  Ascii.eqb c " " || Ascii.eqb c "009" || Ascii.eqb c "010" || Ascii.eqb c "013".

Fixpoint skip_ws (s : string) : string :=
  match s with
  | String c s' => if is_ws c then skip_ws s' else s
  | EmptyString => EmptyString
  end.

(** [s] without its prefix [word]. *)
Fixpoint strip (word s : string) : option string :=
  match word, s with
  | EmptyString, _ => Some s
  | String a word', String b s' => if Ascii.eqb a b then strip word' s' else None
  | String _ _, EmptyString => None
  end.

Definition digit_of (c : ascii) : option (Decimal.uint -> Decimal.uint) :=
  match c with
  | "0"%char => Some Decimal.D0
  | "1"%char => Some Decimal.D1
  | "2"%char => Some Decimal.D2
  | "3"%char => Some Decimal.D3
  | "4"%char => Some Decimal.D4
  | "5"%char => Some Decimal.D5
  | "6"%char => Some Decimal.D6
  | "7"%char => Some Decimal.D7
  | "8"%char => Some Decimal.D8
  | "9"%char => Some Decimal.D9
  | _ => None
  end.

(** The longest run of digits at the head of [s]. *)
Fixpoint read_digits (s : string) : Decimal.uint * string :=
  match s with
  | String c s' =>
      match digit_of c with
      | Some digit => let '(d, rest) := read_digits s' in (digit d, rest)
      | None => (Decimal.Nil, s)
      end
  | EmptyString => (Decimal.Nil, EmptyString)
  end.

(** [int = zero / ( digit1-9 *DIGIT )]. *)
Definition int_digits (d : Decimal.uint) : bool :=
  match d with
  | Decimal.Nil => false
  | Decimal.D0 Decimal.Nil => true
  | Decimal.D0 _ => false
  | _ => true
  end.

(** [1*DIGIT]. *)
Definition some_digits (d : Decimal.uint) : bool :=
  match d with
  | Decimal.Nil => false
  | _ => true
  end.

(** Digits that pass [test], under [sign]. *)
Definition read_signed (test : Decimal.uint -> bool)
    (sign : Decimal.uint -> Decimal.int) (s : string)
    : option (Decimal.int * string) :=
  let '(d, rest) := read_digits s in
  if test d then Some (sign d, rest) else None.

(** [\[ minus \] int]. *)
Definition read_int (s : string) : option (Decimal.int * string) :=
  match strip "-" s with
  | Some s' => read_signed int_digits Decimal.Neg s'
  | None => read_signed int_digits Decimal.Pos s
  end.

(** [\[ frac \]]: no digits when there is no decimal point. *)
Definition read_frac (s : string) : option (Decimal.uint * string) :=
  match strip "." s with
  | Some s' =>
      let '(f, rest) := read_digits s' in
      if some_digits f then Some (f, rest) else None
  | None => Some (Decimal.Nil, s)
  end.

(** [\[ minus / plus \]]. *)
Definition read_sign (s : string) : (Decimal.uint -> Decimal.int) * string :=
  match strip "-" s with
  | Some s' => (Decimal.Neg, s')
  | None =>
      match strip "+" s with
      | Some s' => (Decimal.Pos, s')
      | None => (Decimal.Pos, s)
      end
  end.

(** [\[ exp \]]. *)
Definition read_exp (s : string) : option (option Decimal.int * string) :=
  match (match strip "e" s with Some s' => Some s' | None => strip "E" s end) with
  | Some s' =>
      let '(sign, s'') := read_sign s' in
      '(e, rest) ← read_signed some_digits sign s'';
      Some (Some e, rest)
  | None => Some (None, s)
  end.

Definition read_number (s : string) : option (Decimal.decimal * string) :=
  '(i, s) ← read_int s;
  '(f, s) ← read_frac s;
  '(e, s) ← read_exp s;
  Some (match e with
        | Some e => Decimal.DecimalExp i f e
        | None => Decimal.Decimal i f
        end, s).

(** [read_value] reads a value, after white space; [read_members] the
    members of an object up to its closing brace, from the first byte of
    a member; [read_elements] the elements of an array up to its closing
    bracket. *)
Fixpoint read_value (fuel : nat) (s : string) : option (value * string) :=
  match fuel with
  | O => None
  | S fuel =>
      match skip_ws s with
      | String c s1 =>
          if Ascii.eqb c "034" then
            '(v, rest) ← Json.read_string (String c s1); Some (Text v, rest)
          else if Ascii.eqb c "{" then
            match strip "}" (skip_ws s1) with
            | Some rest => Some (Object [], rest)
            | None =>
                '(ms, rest) ← read_members fuel (skip_ws s1);
                Some (Object ms, rest)
            end
          else if Ascii.eqb c "[" then
            match strip "]" (skip_ws s1) with
            | Some rest => Some (Array [], rest)
            | None =>
                '(vs, rest) ← read_elements fuel (skip_ws s1);
                Some (Array vs, rest)
            end
          else if Ascii.eqb c "t" then rest ← strip "rue" s1; Some (Bool true, rest)
          else if Ascii.eqb c "f" then rest ← strip "alse" s1; Some (Bool false, rest)
          else if Ascii.eqb c "n" then rest ← strip "ull" s1; Some (Null, rest)
          else '(d, rest) ← read_number (String c s1); Some (Number d, rest)
      | EmptyString => None
      end
  end
with read_members (fuel : nat) (s : string)
    : option (list (string * value) * string) :=
  match fuel with
  | O => None
  | S fuel =>
      '(key, s) ← Json.read_string s;
      s ← strip ":" (skip_ws s);
      '(v, s) ← read_value fuel s;
      match strip "," (skip_ws s) with
      | Some s' =>
          '(ms, rest) ← read_members fuel (skip_ws s'); Some ((key, v) :: ms, rest)
      | None => rest ← strip "}" (skip_ws s); Some ([(key, v)], rest)
      end
  end
with read_elements (fuel : nat) (s : string) : option (list value * string) :=
  match fuel with
  | O => None
  | S fuel =>
      '(v, s) ← read_value fuel s;
      match strip "," (skip_ws s) with
      | Some s' => '(vs, rest) ← read_elements fuel s'; Some (v :: vs, rest)
      | None => rest ← strip "]" (skip_ws s); Some ([v], rest)
      end
  end.

(** [JSON-text = ws value ws], and nothing more. *)
Definition parse (fuel : nat) (s : string) : option value :=
  '(v, rest) ← read_value fuel s;
  match skip_ws rest with
  | EmptyString => Some v
  | _ => None
  end.

(** The document a message stands for: the members [to_json] is to
    write, in its order, with the strings as they are in the message. *)
Definition text_member (key : string) (v : option string)
    : option (string * value) :=
  (fun s => (key, Text s)) <$> v.

(** The value of an entry of the extension map; [raw] is the value that
    the text of an entry that goes out raw stands for. *)
Definition entry_member (raw : value) (kv : string * option string)
    : string * value :=
  (kv.1, if Spec.is_raw kv.1 kv.2 then raw else Text (default "" kv.2)).

Definition extra_member (raw : value)
    (extra : option GHashTable) : option (string * value) :=
  match Spec.entries extra with
  | [] => None
  | kvs => Some ("extra", Object (map (entry_member raw) kvs))
  end.

Definition members (raw : value) (msg : WEB_MESSAGE_REC)
    : list (option (string * value)) :=
  [ text_member "id" (msg_id msg);
    Some ("type", Text (fe_web_type_to_string (msg_type msg)));
    text_member "response_to" (msg_response_to msg);
    text_member "server" (msg_server_tag msg);
    text_member "channel" (msg_target msg);
    text_member "nick" (msg_nick msg);
    text_member (Spec.text_key (msg_type msg)) (msg_text msg);
    Some ("timestamp", Int (msg_timestamp msg));
    (if decide (msg_level msg = 0) then None
     else Some ("level", Int (msg_level msg)));
    (if decide (msg_type msg = WEB_MSG_MESSAGE) then
       Some ("is_own", Bool (msg_is_own msg))
     else None);
    extra_member raw (msg_extra_data msg) ].

Definition document (raw : value) (msg : WEB_MESSAGE_REC) : value :=
  Object (omap id (members raw msg)).

(** No value of the extension map goes out raw. *)
Definition no_raw_value (msg : WEB_MESSAGE_REC) : bool :=
  forallb (fun kv : string * option string => negb (Spec.is_raw kv.1 kv.2))
    (Spec.entries (msg_extra_data msg)).

End Doc.

Module DocAux.

(** A member as it is written and as it is read: the key, the text of
    the value and the value. *)
Definition member : Type := string * (string * Doc.value).

Definition written (m : member) : string := Spec.field (escaped m.1) m.2.1.

Definition read (m : member) : string * Doc.value := (m.1, m.2.2).

Definition text_written (key : string) (v : option string) : option member :=
  (fun s => (key, (Json.quote (escaped s), Doc.Text s))) <$> v.

Definition entry_written (raw : Doc.value) (kv : string * option string)
    : member :=
  if Spec.is_raw kv.1 kv.2 then (kv.1, (default "" kv.2, raw))
  else (kv.1, (Json.quote (escaped (default "" kv.2)), Doc.Text (default "" kv.2))).

Definition extra_written (raw : Doc.value)
    (extra : option GHashTable) : option member :=
  match Spec.entries extra with
  | [] => None
  | kvs =>
      Some ("extra",
            ("{" +:+ Str.join "," (map written (map (entry_written raw) kvs)) +:+ "}",
             Doc.Object (map read (map (entry_written raw) kvs))))
  end.

Definition members_written (raw : Doc.value) (msg : WEB_MESSAGE_REC)
    : list (option member) :=
  [ text_written "id" (msg_id msg);
    Some ("type", (Json.quote (escaped (fe_web_type_to_string (msg_type msg))),
                   Doc.Text (fe_web_type_to_string (msg_type msg))));
    text_written "response_to" (msg_response_to msg);
    text_written "server" (msg_server_tag msg);
    text_written "channel" (msg_target msg);
    text_written "nick" (msg_nick msg);
    text_written (Spec.text_key (msg_type msg)) (msg_text msg);
    Some ("timestamp", (Printf.fmt_d (msg_timestamp msg), Doc.Int (msg_timestamp msg)));
    (if decide (msg_level msg = 0) then None
     else Some ("level", (Printf.fmt_d (msg_level msg), Doc.Int (msg_level msg))));
    (if decide (msg_type msg = WEB_MSG_MESSAGE) then
       Some ("is_own", (if msg_is_own msg then "true" else "false",
                        Doc.Bool (msg_is_own msg)))
     else None);
    extra_written raw (msg_extra_data msg) ].

(** What may follow a value inside an object. *)
Definition delimited (rest : string) : Prop :=
  exists r, rest = String "," r \/ rest = String "}" r.

(** With [k] units of fuel the text reads as the value, whatever
    delimited text follows. *)
Definition reads_as (k : nat) (m : member) : Prop :=
  forall fuel rest, (k <= fuel)%nat -> delimited rest ->
    Doc.read_value fuel (m.2.1 +:+ rest) = Some (m.2.2, rest).

(** A byte a number may start with. *)
Definition number_start (c : ascii) : bool :=
  Ascii.eqb c "-" || ((48 <=? N_of_ascii c) && (N_of_ascii c <=? 57))%N.

End DocAux.

(** ** More sample inputs *)

(** Three distinct keys. *)
Definition three_distinct : NoDup ["realname"; "away"; "params"] :=
  bool_decide_unpack (NoDup ["realname"; "away"; "params"]) I.

(** A message whose [params] value does not start with a bracket: it goes
    out as a string.  Its table gives the entries in the order realname,
    away, params. *)
Definition whois_message : WEB_MESSAGE_REC :=
  {| msg_id := Some "1700000000-0042"; msg_type := WEB_MSG_WHOIS;
     msg_server_tag := Some "libera"; msg_target := None;
     msg_nick := Some (Str.lit "al 'the' \pal"); msg_text := None;
     msg_response_to := Some "req-7"; msg_timestamp := 1700000000;
     msg_level := -3; msg_is_own := false;
     msg_extra_data :=
       Some (table_of [ ("realname", Some (String "009" "Al"));
                        ("away", None);
                        ("params", Some "1,2") ] three_distinct) |}.

(** The same with a [params] value that goes out raw. *)
Definition names_message : WEB_MESSAGE_REC :=
  {| msg_id := None; msg_type := WEB_MSG_WHOIS;
     msg_server_tag := Some "libera"; msg_target := None;
     msg_nick := Some "al"; msg_text := None;
     msg_response_to := None; msg_timestamp := 1700000000;
     msg_level := 0; msg_is_own := false;
     msg_extra_data :=
       Some (table_of [ ("realname", Some "Al");
                        ("away", None);
                        ("params", Some "[1,2,3]") ] three_distinct) |}.

(** A message whose raw [params] value is not a JSON text. *)
Definition broken_message : WEB_MESSAGE_REC :=
  {| msg_id := None; msg_type := WEB_MSG_PONG; msg_server_tag := None;
     msg_target := None; msg_nick := None; msg_text := None;
     msg_response_to := None; msg_timestamp := 0; msg_level := 0;
     msg_is_own := false;
     msg_extra_data :=
       Some (table_of [("params", Some "[1,2")] (NoDup_singleton _)) |}.

(** A client marked as using SSL whose channel was never set up. *)
Definition half_ssl_client : WEB_CLIENT_REC :=
  {| client_id := "c5"; authenticated := true; handshake_done := true;
     handle := Some 11; encryption_enabled := true; use_ssl := true;
     ssl_channel := None; server := Some 2; wants_all_servers := false;
     messages_sent := 2 |}.

(** * Properties *)

(** ** Strings *)

Module StrFacts.

Lemma app_cons (c : ascii) (a b : string) :
  String c a +:+ b = String c (a +:+ b).
Proof. reflexivity. Qed.

Lemma app_nil_r (s : string) : s +:+ "" = s.
Proof.
  induction s as [|c s IH]; [reflexivity|].
  now rewrite app_cons, IH.
Qed.

Lemma app_assoc (a b c : string) : (a +:+ b) +:+ c = a +:+ (b +:+ c).
Proof.
  induction a as [|x a IH]; [reflexivity|].
  now rewrite !app_cons, IH.
Qed.

Lemma has_byte_app (c : ascii) (a b : string) :
  Str.has_byte c (a +:+ b) = Str.has_byte c a || Str.has_byte c b.
Proof.
  induction a as [|x a IH]; [reflexivity|].
  rewrite app_cons. simpl. rewrite IH. apply orb_assoc.
Qed.

Lemma app_nil_l (s : string) : "" +:+ s = s.
Proof. reflexivity. Qed.

Lemma app_inv_head (a b c : string) : a +:+ b = a +:+ c -> b = c.
Proof.
  induction a as [|x a IH]; [trivial|].
  rewrite !app_cons. intros [= Habc]. auto.
Qed.

End StrFacts.

(** Both sides to one right-nested chain of bytes and appends. *)
Ltac str_norm :=
  cbv [Str.lit Ascii.eqb Bool.eqb Spec.field Json.quote];
  repeat rewrite ?StrFacts.app_assoc, ?StrFacts.app_cons, ?StrFacts.app_nil_l,
    ?StrFacts.app_nil_r.

(** ** The escaper *)

Lemma escape_loop_acc (p result : string) :
  escape_loop p result = result +:+ escape_loop p "".
Proof.
  revert result. induction p as [|c p IH]; intros result; simpl.
  - now rewrite StrFacts.app_nil_r.
  - rewrite IH, (IH ("" +:+ escape_byte c)).
    now rewrite StrFacts.app_assoc.
Qed.

Lemma escape_loop_cons (c : ascii) (p : string) :
  escape_loop (String c p) "" = escape_byte c +:+ escape_loop p "".
Proof. simpl. now rewrite escape_loop_acc. Qed.

(** The decoder, in text state, reads the escape of one byte back as that
    byte. *)
Lemma scan_escape_byte (c : ascii) (out t : string) :
  Json.scan Json.DText out (escape_byte c +:+ t)
  = Json.scan Json.DText (out +:+ String c "") t.
Proof. destruct c as [[] [] [] [] [] [] [] []]; reflexivity. Qed.

(** Reading an escaped string up to the quote that follows it gives the
    string back, and the input after the quote. *)
Lemma scan_escape (s out rest : string) :
  Json.scan Json.DText out (escape_loop s "" +:+ String "034" rest)
  = Some (out +:+ s, rest).
Proof.
  revert out. induction s as [|c s IH]; intros out.
  - simpl. now rewrite StrFacts.app_nil_r.
  - rewrite escape_loop_cons, StrFacts.app_assoc, scan_escape_byte, IH.
    now rewrite StrFacts.app_assoc.
Qed.

Lemma read_string_quote (s rest : string) :
  Json.read_string (Json.quote (escaped s) +:+ rest) = Some (s, rest).
Proof.
  unfold Json.quote, escaped, fe_web_escape_json.
  rewrite StrFacts.app_cons, StrFacts.app_assoc.
  change (Json.scan Json.DText "" (escape_loop s "" +:+ String "034" rest)
          = Some (s, rest)).
  now rewrite scan_escape.
Qed.

(** C4. The escaper is a total function; for the absent (NULL) input it
    returns the empty string, and for every input string the escaped text,
    put between quotes, is decoded by the JSON string decoder to the
    original string. *)
Theorem escape_round_trip :
  fe_web_escape_json None = ""
  /\ forall s : string,
       Json.decode_string (Json.quote (fe_web_escape_json (Some s))) = Some s.
Proof.
  split; [reflexivity|].
  intros s. unfold Json.decode_string.
  pose proof (read_string_quote s "") as Hread.
  rewrite StrFacts.app_nil_r in Hread.
  unfold escaped in Hread. now rewrite Hread.
Qed.

(** ** The serializer *)

Module JoinFacts.

Lemma join_cons (sep x : string) (l : list string) :
  Str.join sep (x :: l) = x +:+ Str.seps sep l.
Proof.
  revert x. induction l as [|y l IH]; intros x.
  - simpl. now rewrite StrFacts.app_nil_r.
  - change (Str.join sep (x :: y :: l)) with (x +:+ sep +:+ Str.join sep (y :: l)).
    now rewrite IH.
Qed.

Lemma seps_app (sep : string) (l1 l2 : list string) :
  Str.seps sep (l1 ++ l2) = Str.seps sep l1 +:+ Str.seps sep l2.
Proof.
  induction l1 as [|x l1 IH]; [reflexivity|].
  simpl. now rewrite IH, !StrFacts.app_assoc.
Qed.

Lemma join_app (sep : string) (l1 l2 : list string) :
  l1 <> [] -> Str.join sep (l1 ++ l2) = Str.join sep l1 +:+ Str.seps sep l2.
Proof.
  destruct l1 as [|x l1]; [congruence|]. intros _.
  change ((x :: l1) ++ l2) with (x :: (l1 ++ l2)).
  now rewrite !join_cons, seps_app, StrFacts.app_assoc.
Qed.

End JoinFacts.

Lemma add_field_seps (f : option string) (json : string) :
  Aux.add_field f json = json +:+ Str.seps "," (Spec.present [f]).
Proof.
  destruct f as [x|]; simpl.
  - now rewrite StrFacts.app_nil_r.
  - now rewrite StrFacts.app_nil_r.
Qed.

Lemma raw_params_is_raw (key : string) (value : option string) :
  raw_params key value = Spec.is_raw key value.
Proof.
  destruct value as [[|c v]|]; simpl; try reflexivity.
  - now rewrite andb_false_r.
  - assert (Hk : String.eqb key "params" = bool_decide (key = "params")).
    { destruct (String.eqb_spec key "params") as [->|Hne].
      - reflexivity.
      - symmetry. now apply bool_decide_eq_false. }
    rewrite Hk.
    destruct c as [[] [] [] [] [] [] [] []]; simpl;
      rewrite ?andb_false_r, ?andb_true_r; reflexivity.
Qed.

Lemma extra_entry_spec (first : bool) (json key : string) (value : option string) :
  extra_entry first json key value
  = json +:+ (if first then "" else ",") +:+ Spec.entry (key, value).
Proof.
  unfold extra_entry, Spec.entry, Spec.field, Json.quote, escaped.
  rewrite raw_params_is_raw.
  destruct first, (Spec.is_raw key value); simpl negb; cbv iota;
    str_norm; reflexivity.
Qed.

Lemma extra_loop_rest (kvs : list (string * option string)) (json : string) :
  extra_loop kvs false json = json +:+ Str.seps "," (map Spec.entry kvs).
Proof.
  revert json. induction kvs as [|[k v] kvs IH]; intros json; simpl.
  - now rewrite StrFacts.app_nil_r.
  - rewrite IH, extra_entry_spec. now rewrite !StrFacts.app_assoc.
Qed.

Lemma extra_loop_join (kvs : list (string * option string)) (json : string) :
  extra_loop kvs true json = json +:+ Str.join "," (map Spec.entry kvs).
Proof.
  destruct kvs as [|[k v] kvs]; simpl extra_loop.
  - simpl. now rewrite StrFacts.app_nil_r.
  - rewrite extra_loop_rest, extra_entry_spec.
    change (map Spec.entry ((k, v) :: kvs)) with (Spec.entry (k, v) :: map Spec.entry kvs).
    rewrite JoinFacts.join_cons. now rewrite !StrFacts.app_assoc.
Qed.

Lemma table_iter_length (table : GHashTable) :
  length (table_iter table) = g_hash_table_size table.
Proof.
  unfold g_hash_table_size. rewrite <- length_map_to_list.
  apply Permutation_length, table_iter_once.
Qed.

Lemma entries_nil_size (table : GHashTable) :
  table_iter table = [] <-> g_hash_table_size table = 0%nat.
Proof.
  rewrite <- table_iter_length. now destruct (table_iter table).
Qed.

Lemma table_iter_nil (table : GHashTable) :
  table_iter table = [] <-> table_map table = ∅.
Proof.
  rewrite entries_nil_size. unfold g_hash_table_size. apply map_size_empty_iff.
Qed.

Lemma extra_block_field (extra : option GHashTable) (json : string) :
  extra_block extra json = Aux.add_field (Spec.field "extra" <$> Spec.extra_object extra) json.
Proof.
  unfold extra_block, Spec.extra_object, Spec.entries.
  destruct extra as [table|]; [|reflexivity].
  destruct (table_iter table) as [|kv kvs] eqn:Hl.
  - apply entries_nil_size in Hl. now rewrite Hl.
  - assert (Hs : g_hash_table_size table <> 0%nat).
    { intros Hs. apply entries_nil_size in Hs. congruence. }
    destruct (Nat.ltb_spec 0 (g_hash_table_size table)) as [_|Hle]; [|lia].
    rewrite extra_loop_join. simpl fmap. unfold Aux.add_field.
    str_norm. reflexivity.
Qed.

Lemma to_json_blocks (msg : WEB_MESSAGE_REC) :
  fe_web_message_to_json msg
  = extra_block (msg_extra_data msg)
      (Aux.block_tail msg
         (Aux.block_text msg
            (Aux.block_str (Str.lit ",'nick':'") (msg_nick msg)
               (Aux.block_str (Str.lit ",'channel':'") (msg_target msg)
                  (Aux.block_str (Str.lit ",'server':'") (msg_server_tag msg)
                     (Aux.block_str (Str.lit ",'response_to':'") (msg_response_to msg)
                        (Aux.block_type msg (Aux.block_id msg "{")))))))) +:+ "}".
Proof. reflexivity. Qed.

Lemma seps_present (fs : list (option string)) (json : string) :
  foldl (fun j f => Aux.add_field f j) json fs
  = json +:+ Str.seps "," (Spec.present fs).
Proof.
  revert json. induction fs as [|f fs IH]; intros json; simpl.
  - now rewrite StrFacts.app_nil_r.
  - rewrite IH. destruct f as [x|]; simpl; [|reflexivity].
    now rewrite !StrFacts.app_assoc.
Qed.

Lemma block_head_fields (msg : WEB_MESSAGE_REC) :
  Aux.block_type msg (Aux.block_id msg "{")
  = "{" +:+ Str.join ","
      (Spec.present [ Spec.str_field "id" (msg_id msg);
                      Some (Spec.field "type"
                              (Json.quote (fe_web_type_to_string (msg_type msg)))) ]).
Proof.
  unfold Aux.block_type, Aux.block_id, Spec.str_field.
  destruct (msg_id msg) as [i|]; simpl; str_norm; reflexivity.
Qed.

Lemma block_str_field (key : string) (v : option string) (json : string) :
  Aux.block_str (String "," (Json.quote key +:+ String ":" (String "034" ""))) v json
  = Aux.add_field (Spec.str_field key v) json.
Proof.
  unfold Aux.block_str, Spec.str_field.
  destruct v as [s|]; simpl; [|reflexivity].
  str_norm. reflexivity.
Qed.

Lemma block_text_field (msg : WEB_MESSAGE_REC) (json : string) :
  Aux.block_text msg json = Aux.add_field (Spec.text_field msg) json.
Proof.
  unfold Aux.block_text, Spec.text_field, Spec.text_key, Spec.str_field.
  destruct (msg_text msg) as [t|]; simpl; [|reflexivity].
  destruct (decide (msg_type msg = WEB_MSG_NICKLIST_UPDATE)); str_norm; reflexivity.
Qed.

Lemma block_tail_fields (msg : WEB_MESSAGE_REC) (json : string) :
  Aux.block_tail msg json
  = foldl (fun j f => Aux.add_field f j) json (Spec.fields_after_text msg).
Proof.
  unfold Aux.block_tail, Spec.fields_after_text. simpl foldl.
  destruct (decide (msg_level msg = 0)) as [Hl|Hl].
  - rewrite (proj2 (Z.eqb_eq _ _) Hl). simpl negb. cbv iota zeta.
    destruct (decide (msg_type msg = WEB_MSG_MESSAGE)); simpl; str_norm; reflexivity.
  - rewrite (proj2 (Z.eqb_neq _ _) Hl). simpl negb. cbv iota zeta.
    destruct (decide (msg_type msg = WEB_MSG_MESSAGE)); simpl; str_norm; reflexivity.
Qed.

(** The serializer writes the object of section 4.4. *)
Lemma to_json_object (msg : WEB_MESSAGE_REC) :
  fe_web_message_to_json msg = Spec.object msg.
Proof.
  rewrite to_json_blocks, extra_block_field, block_tail_fields, block_text_field.
  change (Str.lit ",'nick':'")
    with (String "," (Json.quote "nick" +:+ String ":" (String "034" ""))).
  change (Str.lit ",'channel':'")
    with (String "," (Json.quote "channel" +:+ String ":" (String "034" ""))).
  change (Str.lit ",'server':'")
    with (String "," (Json.quote "server" +:+ String ":" (String "034" ""))).
  change (Str.lit ",'response_to':'")
    with (String "," (Json.quote "response_to" +:+ String ":" (String "034" ""))).
  rewrite !block_str_field, block_head_fields.
  rewrite !add_field_seps, seps_present.
  unfold Spec.object, Spec.fields, Spec.fields_before_text, Spec.extra_field.
  set (head := [Spec.str_field "id" (msg_id msg); _]).
  change (Spec.present (_ ++ ?l))
    with (Spec.present
            (head ++ [Spec.str_field "response_to" (msg_response_to msg)]
               ++ [Spec.str_field "server" (msg_server_tag msg)]
               ++ [Spec.str_field "channel" (msg_target msg)]
               ++ [Spec.str_field "nick" (msg_nick msg)] ++ l)).
  unfold Spec.present. rewrite !omap_app. fold Spec.present.
  rewrite JoinFacts.join_app, !JoinFacts.seps_app.
  - now rewrite !StrFacts.app_assoc.
  - subst head. unfold Spec.present. destruct (msg_id msg); discriminate.
Qed.

(** ** Line breaks *)

#[local] Arguments Str.join : simpl never.

Lemma single_line_app (a b : string) :
  Spec.single_line (a +:+ b) = Spec.single_line a && Spec.single_line b.
Proof.
  unfold Spec.single_line. rewrite !StrFacts.has_byte_app.
  destruct (Str.has_byte "010" a), (Str.has_byte "013" a),
    (Str.has_byte "010" b), (Str.has_byte "013" b); reflexivity.
Qed.

Lemma single_line_app_intro (a b : string) :
  Spec.single_line a = true -> Spec.single_line b = true ->
  Spec.single_line (a +:+ b) = true.
Proof. intros Ha Hb. now rewrite single_line_app, Ha, Hb. Qed.

Lemma single_line_escape_byte (c : ascii) : Spec.single_line (escape_byte c) = true.
Proof. destruct c as [[] [] [] [] [] [] [] []]; reflexivity. Qed.

Lemma single_line_escape (s : option string) :
  Spec.single_line (fe_web_escape_json s) = true.
Proof.
  destruct s as [s|]; [|reflexivity]. simpl.
  induction s as [|c s IH]; [reflexivity|].
  rewrite escape_loop_cons.
  apply single_line_app_intro; [apply single_line_escape_byte | exact IH].
Qed.

Lemma single_line_uint (d : Decimal.uint) :
  Spec.single_line (DecimalString.NilEmpty.string_of_uint d) = true.
Proof.
  induction d; simpl; try reflexivity;
    match goal with
    | |- Spec.single_line (String ?c ?s) = true =>
        change (String c s) with (String c "" +:+ s);
        apply single_line_app_intro; [reflexivity | assumption]
    end.
Qed.

Lemma single_line_dec_digits (n : N) : Spec.single_line (Printf.dec_digits n) = true.
Proof.
  unfold Printf.dec_digits, DecimalString.NilZero.string_of_uint.
  destruct (N.to_uint n); try reflexivity; apply single_line_uint.
Qed.

Lemma single_line_fmt_d (z : Z) : Spec.single_line (Printf.fmt_d z) = true.
Proof.
  unfold Printf.fmt_d. destruct (z <? 0).
  - apply single_line_app_intro; [reflexivity | apply single_line_dec_digits].
  - apply single_line_dec_digits.
Qed.

Lemma single_line_type (t : WEB_MESSAGE_TYPE) :
  Spec.single_line (fe_web_type_to_string t) = true.
Proof. destruct t; reflexivity. Qed.

Lemma single_line_quote (s : string) :
  Spec.single_line s = true -> Spec.single_line (Json.quote s) = true.
Proof.
  intros Hs. unfold Json.quote.
  change (String "034" (s +:+ String "034" ""))
    with (String "034" "" +:+ s +:+ String "034" "").
  now repeat apply single_line_app_intro.
Qed.

Lemma single_line_field (key value : string) :
  Spec.single_line key = true -> Spec.single_line value = true ->
  Spec.single_line (Spec.field key value) = true.
Proof.
  intros Hk Hv. unfold Spec.field.
  repeat apply single_line_app_intro; auto using single_line_quote.
Qed.

Lemma single_line_seps (l : list string) :
  Forall (fun f => Spec.single_line f = true) l ->
  Spec.single_line (Str.seps "," l) = true.
Proof.
  induction 1 as [|x l Hx _ IH]; [reflexivity|].
  simpl. now repeat apply single_line_app_intro.
Qed.

Lemma single_line_join (l : list string) :
  Forall (fun f => Spec.single_line f = true) l ->
  Spec.single_line (Str.join "," l) = true.
Proof.
  destruct 1 as [|x l Hx Hl]; [reflexivity|].
  rewrite JoinFacts.join_cons.
  apply single_line_app_intro; [exact Hx | now apply single_line_seps].
Qed.

Lemma present_ok (fs : list (option string)) :
  Forall Aux.field_ok fs ->
  Forall (fun f => Spec.single_line f = true) (Spec.present fs).
Proof.
  induction 1 as [|f fs Hf _ IH]; [constructor|].
  destruct f as [x|]; simpl; [constructor|]; auto.
Qed.

Lemma str_field_ok (key : string) (v : option string) :
  Spec.single_line key = true -> Aux.field_ok (Spec.str_field key v).
Proof.
  intros Hk x. destruct v as [s|]; simpl; [|discriminate].
  intros [= <-]. apply single_line_field; [exact Hk|].
  apply single_line_quote, (single_line_escape (Some s)).
Qed.

Lemma entry_ok (kv : string * option string) :
  (if Spec.is_raw kv.1 kv.2 then Spec.single_line (default "" kv.2) else true) = true ->
  Spec.single_line (Spec.entry kv) = true.
Proof.
  destruct kv as [k v]; simpl. intros Hraw.
  apply single_line_field; [apply (single_line_escape (Some k))|].
  destruct (Spec.is_raw k v); [exact Hraw|].
  apply single_line_quote, single_line_escape.
Qed.

Lemma extra_field_ok (msg : WEB_MESSAGE_REC) :
  Spec.raw_values_single_line msg = true -> Aux.field_ok (Spec.extra_field msg).
Proof.
  unfold Spec.raw_values_single_line, Spec.extra_field, Spec.extra_object.
  intros Hraw x. destruct (Spec.entries (msg_extra_data msg)) as [|kv kvs] eqn:He;
    simpl; [discriminate|].
  intros [= <-]. apply single_line_field; [reflexivity|].
  repeat apply single_line_app_intro; try reflexivity.
  apply single_line_join. rewrite forallb_forall in Hraw.
  apply Forall_forall. intros f Hf.
  apply list_elem_of_In in Hf.
  change (In f (map Spec.entry (kv :: kvs))) in Hf.
  apply in_map_iff in Hf. destruct Hf as (kv' & <- & Hin).
  apply entry_ok, Hraw, Hin.
Qed.

Lemma single_line_object (msg : WEB_MESSAGE_REC) :
  Spec.raw_values_single_line msg = true ->
  Spec.single_line (Spec.object msg) = true.
Proof.
  intros Hraw. unfold Spec.object.
  repeat apply single_line_app_intro; try reflexivity.
  apply single_line_join, present_ok.
  unfold Spec.fields, Spec.fields_before_text, Spec.fields_after_text. simpl app.
  repeat apply Forall_cons_2; try apply Forall_nil_2;
    try (apply str_field_ok; reflexivity).
  - intros x [= <-]. apply single_line_field; [reflexivity|].
    apply single_line_quote, single_line_type.
  - apply str_field_ok. unfold Spec.text_key. now destruct (decide _).
  - intros x [= <-]. apply single_line_field; [reflexivity|apply single_line_fmt_d].
  - intros x. destruct (decide _); [discriminate|]. intros [= <-].
    apply single_line_field; [reflexivity|apply single_line_fmt_d].
  - intros x. destruct (decide _); [|discriminate]. intros [= <-].
    apply single_line_field; [reflexivity|]. now destruct (msg_is_own msg).
  - now apply extra_field_ok.
Qed.

(** ** The contract of the serializer *)

Example to_json_sample :
  fe_web_message_to_json sample_message
  = Str.lit "{'id':'1700000000-0001','type':'message','server':'libera','channel':'#rocq','nick':'al','text':'hi \'there\'','timestamp':1700000000,'level':4,'is_own':true,'extra':{'params':[1,2,3]}}".
Proof. vm_compute. reflexivity. Qed.

(** Three entries, in the order in which the table gives them. *)
Example to_json_whois :
  fe_web_message_to_json whois_message
  = Str.lit "{'id':'1700000000-0042','type':'whois','response_to':'req-7','server':'libera','nick':'al \'the\' \\pal','timestamp':1700000000,'level':-3,'extra':{'realname':'\tAl','away':'','params':'1,2'}}".
Proof. vm_compute. reflexivity. Qed.

Example to_json_multiline :
  fe_web_message_to_json multiline_message
  = Str.lit "{'type':'pong','timestamp':0,'extra':{'params':[" +:+ String "010" "]}}".
Proof. vm_compute. reflexivity. Qed.

(** C1 (amended). For every message, [to_json] writes an opening brace, the
    included fields separated by single commas, and a closing brace; the
    fields are, in this order, id (iff present), type (always), response_to
    (iff present), server (iff server_tag present), channel (iff target
    present), nick (iff present), text-or-task (iff text present), timestamp
    (always, integer seconds), level (iff nonzero, bare integer), is_own
    (iff the type is chat-message, literal true/false) and extra (iff the
    extension map is non-empty).  The entries of the extra object are those
    of the extension map, each once, in the order in which the table gives
    them, whatever that order is.  The text is a single line whenever no
    value that goes out raw holds a line break. *)
Theorem to_json_fields_in_order (msg : WEB_MESSAGE_REC) :
  fe_web_message_to_json msg = Spec.object msg
  /\ (forall table, msg_extra_data msg = Some table ->
      Spec.entries (msg_extra_data msg) = table_iter table
      /\ table_iter table ≡ₚ map_to_list (table_map table))
  /\ (Spec.raw_values_single_line msg = true ->
      Spec.single_line (fe_web_message_to_json msg) = true).
Proof.
  split; [apply to_json_object|]. split.
  - intros table ->. split; [reflexivity | apply table_iter_once].
  - intros Hraw. rewrite to_json_object. now apply single_line_object.
Qed.

Lemma to_json_fields_in_order_witness :
  Spec.raw_values_single_line sample_message = true
  /\ Spec.single_line (fe_web_message_to_json sample_message) = true.
Proof.
  split; [vm_compute; reflexivity|].
  apply (proj2 (proj2 (to_json_fields_in_order sample_message))).
  vm_compute; reflexivity.
Defined.

(** C1 as worded fails: the value of [params] goes out as it is, line
    break included. *)
Lemma to_json_not_single_line : ~ Spec.to_json_contract multiline_message.
Proof. intros [_ Hline]. vm_compute in Hline. discriminate. Qed.

(** ** The extension map *)

#[local] Instance escaped_inj : Inj (=) (=) escaped.
Proof.
  intros a b Hab.
  pose proof (read_string_quote a "") as Ha.
  pose proof (read_string_quote b "") as Hb.
  rewrite Hab in Ha. congruence.
Qed.

Lemma is_raw_iff (key : string) (value : option string) :
  Spec.is_raw key value = true
  <-> key = "params" /\ exists v, value = Some v /\ Str.first_byte v = "["%char.
Proof.
  rewrite <- raw_params_is_raw. unfold raw_params.
  destruct value as [v|].
  - rewrite andb_true_iff, String.eqb_eq, Ascii.eqb_eq. split.
    + intros [Hk Hv]. eauto.
    + intros [Hk (v' & [= <-] & Hv)]. auto.
  - split; [discriminate|]. now intros [_ (v & Hv & _)].
Qed.

Lemma extra_text_nonempty (extra : option GHashTable) :
  Spec.extra_text extra <> "" <-> Spec.extra_nonempty extra.
Proof.
  unfold Spec.extra_text, Spec.extra_object, Spec.extra_nonempty, Spec.entries.
  destruct extra as [table|].
  - destruct (table_iter table) as [|kv kvs] eqn:Hl.
    + apply table_iter_nil in Hl. split; [congruence|].
      now intros (t & [= <-] & Hne).
    + split; [|discriminate]. intros _. exists table. split; [reflexivity|].
      intros Hempty. apply table_iter_nil in Hempty. congruence.
  - split; [congruence|]. now intros (t & Ht & _).
Qed.

Lemma to_json_extra_split (msg : WEB_MESSAGE_REC) :
  fe_web_message_to_json msg
  = Spec.fields_text msg +:+ Spec.extra_text (msg_extra_data msg) +:+ "}".
Proof.
  rewrite to_json_object. unfold Spec.object, Spec.fields, Spec.fields_text.
  set (before := Spec.fields_before_text msg ++ [Spec.text_field msg]
                 ++ Spec.fields_after_text msg).
  replace (Spec.fields_before_text msg ++ [Spec.text_field msg]
           ++ Spec.fields_after_text msg ++ [Spec.extra_field msg])
    with (before ++ [Spec.extra_field msg])
    by (subst before; now rewrite <- !app_assoc).
  unfold Spec.present. rewrite omap_app. fold Spec.present.
  rewrite JoinFacts.join_app.
  - rewrite !StrFacts.app_assoc. do 2 f_equal.
    unfold Spec.extra_text, Spec.extra_field.
    destruct (Spec.extra_object (msg_extra_data msg)); simpl; [|reflexivity].
    now rewrite StrFacts.app_nil_r.
  - subst before. unfold Spec.fields_before_text, Spec.present.
    destruct (msg_id msg); discriminate.
Qed.

(** C6. [to_json] includes the extra object iff the extension map is
    non-empty.  The object holds one entry per entry of the map, in the
    order in which the table gives them (any order of the entries: the
    statement is for every table), each key once; the key is escaped, and
    the value goes out raw iff the key equals [params] and the first
    character of the value is an opening bracket, otherwise as an escaped
    JSON string. *)
Theorem extra_object_rendering (msg : WEB_MESSAGE_REC) :
  fe_web_message_to_json msg
  = Spec.fields_text msg +:+ Spec.extra_text (msg_extra_data msg) +:+ "}"
  /\ (Spec.extra_text (msg_extra_data msg) <> ""
      <-> Spec.extra_nonempty (msg_extra_data msg))
  /\ forall table : GHashTable,
       msg_extra_data msg = Some table -> table_map table <> ∅ ->
       Spec.extra_text (msg_extra_data msg)
       = Str.lit ",'extra':{"
         +:+ Str.join "," (map Spec.entry (table_iter table)) +:+ "}"
       /\ NoDup (map (fun kv => escaped kv.1) (table_iter table))
       /\ (forall key value,
             (key, value) ∈ table_iter table
             <-> table_map table !! key = Some value)
       /\ forall key value,
            Spec.entry (key, value)
            = Json.quote (escaped key) +:+ ":"
              +:+ (if Spec.is_raw key value then default "" value
                   else Json.quote (fe_web_escape_json value))
            /\ (Spec.is_raw key value = true
                <-> key = "params"
                    /\ exists v, value = Some v /\ Str.first_byte v = "["%char).
Proof.
  split; [apply to_json_extra_split|].
  split; [apply extra_text_nonempty|].
  intros table Hextra Hne. rewrite Hextra.
  split; [|split; [|split]].
  - unfold Spec.extra_text, Spec.extra_object, Spec.entries.
    destruct (table_iter table) as [|kv kvs] eqn:Hl.
    + now apply table_iter_nil in Hl.
    + str_norm. reflexivity.
  - replace (map (fun kv : string * option string => escaped kv.1) (table_iter table))
      with (escaped <$> (table_iter table).*1)
      by (now rewrite <- list_fmap_compose).
    apply (NoDup_fmap_2 escaped). rewrite (table_iter_once table).
    apply NoDup_fst_map_to_list.
  - intros key value. rewrite (table_iter_once table). apply elem_of_map_to_list.
  - intros key value. split; [reflexivity | apply is_raw_iff].
Qed.

Lemma extra_object_rendering_witness :
  Spec.extra_text (msg_extra_data sample_message)
  = Str.lit ",'extra':{'params':[1,2,3]}".
Proof.
  pose proof (extra_object_rendering sample_message) as (_ & _ & Hextra).
  destruct (Hextra params_table) as (Htext & _).
  - reflexivity.
  - vm_compute. discriminate.
  - rewrite Htext. vm_compute. reflexivity.
Defined.

(** ** The text field *)

Lemma to_json_text_split (msg : WEB_MESSAGE_REC) :
  fe_web_message_to_json msg
  = Spec.head_text msg +:+ Str.seps "," (Spec.present [Spec.text_field msg])
    +:+ Spec.tail_text msg.
Proof.
  rewrite to_json_object.
  unfold Spec.object, Spec.fields, Spec.head_text, Spec.tail_text.
  unfold Spec.present. rewrite !omap_app. fold Spec.present.
  rewrite JoinFacts.join_app, !JoinFacts.seps_app.
  - now rewrite !StrFacts.app_assoc.
  - unfold Spec.fields_before_text, Spec.present.
    destruct (msg_id msg); discriminate.
Qed.

(** C7. For every message with text present, [to_json] writes the text
    under the key [task] iff the type is nicklist-update, and under the key
    [text] for every other type, between the fields up to nick and the
    fields from timestamp on (the extra object last, its entries in the
    order in which the table gives them); when text is absent nothing is
    written there. *)
Theorem text_or_task (msg : WEB_MESSAGE_REC) :
  match msg_text msg with
  | Some t =>
      (msg_type msg = WEB_MSG_NICKLIST_UPDATE ->
       fe_web_message_to_json msg
       = Spec.head_text msg +:+ Str.lit ",'task':'" +:+ escaped t +:+ Str.lit "'"
         +:+ Spec.tail_text msg)
      /\ (msg_type msg <> WEB_MSG_NICKLIST_UPDATE ->
          fe_web_message_to_json msg
          = Spec.head_text msg +:+ Str.lit ",'text':'" +:+ escaped t +:+ Str.lit "'"
            +:+ Spec.tail_text msg)
  | None =>
      fe_web_message_to_json msg = Spec.head_text msg +:+ Spec.tail_text msg
  end.
Proof.
  rewrite to_json_text_split. unfold Spec.text_field, Spec.text_key.
  destruct (msg_text msg) as [t|]; simpl.
  - destruct (decide (msg_type msg = WEB_MSG_NICKLIST_UPDATE)) as [Hnu|Hnu];
      (split; intros Hty; [|]); try contradiction;
      str_norm; reflexivity.
  - reflexivity.
Qed.

Lemma text_or_task_witness :
  fe_web_message_to_json nicklist_message
  = Str.lit "{'type':'nicklist_update','channel':'#rocq','task':'add','timestamp':7}".
Proof.
  pose proof (text_or_task nicklist_message) as Htext.
  simpl in Htext. destruct Htext as [Htask _].
  rewrite (Htask eq_refl). vm_compute. reflexivity.
Defined.

(** ** The type names *)

(** The list of the known variants has each of them once. *)
Lemma known_types_spec :
  length known_types = 23%nat
  /\ NoDup known_types
  /\ forall t, known_type t = true <-> t ∈ known_types.
Proof.
  split; [reflexivity|]. split.
  - apply (bool_decide_unpack (NoDup known_types)). vm_compute. exact I.
  - intros t. split.
    + destruct t; try discriminate; intros _; unfold known_types;
        repeat first [apply list_elem_of_here | apply list_elem_of_further].
    + intros Hin. destruct t; try reflexivity.
      unfold known_types in Hin.
      repeat (apply elem_of_cons in Hin as [Heq|Hin]; [discriminate Heq|]).
      inversion Hin.
Qed.

Lemma type_of_string_name (t : WEB_MESSAGE_TYPE) :
  known_type t = true -> Aux.type_of_string (fe_web_type_to_string t) = Some t.
Proof. destruct t; intros Hk; try discriminate Hk; reflexivity. Qed.

Lemma escaped_type_name (t : WEB_MESSAGE_TYPE) :
  escaped (fe_web_type_to_string t) = fe_web_type_to_string t.
Proof. destruct t; reflexivity. Qed.

Lemma expect_head (c : ascii) (s : string) :
  Spec.expect c (String c "" +:+ s) = Some s.
Proof.
  rewrite StrFacts.app_cons, StrFacts.app_nil_l. unfold Spec.expect.
  now rewrite Ascii.eqb_refl.
Qed.

Lemma read_type_value_name (t : WEB_MESSAGE_TYPE) (rest : string) :
  Spec.read_type_value
    (":" +:+ Json.quote (fe_web_type_to_string t) +:+ rest)
  = Some (fe_web_type_to_string t).
Proof.
  unfold Spec.read_type_value.
  rewrite expect_head. cbn [mbind option_bind].
  rewrite <- (escaped_type_name t) at 1.
  rewrite read_string_quote. reflexivity.
Qed.

Lemma join_present_app (fs1 fs2 : list (option string)) :
  Spec.present fs1 <> [] ->
  Str.join "," (Spec.present (fs1 ++ fs2))
  = Str.join "," (Spec.present fs1) +:+ Str.seps "," (Spec.present fs2).
Proof.
  intros Hne. unfold Spec.present in *. rewrite omap_app.
  now apply JoinFacts.join_app.
Qed.

Lemma to_json_head (msg : WEB_MESSAGE_REC) :
  exists rest,
    fe_web_message_to_json msg
    = "{" +:+ match msg_id msg with
              | Some i => Json.quote (escaped "id") +:+ ":" +:+ Json.quote (escaped i) +:+ ","
              | None => ""
              end
      +:+ Json.quote (escaped "type") +:+ ":"
      +:+ Json.quote (fe_web_type_to_string (msg_type msg)) +:+ rest.
Proof.
  rewrite to_json_text_split. unfold Spec.head_text, Spec.fields_before_text.
  set (others := [Spec.str_field "response_to" _; _; _; _]).
  exists (Str.seps "," (Spec.present others)
          +:+ Str.seps "," (Spec.present [Spec.text_field msg])
          +:+ Spec.tail_text msg).
  change (Spec.present (?a :: ?b :: others))
    with (Spec.present ([a; b] ++ others)).
  rewrite join_present_app.
  - rewrite !StrFacts.app_assoc.
    generalize (Str.seps "," (Spec.present others)
                +:+ Str.seps "," (Spec.present [Spec.text_field msg])
                +:+ Spec.tail_text msg).
    intros rest.
    change (escaped "id") with "id". change (escaped "type") with "type".
    destruct (msg_id msg) as [i|]; simpl; unfold Str.join; str_norm; reflexivity.
  - destruct (msg_id msg); discriminate.
Qed.

(** The reader finds the name of the type in what [to_json] writes. *)
Lemma read_type_to_json (msg : WEB_MESSAGE_REC) :
  Spec.read_type (fe_web_message_to_json msg)
  = Some (fe_web_type_to_string (msg_type msg)).
Proof.
  destruct (to_json_head msg) as [rest ->].
  unfold Spec.read_type.
  destruct (msg_id msg) as [i|].
  - rewrite !StrFacts.app_assoc.
    repeat (first [rewrite expect_head | rewrite read_string_quote];
            cbn [mbind option_bind String.eqb Ascii.eqb Bool.eqb]).
    apply read_type_value_name.
  - rewrite StrFacts.app_nil_l.
    repeat (first [rewrite expect_head | rewrite read_string_quote];
            cbn [mbind option_bind String.eqb Ascii.eqb Bool.eqb]).
    apply read_type_value_name.
Qed.

(** C9. The table of names is injective on the 23 known variants: two
    distinct known variants have distinct names, and no known variant is
    named [unknown]; hence the type field that [to_json] writes tells the
    variant of the message. *)
Theorem type_names_identify (a b : WEB_MESSAGE_TYPE) :
  known_type a = true -> known_type b = true ->
  fe_web_type_to_string a <> "unknown"
  /\ (a <> b -> fe_web_type_to_string a <> fe_web_type_to_string b)
  /\ forall m1 m2 : WEB_MESSAGE_REC,
       msg_type m1 = a -> msg_type m2 = b ->
       fe_web_message_to_json m1 = fe_web_message_to_json m2 -> a = b.
Proof.
  intros Ha Hb.
  assert (Hinj : fe_web_type_to_string a = fe_web_type_to_string b -> a = b).
  { intros Hab. apply type_of_string_name in Ha, Hb. congruence. }
  split; [|split].
  - destruct a; try discriminate Ha; discriminate.
  - intros Hne Hab. now apply Hne, Hinj.
  - intros m1 m2 <- <- Hjson. apply Hinj.
    pose proof (read_type_to_json m1) as H1.
    pose proof (read_type_to_json m2) as H2.
    rewrite Hjson in H1. congruence.
Qed.

Lemma type_names_identify_witness :
  length known_types = 23%nat
  /\ fe_web_type_to_string WEB_MSG_PONG <> "unknown"
  /\ fe_web_type_to_string WEB_MSG_PONG <> fe_web_type_to_string WEB_MSG_ERROR.
Proof.
  split; [reflexivity|].
  destruct (type_names_identify WEB_MSG_PONG WEB_MSG_ERROR eq_refl eq_refl)
    as (Hunknown & Hdistinct & _).
  split; [exact Hunknown | apply Hdistinct; discriminate].
Defined.

(** ** The id generator *)

Lemma fmt_04d_range_check :
  forallb (fun k => Spec.four_digits_of k (Printf.fmt_04d k))
    (map Z.of_nat (seq 0 (Z.to_nat 10000))) = true.
Proof. vm_compute. reflexivity. Qed.

Lemma fmt_04d_four_digits (k : Z) :
  0 <= k < 10000 -> Spec.four_digits_of k (Printf.fmt_04d k) = true.
Proof.
  intros Hk. pose proof fmt_04d_range_check as Hall.
  rewrite forallb_forall in Hall. apply Hall.
  apply in_map_iff. exists (Z.to_nat k). split; [lia|].
  apply in_seq. lia.
Qed.

Lemma fmt_04d_value (k : Z) :
  0 <= k < 10000 -> Spec.digits_value (Printf.fmt_04d k) = k.
Proof.
  intros Hk. pose proof (fmt_04d_four_digits k Hk) as Hfour.
  unfold Spec.four_digits_of in Hfour.
  apply andb_true_iff in Hfour as [_ Hv]. now apply Z.eqb_eq.
Qed.

Lemma id_text_inj (now a b : Z) :
  0 <= a < 10000 -> 0 <= b < 10000 -> Aux.id_text now a = Aux.id_text now b -> a = b.
Proof.
  intros Ha Hb Hab. unfold Aux.id_text in Hab.
  apply StrFacts.app_inv_head, StrFacts.app_inv_head in Hab.
  rewrite <- (fmt_04d_value a Ha), <- (fmt_04d_value b Hb). now rewrite Hab.
Qed.

Lemma generate_one (now counter : Z) :
  0 <= counter < 10000 ->
  fe_web_generate_message_id now counter
  = (Aux.id_text now counter, (counter + 1) mod 10000).
Proof.
  intros Hc. unfold fe_web_generate_message_id, Aux.id_text. f_equal.
  destruct (Z.leb_spec 10000 (counter + 1)) as [Hwrap|Hnext].
  - replace (counter + 1) with 10000 by lia. reflexivity.
  - symmetry. apply Z.mod_small. lia.
Qed.

Lemma generate_ids_cons (now : Z) (clock : list Z) (counter : Z) :
  0 <= counter < 10000 ->
  generate_ids (now :: clock) counter
  = (Aux.id_text now counter :: (generate_ids clock ((counter + 1) mod 10000)).1,
     (generate_ids clock ((counter + 1) mod 10000)).2).
Proof.
  intros Hc.
  change (generate_ids (now :: clock) counter)
    with (let '(id, c1) := fe_web_generate_message_id now counter in
          let '(ids, c2) := generate_ids clock c1 in (id :: ids, c2)).
  rewrite generate_one by exact Hc.
  now destruct (generate_ids clock ((counter + 1) mod 10000)).
Qed.

Lemma generate_ids_counter (clock : list Z) (counter : Z) :
  0 <= counter < 10000 -> 0 <= (generate_ids clock counter).2 < 10000.
Proof.
  revert counter. induction clock as [|now clock IH]; intros counter Hc.
  - exact Hc.
  - rewrite generate_ids_cons by exact Hc. simpl.
    apply IH. apply Z.mod_pos_bound. lia.
Qed.

Lemma generate_ids_same_second (n : nat) (now counter : Z) :
  0 <= counter < 10000 ->
  (generate_ids (replicate n now) counter).1
  = map (fun i => Aux.id_text now ((counter + Z.of_nat i) mod 10000)) (seq 0 n).
Proof.
  revert counter. induction n as [|n IH]; intros counter Hc; [reflexivity|].
  simpl replicate. rewrite generate_ids_cons by exact Hc.
  cbn [fst]. rewrite IH by (apply Z.mod_pos_bound; lia).
  cbn [seq map]. f_equal.
  - rewrite Z.add_0_r, Z.mod_small by lia. reflexivity.
  - rewrite <- seq_shift, map_map. apply map_ext. intros i.
    f_equal. rewrite Z.add_mod_idemp_l by lia. f_equal. lia.
Qed.

Lemma mod_shift_inj (c a b : Z) :
  0 <= a < 10000 -> 0 <= b < 10000 ->
  (c + a) mod 10000 = (c + b) mod 10000 -> a = b.
Proof.
  intros Ha Hb Hab.
  pose proof (Z.div_mod (c + a) 10000 ltac:(lia)) as Hda.
  pose proof (Z.div_mod (c + b) 10000 ltac:(lia)) as Hdb.
  rewrite Hab in Hda.
  assert (Hq : (c + a) / 10000 = (c + b) / 10000) by lia.
  rewrite Hq in Hda. lia.
Qed.

(** C5. An id is the decimal clock reading, a dash and the counter; the
    counter starts at 0, is written as exactly 4 zero-padded digits
    (0000 to 9999), is incremented after each call and wraps to 0 on
    reaching 10000.  Hence, whatever calls came earlier, 10000 consecutive
    calls within one second give pairwise distinct ids, and call 10001 of
    that second gives the id of call 1 again. *)
Theorem next_id_cycle (earlier : list Z) (now : Z) :
  let counter := (generate_ids earlier counter_init).2 in
  let ids := (generate_ids (replicate (Z.to_nat 10001) now) counter).1 in
  counter_init = 0
  /\ 0 <= counter < 10000
  /\ (fe_web_generate_message_id now counter).2
     = (if decide (counter + 1 = 10000) then 0 else counter + 1)
  /\ length ids = Z.to_nat 10001
  /\ (forall (i : nat) (id : string),
        ids !! i = Some id ->
        exists digits,
          id = Printf.fmt_d now +:+ "-" +:+ digits
          /\ Spec.four_digits_of ((counter + Z.of_nat i) mod 10000) digits = true)
  /\ NoDup (take (Z.to_nat 10000) ids)
  /\ ids !! Z.to_nat 10000 = ids !! 0%nat.
Proof.
  intros counter ids.
  assert (Hc : 0 <= counter < 10000).
  { apply generate_ids_counter. unfold counter_init. lia. }
  assert (Hids : ids = map (fun i => Aux.id_text now ((counter + Z.of_nat i) mod 10000))
                         (seq 0 (Z.to_nat 10001))).
  { apply generate_ids_same_second, Hc. }
  split; [reflexivity|]. split; [exact Hc|]. split; [|split; [|split; [|split]]].
  - rewrite generate_one by exact Hc. cbn [snd].
    destruct (decide (counter + 1 = 10000)) as [->|Hne]; [reflexivity|].
    apply Z.mod_small. lia.
  - rewrite Hids, length_map, length_seq. reflexivity.
  - intros i id. rewrite Hids. intros Hi.
    apply list_lookup_fmap_Some in Hi as (j & -> & Hj).
    apply lookup_seq in Hj as [-> _].
    exists (Printf.fmt_04d ((counter + Z.of_nat i) mod 10000)).
    split; [reflexivity|].
    apply fmt_04d_four_digits, Z.mod_pos_bound. lia.
  - rewrite Hids. change map with (@fmap list _). rewrite <- fmap_take, take_seq.
    apply NoDup_fmap_2_strong; [|apply NoDup_seq].
    intros i j Hi Hj Hij.
    apply elem_of_seq in Hi, Hj.
    apply id_text_inj in Hij; try (apply Z.mod_pos_bound; lia).
    apply Nat2Z.inj, (mod_shift_inj counter); [lia | lia | exact Hij].
  - rewrite Hids. change map with (@fmap list _). rewrite !list_lookup_fmap.
    rewrite !lookup_seq_lt by lia. cbn [fmap option_fmap option_map].
    do 2 f_equal. simpl Z.of_nat.
    rewrite Z2Nat.id by lia.
    change (Z.of_nat 0) with 0.
    rewrite <- (Z.mod_add (counter + 0) 1 10000) by lia. f_equal. lia.
Qed.

Lemma next_id_cycle_witness :
  (generate_ids (replicate (Z.to_nat 10001) 1700000000) counter_init).1
    !! Z.to_nat 10000
  = Some "1700000000-0000".
Proof.
  pose proof (next_id_cycle [] 1700000000) as Hcycle.
  cbv zeta in Hcycle.
  destruct Hcycle as (_ & _ & _ & _ & _ & _ & Hsame).
  etransitivity; [exact Hsame|]. vm_compute. reflexivity.
Defined.

(** ** The sender *)

Section SenderFacts.
Context `{Collaborators}.

(** A call only appends to the trace, and what it appends and does to the
    client does not depend on the trace it finds. *)
Lemma send_frame_app (c : WEB_CLIENT_REC) (h : Z) (type_str frame : string)
    (w : list event) :
  send_frame c h type_str frame w
  = ((send_frame c h type_str frame []).1,
     w ++ (send_frame c h type_str frame []).2).
Proof.
  unfold send_frame, printtext.
  destruct (use_ssl c), (ssl_channel c) as [channel|];
    try destruct (fe_web_ssl_write channel frame <? 0);
    cbn [fst snd app]; rewrite <- ?app_assoc; reflexivity.
Qed.

Lemma send_json_app (c : WEB_CLIENT_REC) (h : Z) (type_str : string)
    (msg : WEB_MESSAGE_REC) (w : list event) :
  send_json c h type_str msg w
  = ((send_json c h type_str msg []).1,
     w ++ (send_json c h type_str msg []).2).
Proof.
  unfold send_json, printtext.
  destruct (encryption_enabled c).
  - destruct fe_web_crypto_get_key as [key|].
    + destruct (fe_web_crypto_encrypt (fe_web_message_to_json msg) key) as [ct|].
      * rewrite send_frame_app. rewrite (send_frame_app _ _ _ _ (_ ++ _)).
        cbn [fst snd app]. rewrite <- !app_assoc. reflexivity.
      * cbn [fst snd app]. rewrite <- !app_assoc. reflexivity.
    + cbn [fst snd app]. rewrite <- !app_assoc. reflexivity.
  - rewrite send_frame_app. rewrite (send_frame_app _ _ _ _ (_ ++ _)).
    cbn [fst snd app]. rewrite <- !app_assoc. reflexivity.
Qed.

Lemma send_message_app (client : option WEB_CLIENT_REC) (msg : WEB_MESSAGE_REC)
    (w : list event) :
  fe_web_send_message client msg w
  = ((fe_web_send_message client msg []).1,
     w ++ (fe_web_send_message client msg []).2).
Proof.
  unfold fe_web_send_message, printtext.
  destruct client as [c|]; [|reflexivity].
  destruct (bool_decide (msg_type msg = WEB_MSG_AUTH_OK)),
    (authenticated c), (handshake_done c), (handle c) as [h|];
    cbn [negb orb fst snd app]; try reflexivity;
    rewrite send_json_app;
    destruct (send_json c h (fe_web_type_to_string (msg_type msg)) msg []);
    reflexivity.
Qed.

Lemma transmitted_app (w1 w2 : list event) :
  SendSpec.transmitted (w1 ++ w2)
  = SendSpec.transmitted w1 ++ SendSpec.transmitted w2.
Proof. apply omap_app. Qed.

(** The transmission block against step 4. *)
Lemma send_frame_outcome (c : WEB_CLIENT_REC) (h : Z) (type_str frame : string)
    (w : list event) :
  match SendSpec.transmit c frame with
  | SendSpec.Sent f =>
      f = frame
      /\ SendSpec.transmitted (send_frame c h type_str frame w).2
         = SendSpec.transmitted w ++ [frame]
      /\ (send_frame c h type_str frame w).1 = count_sent c
  | SendSpec.Aborted _ =>
      SendSpec.transmitted (send_frame c h type_str frame w).2
      = SendSpec.transmitted w
      /\ (send_frame c h type_str frame w).1 = c
  end.
Proof.
  unfold SendSpec.transmit, send_frame, printtext.
  destruct (use_ssl c), (ssl_channel c) as [channel|];
    try destruct (fe_web_ssl_write channel frame <? 0) eqn:Hret;
    cbn [fst snd]; rewrite !transmitted_app; cbn;
    rewrite ?Hret, ?app_nil_r; auto.
Qed.

(** The pipeline against steps 1 to 4. *)
Lemma send_json_outcome (c : WEB_CLIENT_REC) (h : Z) (msg : WEB_MESSAGE_REC)
    (w : list event) :
  let r := send_json c h (fe_web_type_to_string (msg_type msg)) msg w in
  match SendSpec.pipeline c msg with
  | SendSpec.Sent frame =>
      SendSpec.transmitted r.2 = SendSpec.transmitted w ++ [frame]
      /\ r.1 = count_sent c
  | SendSpec.Aborted _ =>
      SendSpec.transmitted r.2 = SendSpec.transmitted w /\ r.1 = c
  end.
Proof.
  unfold SendSpec.pipeline, send_json, printtext. cbv zeta.
  destruct (encryption_enabled c).
  - destruct fe_web_crypto_get_key as [key|].
    + destruct (fe_web_crypto_encrypt (fe_web_message_to_json msg) key) as [ct|].
      * match goal with
        | |- context [send_frame c h ?t ?f ?w0] =>
            pose proof (send_frame_outcome c h t f w0) as Hframe
        end.
        destruct (SendSpec.transmit c (fe_web_websocket_create_frame 2 ct));
          rewrite !transmitted_app in Hframe; cbn in Hframe;
          rewrite ?app_nil_r in Hframe; [destruct Hframe as (-> & ? & ?)|]; auto.
      * cbn [fst snd]. rewrite !transmitted_app. cbn. rewrite !app_nil_r. auto.
    + cbn [fst snd]. rewrite !transmitted_app. cbn. rewrite !app_nil_r. auto.
  - match goal with
    | |- context [send_frame c h ?t ?f ?w0] =>
        pose proof (send_frame_outcome c h t f w0) as Hframe
    end.
    destruct (SendSpec.transmit c (fe_web_websocket_create_frame 1 _));
      rewrite !transmitted_app in Hframe; cbn in Hframe;
      rewrite ?app_nil_r in Hframe; [destruct Hframe as (-> & ? & ?)|]; auto.
Qed.

(** What a send does, by its outcome. *)
Lemma send_effect (client : option WEB_CLIENT_REC)
    (msg : WEB_MESSAGE_REC) (w : list event) :
  let r := fe_web_send_message client msg w in
  match SendSpec.send_outcome client msg with
  | SendSpec.Sent frame =>
      SendSpec.transmitted r.2 = SendSpec.transmitted w ++ [frame]
      /\ exists c, client = Some c
                  /\ r.1 = Some (count_sent c)
                  /\ messages_sent (count_sent c) = (messages_sent c + 1)%N
  | SendSpec.Aborted _ =>
      SendSpec.transmitted r.2 = SendSpec.transmitted w /\ r.1 = client
  end.
Proof.
  unfold SendSpec.send_outcome, SendSpec.ready, fe_web_send_message, printtext.
  cbv zeta.
  destruct client as [c|];
    [|cbn [fst snd]; rewrite transmitted_app; cbn; rewrite app_nil_r; now auto].
  destruct (decide (msg_type msg = WEB_MSG_AUTH_OK)) as [Hty|Hty].
  - rewrite (bool_decide_eq_true_2 _ Hty). cbn [negb].
    destruct (handshake_done c); cbn [negb].
    + destruct (handle c) as [h|].
      * pose proof (send_json_outcome c h msg w) as Hjson. cbv zeta in Hjson.
        destruct (send_json c h _ msg w) as [c' w'].
        destruct (SendSpec.pipeline c msg); cbn [fst snd] in *;
          destruct Hjson as [? ->]; eauto.
      * cbn [fst snd]. rewrite transmitted_app. cbn. rewrite app_nil_r. auto.
    + cbn [fst snd]. rewrite transmitted_app. cbn. rewrite app_nil_r. auto.
  - rewrite (bool_decide_eq_false_2 _ Hty). cbn [negb].
    destruct (authenticated c), (handshake_done c); cbn [negb andb orb];
      try (cbn [fst snd]; rewrite transmitted_app; cbn; rewrite app_nil_r; now auto).
    destruct (handle c) as [h|].
    + pose proof (send_json_outcome c h msg w) as Hjson. cbv zeta in Hjson.
      destruct (send_json c h _ msg w) as [c' w'].
      destruct (SendSpec.pipeline c msg); cbn [fst snd] in *;
        destruct Hjson as [? ->]; eauto.
    + cbn [fst snd]. rewrite transmitted_app. cbn. rewrite app_nil_r. auto.
Qed.

(** C2. A send transmits a frame and increments the sent-message counter of
    the client exactly when the gating passes and the pipeline completes:
    the client is not absent and has a transport handle; for the
    authentication acknowledgement the handshake is done (authentication is
    not required), for every other type the client is authenticated and
    the handshake is done; and key lookup, encryption and SSL write do not
    fail.  On every abort path nothing is transmitted and the client, its
    counter included, is unchanged. *)
Theorem send_transmits_iff (client : option WEB_CLIENT_REC)
    (msg : WEB_MESSAGE_REC) (w : list event) :
  let r := fe_web_send_message client msg w in
  match SendSpec.send_outcome client msg with
  | SendSpec.Sent frame =>
      SendSpec.transmitted r.2 = SendSpec.transmitted w ++ [frame]
      /\ exists c, client = Some c
                  /\ r.1 = Some (count_sent c)
                  /\ messages_sent (count_sent c) = (messages_sent c + 1)%N
  | SendSpec.Aborted _ =>
      SendSpec.transmitted r.2 = SendSpec.transmitted w /\ r.1 = client
  end
  /\ ((exists frame, SendSpec.send_outcome client msg = SendSpec.Sent frame)
      <-> exists c,
            client = Some c
            /\ is_Some (handle c)
            /\ (if decide (msg_type msg = WEB_MSG_AUTH_OK)
                then handshake_done c = true
                else authenticated c = true /\ handshake_done c = true)
            /\ exists frame, SendSpec.pipeline c msg = SendSpec.Sent frame).
Proof.
  split; [apply send_effect|].
  unfold SendSpec.send_outcome, SendSpec.ready.
  destruct client as [c|].
  2:{ split; [intros [frame Hsent]; discriminate|].
      intros (c & Hc & _); discriminate. }
  split.
  - intros [frame Hsent]. exists c. split; [reflexivity|].
    destruct (decide (msg_type msg = WEB_MSG_AUTH_OK));
      destruct (authenticated c), (handshake_done c); try discriminate;
      destruct (handle c); try discriminate; eauto.
  - intros (c0 & [= <-] & [h Hh] & Hflags & Hpipe). rewrite Hh.
    destruct (decide (msg_type msg = WEB_MSG_AUTH_OK)).
    + rewrite Hflags. exact Hpipe.
    + destruct Hflags as [-> ->]. exact Hpipe.
Qed.


(** ** What a send logs *)

Lemma includes_refl (s : string) : Str.includes s s.
Proof. exists "", "". now rewrite StrFacts.app_nil_r. Qed.

Lemma includes_head (s b : string) : Str.includes s (s +:+ b).
Proof. now exists "", b. Qed.

Lemma includes_skip (s a b : string) :
  Str.includes s b -> Str.includes s (a +:+ b).
Proof.
  intros (pre & post & ->). exists (a +:+ pre), post.
  now rewrite StrFacts.app_assoc.
Qed.

Ltac find_included :=
  first [ apply includes_head
        | apply includes_refl
        | apply includes_skip; find_included ].

(** The transmission block, when the SSL write fails. *)
Lemma send_frame_abort (c : WEB_CLIENT_REC) (h : Z) (msg : WEB_MESSAGE_REC)
    (frame : string) (w : list event) (p : SendSpec.abort_point) :
  SendSpec.transmit c frame = SendSpec.Aborted p ->
  exists (e : event) (line : string),
    send_frame c h (fe_web_type_to_string (msg_type msg)) frame w
    = (c, w ++ [e; EvPrint MSGLEVEL_CLIENTERROR line])
    /\ (MSGLEVEL_CLIENTERROR, line) = SendSpec.abort_line (Some c) msg p
    /\ SendSpec.progress_event c msg e
    /\ SendSpec.names_type msg line
    /\ Str.includes (client_id c) line.
Proof.
  unfold SendSpec.transmit, send_frame, printtext.
  destruct (use_ssl c), (ssl_channel c) as [channel|]; try discriminate.
  destruct (fe_web_ssl_write channel frame <? 0); [|discriminate].
  intros [= <-].
  eexists _, _. rewrite <- app_assoc. split; [reflexivity|].
  split; [reflexivity|].
  split; [exact I|]. split; [unfold SendSpec.names_type|]; find_included.
Qed.

Lemma sending_is_progress (c : WEB_CLIENT_REC) (msg : WEB_MESSAGE_REC) :
  SendSpec.progress_event c msg
    (EvPrint MSGLEVEL_CLIENTNOTICE
       ("fe-web: [" +:+ client_id c +:+ "] Sending "
        +:+ fe_web_type_to_string (msg_type msg) +:+ ": "
        +:+ fe_web_message_to_json msg)).
Proof.
  split; [reflexivity|].
  exists "Sending", (": " +:+ fe_web_message_to_json msg). split; [auto|].
  reflexivity.
Qed.

Lemma encrypted_is_progress (c : WEB_CLIENT_REC) (msg : WEB_MESSAGE_REC)
    (sizes : string) :
  SendSpec.progress_event c msg
    (EvPrint MSGLEVEL_CLIENTNOTICE
       ("fe-web: [" +:+ client_id c +:+ "] Encrypted "
        +:+ fe_web_type_to_string (msg_type msg) +:+ sizes)).
Proof.
  split; [reflexivity|]. exists "Encrypted", sizes. split; [auto|]. reflexivity.
Qed.

Ltac progress_list :=
  repeat first
    [ apply Forall_nil_2
    | apply Forall_cons_2;
      [ first [ assumption | exact I | apply sending_is_progress
              | apply encrypted_is_progress ] | ] ].

(** The pipeline, when one of its stages fails. *)
Lemma send_json_abort (c : WEB_CLIENT_REC) (h : Z) (msg : WEB_MESSAGE_REC)
    (w : list event) (p : SendSpec.abort_point) :
  SendSpec.pipeline c msg = SendSpec.Aborted p ->
  exists (progress : list event) (line : string),
    send_json c h (fe_web_type_to_string (msg_type msg)) msg w
    = (c, w ++ progress ++ [EvPrint MSGLEVEL_CLIENTERROR line])
    /\ (MSGLEVEL_CLIENTERROR, line) = SendSpec.abort_line (Some c) msg p
    /\ Forall (SendSpec.progress_event c msg) progress
    /\ SendSpec.names_type msg line
    /\ Str.includes (client_id c) line.
Proof.
  unfold SendSpec.pipeline, send_json, printtext. cbv zeta.
  pose proof (sending_is_progress c msg) as Hsending.
  destruct (encryption_enabled c).
  - destruct fe_web_crypto_get_key as [key|].
    + destruct (fe_web_crypto_encrypt (fe_web_message_to_json msg) key) as [ct|].
      * intros Habort.
        match goal with
        | |- context [send_frame c h _ ?f ?w0] =>
            destruct (send_frame_abort c h msg f w0 p Habort)
              as (e & line & -> & Hline & He & Hty & Hid)
        end.
        eexists [_; _; _; e], line. rewrite <- !app_assoc.
        split; [reflexivity|]. split; [exact Hline|].
        split; [progress_list | auto].
      * intros [= <-]. eexists [_; _], _. rewrite <- !app_assoc.
        split; [reflexivity|]. split; [reflexivity|]. split; [progress_list|].
        split; [unfold SendSpec.names_type|]; find_included.
    + intros [= <-]. eexists [_], _. rewrite <- !app_assoc.
      split; [reflexivity|]. split; [reflexivity|]. split; [progress_list|].
      split; [unfold SendSpec.names_type|]; find_included.
  - intros Habort.
    match goal with
    | |- context [send_frame c h _ ?f ?w0] =>
        destruct (send_frame_abort c h msg f w0 p Habort)
          as (e & line & -> & Hline & He & Hty & Hid)
    end.
    eexists [_; e], line. rewrite <- !app_assoc.
    split; [reflexivity|]. split; [exact Hline|].
    split; [progress_list | auto].
Qed.

(** A notice of progress is the report of no abort. *)
Lemma progress_not_report (c : WEB_CLIENT_REC) (msg : WEB_MESSAGE_REC)
    (e : event) :
  SendSpec.progress_event c msg e -> ~ SendSpec.abort_report (Some c) msg e.
Proof.
  intros Hprog [p ->]. destruct Hprog as (Hlevel & what & rest & Hwhat & Htext).
  unfold SendSpec.abort_line in Hlevel, Htext. cbv zeta in Hlevel, Htext.
  destruct p; try discriminate Hlevel.
  destruct (decide (msg_type msg = WEB_MSG_AUTH_OK)); [discriminate Hlevel|].
  cbn [fst snd] in Htext.
  do 2 apply StrFacts.app_inv_head in Htext.
  destruct Hwhat as [-> | ->];
    rewrite !StrFacts.app_cons in Htext; discriminate Htext.
Qed.

(** The trace of a send that is given up. *)
Lemma abort_trace (client : option WEB_CLIENT_REC)
    (msg : WEB_MESSAGE_REC) (w : list event) (p : SendSpec.abort_point) :
  SendSpec.send_outcome client msg = SendSpec.Aborted p ->
  exists (progress : list event) (level : MSGLEVEL) (line : string),
    fe_web_send_message client msg w
    = (client, w ++ progress ++ [EvPrint level line])
    /\ (level, line) = SendSpec.abort_line client msg p
    /\ (forall c, client = Some c -> Forall (SendSpec.progress_event c msg) progress)
    /\ (p = SendSpec.AbortNoClient \/ p = SendSpec.AbortNotReady
        \/ p = SendSpec.AbortNoHandle -> progress = [])
    /\ SendSpec.names_type msg line
    /\ (forall c, client = Some c -> Str.includes (client_id c) line).
Proof.
  unfold SendSpec.send_outcome, SendSpec.ready, fe_web_send_message, printtext.
  cbv zeta.
  destruct client as [c|].
  2:{ intros [= <-]. exists [], MSGLEVEL_CLIENTERROR. eexists.
      split; [reflexivity|]. split; [reflexivity|].
      split; [discriminate|]. split; [reflexivity|].
      split; [unfold SendSpec.names_type; find_included | discriminate]. }
  assert (Hchecked : forall p',
    match handle c with
    | Some _ => SendSpec.pipeline c msg
    | None => SendSpec.Aborted SendSpec.AbortNoHandle
    end = SendSpec.Aborted p' ->
    exists progress level line,
      match handle c with
      | Some h =>
          let '(c', w0) := send_json c h (fe_web_type_to_string (msg_type msg)) msg w in
          (Some c', w0)
      | None =>
          (Some c,
           w ++ [EvPrint MSGLEVEL_CLIENTERROR
                   ("fe-web: [" +:+ client_id c +:+ "] ERROR: Cannot send "
                    +:+ fe_web_type_to_string (msg_type msg) +:+ " - handle is NULL")])
      end = (Some c, w ++ progress ++ [EvPrint level line])
      /\ (level, line) = SendSpec.abort_line (Some c) msg p'
      /\ (forall c0, Some c = Some c0 -> Forall (SendSpec.progress_event c0 msg) progress)
      /\ (p' = SendSpec.AbortNoClient \/ p' = SendSpec.AbortNotReady
          \/ p' = SendSpec.AbortNoHandle -> progress = [])
      /\ SendSpec.names_type msg line
      /\ (forall c0, Some c = Some c0 -> Str.includes (client_id c0) line)).
  { intros p'. destruct (handle c) as [h|].
    - intros Habort.
      destruct (send_json_abort c h msg w p' Habort)
        as (progress & line & -> & Hline & Hprog & Hty & Hid).
      exists progress, MSGLEVEL_CLIENTERROR, line.
      split; [reflexivity|]. split; [exact Hline|].
      split; [now intros c0 [= <-]|].
      split; [|split; [exact Hty | now intros c0 [= <-]]].
      unfold SendSpec.pipeline, SendSpec.transmit in Habort.
      intros [-> | [-> | ->]]; repeat case_match; discriminate.
    - intros [= <-]. exists [], MSGLEVEL_CLIENTERROR. eexists.
      split; [reflexivity|]. split; [reflexivity|].
      split; [now intros c0 [= <-]|].
      split; [reflexivity|].
      split; [unfold SendSpec.names_type; find_included|].
      intros c0 [= <-]. find_included. }
  destruct (decide (msg_type msg = WEB_MSG_AUTH_OK)) as [Hty|Hty].
  - rewrite (bool_decide_eq_true_2 _ Hty). cbn [negb].
    destruct (handshake_done c); cbn [negb]; [apply Hchecked|].
    intros [= <-]. exists [], MSGLEVEL_CLIENTERROR. eexists.
    split; [reflexivity|].
    split; [unfold SendSpec.abort_line; cbv zeta;
            destruct (decide (msg_type msg = WEB_MSG_AUTH_OK)); [reflexivity | contradiction]|].
    split; [now intros c0 [= <-]|].
    split; [reflexivity|].
    split; [unfold SendSpec.names_type; find_included|].
    intros c0 [= <-]. find_included.
  - rewrite (bool_decide_eq_false_2 _ Hty). cbn [negb].
    destruct (authenticated c) eqn:Hauth, (handshake_done c) eqn:Hdone;
      cbn [negb andb orb];
      try apply Hchecked;
      (intros [= <-]; exists [], MSGLEVEL_CLIENTNOTICE; eexists;
       split; [reflexivity|];
       split; [unfold SendSpec.abort_line; cbv zeta; rewrite Hauth, Hdone;
               destruct (decide (msg_type msg = WEB_MSG_AUTH_OK));
               [contradiction | reflexivity]|];
       split; [now intros c0 [= <-]|];
       split; [reflexivity|];
       split; [unfold SendSpec.names_type; find_included|];
       intros c0 [= <-]; find_included).
Qed.

(** C8 (amended). At every abort decision point of a send (absent client,
    failed gating, absent handle, absent key, encryption failure, SSL write
    failure) exactly one log line reports the abort, as the last event of
    the call: the line has the level and the text that the source gives
    for that point, and no event before it is the report of any abort.
    Before it the call has emitted nothing when the abort comes before the
    serialization, and only events of the pipeline otherwise (the notices
    of progress, the encryption request, the failed write).  The line
    includes the name of the message type, and the identity of the client
    whenever there is a client. *)
Theorem abort_logs_one_line (client : option WEB_CLIENT_REC)
    (msg : WEB_MESSAGE_REC) (w : list event) (p : SendSpec.abort_point) :
  SendSpec.send_outcome client msg = SendSpec.Aborted p ->
  exists (progress : list event) (level : MSGLEVEL) (line : string),
    fe_web_send_message client msg w
    = (client, w ++ progress ++ [EvPrint level line])
    /\ (level, line) = SendSpec.abort_line client msg p
    /\ Forall (fun e => ~ SendSpec.abort_report client msg e) progress
    /\ (forall c, client = Some c -> Forall (SendSpec.progress_event c msg) progress)
    /\ (p = SendSpec.AbortNoClient \/ p = SendSpec.AbortNotReady
        \/ p = SendSpec.AbortNoHandle -> progress = [])
    /\ SendSpec.names_type msg line
    /\ (forall c, client = Some c -> Str.includes (client_id c) line).
Proof.
  intros Habort.
  destruct (abort_trace client msg w p Habort)
    as (progress & level & line & Hcall & Hline & Hprog & Hearly & Hty & Hid).
  exists progress, level, line.
  split; [exact Hcall|]. split; [exact Hline|].
  split; [|split; [exact Hprog|split; [exact Hearly|split; [exact Hty | exact Hid]]]].
  destruct client as [c|].
  - apply (Forall_impl _ _ _ (Hprog c eq_refl)).
    intros e. apply progress_not_report.
  - unfold SendSpec.send_outcome in Habort. injection Habort as <-.
    rewrite Hearly by auto. constructor.
Qed.

(** The pipeline starts with the notice that shows the plaintext. *)
Lemma send_json_first (c : WEB_CLIENT_REC) (h : Z) (msg : WEB_MESSAGE_REC)
    (w : list event) :
  exists rest,
    (send_json c h (fe_web_type_to_string (msg_type msg)) msg w).2
    = w ++ EvPrint MSGLEVEL_CLIENTNOTICE
             ("fe-web: [" +:+ client_id c +:+ "] Sending "
              +:+ fe_web_type_to_string (msg_type msg) +:+ ": "
              +:+ fe_web_message_to_json msg) :: rest
    /\ (encryption_enabled c = true ->
        forall key, fe_web_crypto_get_key = Some key ->
        exists rest',
          rest = EvEncrypt (fe_web_message_to_json msg) key
                   (fe_web_crypto_encrypt (fe_web_message_to_json msg) key)
                 :: rest').
Proof.
  unfold send_json, printtext. cbv zeta.
  destruct (encryption_enabled c).
  - destruct fe_web_crypto_get_key as [key|].
    + destruct (fe_web_crypto_encrypt (fe_web_message_to_json msg) key) as [ct|] eqn:Hct.
      * rewrite send_frame_app. cbn [snd]. rewrite <- !app_assoc. cbn [app].
        eexists. split; [reflexivity|]. intros _ key' [= <-].
        rewrite Hct. eexists. reflexivity.
      * cbn [snd]. rewrite <- !app_assoc. cbn [app].
        eexists. split; [reflexivity|]. intros _ key' [= <-].
        rewrite Hct. eexists. reflexivity.
    + cbn [snd]. rewrite <- !app_assoc. cbn [app].
      eexists. split; [reflexivity|]. discriminate.
  - rewrite send_frame_app. cbn [snd]. rewrite <- !app_assoc. cbn [app].
    eexists. split; [reflexivity|]. discriminate.
Qed.

(** C10. For every client and message that pass the gating, clients with
    encryption enabled included, the first thing a send does is to hand
    the complete plaintext JSON of the message to the log; the request to
    encrypt, if any, comes after it. *)
Theorem plaintext_logged_first (c : WEB_CLIENT_REC) (h : Z)
    (msg : WEB_MESSAGE_REC) (w : list event) :
  SendSpec.ready c msg = true -> handle c = Some h ->
  exists rest,
    (fe_web_send_message (Some c) msg w).2
    = w ++ EvPrint MSGLEVEL_CLIENTNOTICE
             ("fe-web: [" +:+ client_id c +:+ "] Sending "
              +:+ fe_web_type_to_string (msg_type msg) +:+ ": "
              +:+ fe_web_message_to_json msg) :: rest
    /\ (encryption_enabled c = true ->
        forall key, fe_web_crypto_get_key = Some key ->
        exists rest',
          rest = EvEncrypt (fe_web_message_to_json msg) key
                   (fe_web_crypto_encrypt (fe_web_message_to_json msg) key)
                 :: rest').
Proof.
  intros Hready Hhandle.
  destruct (send_json_first c h msg w) as (rest & Hfirst & Henc).
  exists rest. split; [|exact Henc]. rewrite <- Hfirst.
  unfold fe_web_send_message. cbv zeta. rewrite Hhandle.
  unfold SendSpec.ready in Hready.
  destruct (decide (msg_type msg = WEB_MSG_AUTH_OK)) as [Hty|Hty].
  - rewrite (bool_decide_eq_true_2 _ Hty), Hready. cbn [negb].
    now destruct (send_json c h _ msg w).
  - rewrite (bool_decide_eq_false_2 _ Hty).
    apply andb_true_iff in Hready as [-> ->]. cbn [negb orb].
    now destruct (send_json c h _ msg w).
Qed.

(** ** The fan-out *)

Lemma send_to_app (c : WEB_CLIENT_REC) (msg : WEB_MESSAGE_REC) (w : list event) :
  send_to c msg w
  = ((SendSpec.one_send c msg).1, w ++ (SendSpec.one_send c msg).2).
Proof.
  unfold SendSpec.one_send, send_to. rewrite send_message_app.
  destruct (fe_web_send_message (Some c) msg []) as [c' w']. reflexivity.
Qed.

Lemma server_clients_loop_fan_out (to : Z) (msg : WEB_MESSAGE_REC)
    (web_clients : list WEB_CLIENT_REC) (w : list event) :
  server_clients_loop to msg web_clients w
  = SendSpec.fan_out (SendSpec.for_server to) msg web_clients w.
Proof.
  unfold SendSpec.fan_out. revert w.
  induction web_clients as [|c cs IH]; intros w.
  - simpl. now rewrite app_nil_r.
  - cbn [server_clients_loop map concat].
    change (synced_with to c) with (SendSpec.for_server to c).
    destruct (SendSpec.for_server to c).
    + rewrite send_to_app, IH. now rewrite <- app_assoc.
    + now rewrite IH.
Qed.

Lemma all_clients_loop_fan_out (msg : WEB_MESSAGE_REC)
    (web_clients : list WEB_CLIENT_REC) (w : list event) :
  all_clients_loop msg web_clients w
  = SendSpec.fan_out authenticated msg web_clients w.
Proof.
  unfold SendSpec.fan_out. revert w.
  induction web_clients as [|c cs IH]; intros w.
  - simpl. now rewrite app_nil_r.
  - cbn [all_clients_loop map concat].
    destruct (authenticated c).
    + rewrite send_to_app, IH. now rewrite <- app_assoc.
    + now rewrite IH.
Qed.

(** One send, by its outcome. *)
Lemma one_send_effect (c : WEB_CLIENT_REC) (msg : WEB_MESSAGE_REC) :
  SendSpec.transmitted (SendSpec.one_send c msg).2
  = match SendSpec.delivered c msg with Some frame => [frame] | None => [] end
  /\ (SendSpec.one_send c msg).1
     = match SendSpec.delivered c msg with Some _ => count_sent c | None => c end.
Proof.
  unfold SendSpec.one_send, send_to, SendSpec.delivered.
  pose proof (send_effect (Some c) msg []) as Heffect. cbv zeta in Heffect.
  destruct (fe_web_send_message (Some c) msg []) as [c' w'].
  destruct (SendSpec.send_outcome (Some c) msg); cbn [fst snd] in *.
  - destruct Heffect as (-> & c0 & [= <-] & -> & _). auto.
  - destruct Heffect as (-> & ->). auto.
Qed.

Lemma one_send_visible (c : WEB_CLIENT_REC) (msg : WEB_MESSAGE_REC) :
  (SendSpec.one_send c msg).2 <> [].
Proof.
  unfold SendSpec.one_send, send_to, fe_web_send_message, send_json, send_frame,
    printtext.
  repeat case_match; simplify_eq; cbn [snd]; try (now destruct (_ : list event));
    intros Hnil; apply (f_equal length) in Hnil; rewrite ?length_app in Hnil;
    simpl in Hnil; lia.
Qed.

Lemma fan_out_transmitted (selects : WEB_CLIENT_REC -> bool)
    (msg : WEB_MESSAGE_REC) (web_clients : list WEB_CLIENT_REC) (w : list event) :
  SendSpec.transmitted (SendSpec.fan_out selects msg web_clients w).2
  = SendSpec.transmitted w
    ++ omap (fun c => if selects c then SendSpec.delivered c msg else None)
         web_clients.
Proof.
  unfold SendSpec.fan_out. cbn [snd]. rewrite transmitted_app. f_equal.
  induction web_clients as [|c cs IH]; [reflexivity|].
  cbn [map concat omap list_omap]. rewrite transmitted_app, IH.
  destruct (selects c); [|reflexivity].
  destruct (one_send_effect c msg) as [-> _].
  now destruct (SendSpec.delivered c msg).
Qed.

Lemma fan_out_clients (selects : WEB_CLIENT_REC -> bool)
    (msg : WEB_MESSAGE_REC) (web_clients : list WEB_CLIENT_REC) (w : list event) :
  (SendSpec.fan_out selects msg web_clients w).1
  = map (fun c =>
           if selects c && bool_decide (is_Some (SendSpec.delivered c msg))
           then count_sent c else c) web_clients.
Proof.
  unfold SendSpec.fan_out. cbn [fst]. apply map_ext. intros c.
  destruct (selects c); [|reflexivity].
  destruct (one_send_effect c msg) as [_ ->].
  destruct (SendSpec.delivered c msg); reflexivity.
Qed.

(** C3. [send_to_server_clients] does nothing when the server is absent;
    otherwise it walks the whole registry once and sends exactly once to
    every client that is authenticated and is bound to the server or wants
    all servers.  [send_to_all_clients] walks the whole registry once and
    sends exactly once to every authenticated client, whatever its server.
    Every send leaves its events in the trace, in registry order; what a
    client receives and whether its counter moves depend on its own send
    only, so a send that fails neither stops the walk nor touches the
    delivery to the clients after it. *)
Theorem fan_out_once (msg : WEB_MESSAGE_REC)
    (web_clients : list WEB_CLIENT_REC) (w : list event) :
  fe_web_send_to_server_clients None msg web_clients w = (web_clients, w)
  /\ (forall to : Z,
        fe_web_send_to_server_clients (Some to) msg web_clients w
        = SendSpec.fan_out (SendSpec.for_server to) msg web_clients w)
  /\ fe_web_send_to_all_clients msg web_clients w
     = SendSpec.fan_out authenticated msg web_clients w
  /\ (forall c, (SendSpec.one_send c msg).2 <> [])
  /\ forall selects : WEB_CLIENT_REC -> bool,
       SendSpec.transmitted (SendSpec.fan_out selects msg web_clients w).2
       = SendSpec.transmitted w
         ++ omap (fun c => if selects c then SendSpec.delivered c msg else None)
              web_clients
       /\ (SendSpec.fan_out selects msg web_clients w).1
          = map (fun c =>
                   if selects c && bool_decide (is_Some (SendSpec.delivered c msg))
                   then count_sent c else c) web_clients.
Proof.
  split; [reflexivity|].
  split; [intros to; apply server_clients_loop_fan_out|].
  split; [apply all_clients_loop_fan_out|].
  split; [intros c; apply one_send_visible|].
  intros selects. split; [apply fan_out_transmitted | apply fan_out_clients].
Qed.

End SenderFacts.

(** ** Sample runs of the sender *)

Example unauthenticated_chat_is_dropped :
  fe_web_send_message (H := sample_collaborators) (Some pending_client)
    chat_message []
  = (Some pending_client,
     [EvPrint MSGLEVEL_CLIENTNOTICE
        "fe-web: [c1] Skipping message - not ready (auth:0 handshake:1)"]).
Proof. vm_compute. reflexivity. Qed.

Example failed_ssl_write_is_logged :
  fe_web_send_message (H := sample_collaborators) (Some ssl_client)
    chat_message []
  = (Some ssl_client,
     [ EvPrint MSGLEVEL_CLIENTNOTICE
         (Str.lit "fe-web: [c4] Sending message: {'type':'message','timestamp':0,'is_own':false}");
       EvSslWrite 13
         (String (ascii_of_N 129)
            (Str.lit "{'type':'message','timestamp':0,'is_own':false}"))
         (-1);
       EvPrint MSGLEVEL_CLIENTERROR "fe-web: [c4] SSL write failed for message" ]).
Proof. vm_compute. reflexivity. Qed.

Lemma send_transmits_iff_witness :
  SendSpec.transmitted
    (fe_web_send_message (H := sample_collaborators) (Some pending_client)
       auth_ok_message []).2
  = [] ++ [fe_web_websocket_create_frame (Collaborators := sample_collaborators) 1
             (fe_web_message_to_json auth_ok_message)]
  /\ SendSpec.transmitted
       (fe_web_send_message (H := sample_collaborators) (Some pending_client)
          chat_message []).2
     = [].
Proof.
  split.
  - exact (proj1 (proj1 (send_transmits_iff (H := sample_collaborators)
                           (Some pending_client) auth_ok_message []))).
  - exact (proj1 (proj1 (send_transmits_iff (H := sample_collaborators)
                           (Some pending_client) chat_message []))).
Defined.

Lemma abort_logs_one_line_witness :
  exists progress level line,
    fe_web_send_message (H := keyless_collaborators) (Some encrypted_client)
      chat_message []
    = (Some encrypted_client, [] ++ progress ++ [EvPrint level line])
    /\ (level, line)
       = SendSpec.abort_line (Some encrypted_client) chat_message SendSpec.AbortNoKey
    /\ Forall (fun e => ~ SendSpec.abort_report (Some encrypted_client) chat_message e)
         progress
    /\ (forall c, Some encrypted_client = Some c ->
        Forall (SendSpec.progress_event c chat_message) progress)
    /\ (SendSpec.AbortNoKey = SendSpec.AbortNoClient
        \/ SendSpec.AbortNoKey = SendSpec.AbortNotReady
        \/ SendSpec.AbortNoKey = SendSpec.AbortNoHandle -> progress = [])
    /\ SendSpec.names_type chat_message line
    /\ (forall c, Some encrypted_client = Some c -> Str.includes (client_id c) line).
Proof.
  apply (abort_logs_one_line (H := keyless_collaborators)
           (Some encrypted_client) chat_message [] SendSpec.AbortNoKey).
  vm_compute. reflexivity.
Defined.

(** C8 as worded fails at the absent client: the line of that abort names
    the type of the message and no client; unlike the lines of the other
    aborts it has no bracketed identity at all. *)
Lemma absent_client_line_names_no_client :
  SendSpec.send_outcome (H := sample_collaborators) None pong_message
  = SendSpec.Aborted SendSpec.AbortNoClient
  /\ (fe_web_send_message (H := sample_collaborators) None pong_message []).2
     = [EvPrint MSGLEVEL_CLIENTERROR
          "fe-web: ERROR: Cannot send pong - client is NULL"]
  /\ ~ SendSpec.names_client None
         "fe-web: ERROR: Cannot send pong - client is NULL"
  /\ ~ Str.includes "[" "fe-web: ERROR: Cannot send pong - client is NULL".
Proof.
  split; [reflexivity|]. split; [vm_compute; reflexivity|]. split.
  - intros (c & Hclient & _). discriminate Hclient.
  - intros (pre & post & Htext).
    apply (f_equal (Str.has_byte "[")) in Htext.
    rewrite !StrFacts.has_byte_app in Htext. cbn in Htext.
    rewrite orb_true_r in Htext. discriminate Htext.
Qed.

Lemma plaintext_logged_first_witness :
  exists rest,
    (fe_web_send_message (H := sample_collaborators) (Some encrypted_client)
       chat_message []).2
    = [] ++ EvPrint MSGLEVEL_CLIENTNOTICE
              ("fe-web: [" +:+ client_id encrypted_client +:+ "] Sending "
               +:+ fe_web_type_to_string (msg_type chat_message) +:+ ": "
               +:+ fe_web_message_to_json chat_message) :: rest
    /\ (encryption_enabled encrypted_client = true ->
        forall key,
          fe_web_crypto_get_key (Collaborators := sample_collaborators) = Some key ->
          exists rest',
            rest = EvEncrypt (fe_web_message_to_json chat_message) key
                     (fe_web_crypto_encrypt (Collaborators := sample_collaborators)
                        (fe_web_message_to_json chat_message) key)
                   :: rest').
Proof.
  apply (plaintext_logged_first (H := sample_collaborators)
           encrypted_client 9 chat_message []); reflexivity.
Defined.

Lemma fan_out_once_witness :
  SendSpec.transmitted
    (fe_web_send_to_all_clients (H := keyless_collaborators) chat_message
       [encrypted_client; plain_client; pending_client] []).2
  = [fe_web_websocket_create_frame (Collaborators := keyless_collaborators) 1
       (fe_web_message_to_json chat_message)]
  /\ map messages_sent
       (fe_web_send_to_all_clients (H := keyless_collaborators) chat_message
          [encrypted_client; plain_client; pending_client] []).1
     = [0%N; 1%N; 0%N].
Proof.
  destruct (fan_out_once (H := keyless_collaborators) chat_message
              [encrypted_client; plain_client; pending_client] [])
    as (_ & _ & Hall & _ & Heffect).
  rewrite Hall. destruct (Heffect authenticated) as [-> ->].
  vm_compute. split; reflexivity.
Defined.

(** * Further properties *)

(** ** The escaper, piece by piece *)

Lemma all_bytes_app (p : ascii -> bool) (a b : string) :
  Bytes.all_bytes p (a +:+ b) = Bytes.all_bytes p a && Bytes.all_bytes p b.
Proof.
  induction a as [|x a IH]; [reflexivity|].
  rewrite StrFacts.app_cons. simpl. rewrite IH. apply andb_assoc.
Qed.

Lemma all_bytes_impl (p q : ascii -> bool) (s : string) :
  (forall c, p c = true -> q c = true) ->
  Bytes.all_bytes p s = true -> Bytes.all_bytes q s = true.
Proof.
  intros Hpq. induction s as [|c s IH]; [reflexivity|]. simpl.
  rewrite !andb_true_iff. intros [Hc Hs]. auto.
Qed.

Lemma string_length_app (a b : string) :
  String.length (a +:+ b) = (String.length a + String.length b)%nat.
Proof.
  induction a as [|x a IH]; [reflexivity|].
  rewrite StrFacts.app_cons. simpl. now rewrite IH.
Qed.

(** What the escaper writes for one byte: one to six bytes, none of them a
    control character; one byte exactly for a plain byte, which is then
    written as it is. *)
Lemma escape_byte_length (c : ascii) :
  (1 <= String.length (escape_byte c) <= 6)%nat
  /\ (String.length (escape_byte c) = 1%nat <-> Bytes.plain_byte c = true)
  /\ (Bytes.plain_byte c = true -> escape_byte c = String c "")
  /\ Bytes.all_bytes Bytes.printable (escape_byte c) = true.
Proof.
  destruct c as [[] [] [] [] [] [] [] []]; vm_compute;
    repeat split; intros; try lia; try discriminate; reflexivity.
Qed.

Lemma escape_not_shorter (s : string) :
  (String.length s <= String.length (escape_loop s ""))%nat.
Proof.
  induction s as [|c s IH]; [simpl; lia|].
  rewrite escape_loop_cons, string_length_app.
  destruct (escape_byte_length c) as (Hlen & _). simpl String.length. lia.
Qed.

Lemma escape_plain (s : string) :
  Bytes.all_bytes Bytes.plain_byte s = true -> fe_web_escape_json (Some s) = s.
Proof.
  simpl. induction s as [|c s IH]; [reflexivity|]. simpl.
  intros Hplain. apply andb_true_iff in Hplain as [Hc Hs].
  change (escape_loop s ("" +:+ escape_byte c))
    with (escape_loop (String c s) "").
  rewrite escape_loop_cons, (IH Hs).
  destruct (escape_byte_length c) as (_ & _ & Hsame & _).
  now rewrite (Hsame Hc).
Qed.

(** X1. Escaping distributes over concatenation: a text may be escaped
    piece by piece. *)
Theorem escape_app (a b : string) :
  fe_web_escape_json (Some (a +:+ b))
  = fe_web_escape_json (Some a) +:+ fe_web_escape_json (Some b).
Proof.
  simpl. induction a as [|c a IH]; [reflexivity|].
  rewrite StrFacts.app_cons, !escape_loop_cons, IH.
  now rewrite StrFacts.app_assoc.
Qed.

(** X2. The escaped text holds no control character (no byte below 32),
    whatever the input, NULL included. *)
Theorem escape_no_control (str : option string) :
  Bytes.all_bytes Bytes.printable (fe_web_escape_json str) = true.
Proof.
  destruct str as [s|]; [|reflexivity]. simpl.
  induction s as [|c s IH]; [reflexivity|].
  rewrite escape_loop_cons, all_bytes_app, IH.
  now destruct (escape_byte_length c) as (_ & _ & _ & ->).
Qed.

(** X3. An escaped text between quotes delimits itself: whatever follows
    the closing quote, the decoder reads the original string and stops
    right after that quote. *)
Theorem escaped_literal_self_delimiting (s rest : string) :
  Json.read_string (Json.quote (fe_web_escape_json (Some s)) +:+ rest)
  = Some (s, rest).
Proof. apply read_string_quote. Qed.

(** X4. The escaper loses nothing: two texts have the same escaped form
    exactly when they are equal. *)
Theorem escape_injective (a b : string) :
  fe_web_escape_json (Some a) = fe_web_escape_json (Some b) <-> a = b.
Proof.
  split; [|intros ->; reflexivity].
  intros Hsame.
  pose proof (read_string_quote a "") as Ha.
  pose proof (read_string_quote b "") as Hb.
  unfold escaped in Ha, Hb. rewrite Hsame in Ha. congruence.
Qed.

(** X5. The escaped text is at least as long as the input and at most six
    times as long. *)
Theorem escape_length_bounds (s : string) :
  (String.length s <= String.length (fe_web_escape_json (Some s))
   <= 6 * String.length s)%nat.
Proof.
  simpl. induction s as [|c s IH]; [simpl; lia|].
  rewrite escape_loop_cons, string_length_app.
  destruct (escape_byte_length c) as (Hlen & _). simpl String.length. lia.
Qed.

(** X6. The escaper returns its input unchanged exactly when the input has
    no control character, no double quote and no backslash; bytes from 128
    on (UTF-8 sequences) are among those it leaves alone. *)
Theorem escape_identity_iff (s : string) :
  fe_web_escape_json (Some s) = s <-> Bytes.all_bytes Bytes.plain_byte s = true.
Proof.
  split; [|apply escape_plain].
  simpl. intros Hid. apply (f_equal String.length) in Hid.
  induction s as [|c s IH]; [reflexivity|].
  rewrite escape_loop_cons, string_length_app in Hid. simpl in Hid |- *.
  destruct (escape_byte_length c) as (Hlen & Hone & _).
  pose proof (escape_not_shorter s) as Hs.
  assert (Hc : String.length (escape_byte c) = 1%nat) by lia.
  rewrite (proj1 Hone Hc). apply IH. lia.
Qed.

Lemma escape_identity_iff_witness :
  fe_web_escape_json (Some (String "195" (String "169" "t, 100%")))
  = String "195" (String "169" "t, 100%").
Proof. apply escape_identity_iff. reflexivity. Defined.

(** ** Ids across seconds *)

Lemma to_uint_nonnil (n : N) : N.to_uint n <> Decimal.Nil.
Proof.
  rewrite <- (DecimalN.Unsigned.of_to n) at 1.
  rewrite DecimalN.Unsigned.to_of. apply unorm_nonnil.
Qed.

Lemma fmt_d_string_of_int (z : Z) :
  Printf.fmt_d z = DecimalString.NilZero.string_of_int (dec_int z).
Proof. unfold Printf.fmt_d, dec_int, Printf.dec_digits. now destruct (z <? 0). Qed.

Lemma fmt_d_inj (a b : Z) : Printf.fmt_d a = Printf.fmt_d b -> a = b.
Proof.
  rewrite !fmt_d_string_of_int. intros Hab.
  assert (Hd : dec_int a = dec_int b).
  { assert (Hnn : forall z, dec_int z <> Decimal.Pos Decimal.Nil /\ dec_int z <> Decimal.Neg Decimal.Nil).
    { intros z. unfold dec_int. destruct (z <? 0); split; intros [= Hnil];
        now apply to_uint_nonnil in Hnil. }
    pose proof (DecimalString.NilZero.isi (dec_int a) (proj1 (Hnn a)) (proj2 (Hnn a))) as Ha.
    pose proof (DecimalString.NilZero.isi (dec_int b) (proj1 (Hnn b)) (proj2 (Hnn b))) as Hb.
    rewrite Hab in Ha. congruence. }
  unfold dec_int in Hd.
  destruct (Z.ltb_spec a 0), (Z.ltb_spec b 0); try discriminate;
    injection Hd as Hd; apply DecimalN.Unsigned.to_uint_inj in Hd; lia.
Qed.

(** Two equal texts with tails of one length have equal heads and tails. *)
Lemma app_inj_tail (a1 a2 b1 b2 : string) :
  String.length b1 = String.length b2 ->
  a1 +:+ b1 = a2 +:+ b2 -> a1 = a2 /\ b1 = b2.
Proof.
  intros Hlen. revert a2. induction a1 as [|x a1 IH]; intros [|y a2] Heq;
    rewrite ?StrFacts.app_nil_l, ?StrFacts.app_cons in Heq.
  - auto.
  - apply (f_equal String.length) in Heq. cbn [String.length] in Heq.
    rewrite string_length_app in Heq. lia.
  - apply (f_equal String.length) in Heq. cbn [String.length] in Heq.
    rewrite string_length_app in Heq. lia.
  - injection Heq as -> Heq. destruct (IH a2 Heq) as [-> ->]. auto.
Qed.

Lemma fmt_04d_length (k : Z) :
  0 <= k < 10000 -> String.length (Printf.fmt_04d k) = 4%nat.
Proof.
  intros Hk. pose proof (fmt_04d_four_digits k Hk) as Hfour.
  unfold Spec.four_digits_of in Hfour.
  apply andb_true_iff in Hfour as [Hfour _].
  apply andb_true_iff in Hfour as [Hlen _]. now apply Nat.eqb_eq.
Qed.

(** An id tells the clock reading and the counter it was made from. *)
Lemma id_text_inj_both (t1 t2 a b : Z) :
  0 <= a < 10000 -> 0 <= b < 10000 ->
  Aux.id_text t1 a = Aux.id_text t2 b -> t1 = t2 /\ a = b.
Proof.
  intros Ha Hb Hid. unfold Aux.id_text in Hid.
  apply app_inj_tail in Hid as [Ht Hc].
  - apply fmt_d_inj in Ht. subst t2. split; [reflexivity|].
    apply (id_text_inj t1 a b Ha Hb). unfold Aux.id_text. now rewrite Hc.
  - rewrite !StrFacts.app_cons. cbn [String.length].
    rewrite !StrFacts.app_nil_l. now rewrite !fmt_04d_length.
Qed.

Lemma generate_ids_lookup (clock : list Z) (counter : Z) (i : nat) :
  0 <= counter < 10000 ->
  (generate_ids clock counter).1 !! i
  = (fun now => Aux.id_text now ((counter + Z.of_nat i) mod 10000)) <$> clock !! i.
Proof.
  revert counter i. induction clock as [|now clock IH]; intros counter i Hc.
  - reflexivity.
  - rewrite generate_ids_cons by exact Hc. cbn [fst].
    destruct i as [|i].
    + cbn. rewrite Z.add_0_r, Z.mod_small by lia. reflexivity.
    + change ((?x :: ?l) !! S i) with (l !! i).
      rewrite IH by (apply Z.mod_pos_bound; lia).
      destruct (clock !! i); [|reflexivity]. cbn. do 2 f_equal.
      rewrite Z.add_mod_idemp_l by lia. f_equal. lia.
Qed.

Lemma mod_shift_iff (c a b : Z) :
  (c + a) mod 10000 = (c + b) mod 10000 <-> (a - b) mod 10000 = 0.
Proof.
  rewrite Z.cong_iff_0. replace (c + a - (c + b)) with (a - b) by lia. reflexivity.
Qed.

(** X7. Whatever the clock does, two calls of one run return the same id
    exactly when they read the same second and lie a multiple of 10000
    calls apart. *)
Theorem id_collision_iff (earlier clock : list Z) (i j : nat) (ti tj : Z) :
  clock !! i = Some ti -> clock !! j = Some tj ->
  let ids := (generate_ids clock (generate_ids earlier counter_init).2).1 in
  ids !! i = ids !! j
  <-> ti = tj /\ (Z.of_nat i - Z.of_nat j) mod 10000 = 0.
Proof.
  intros Hi Hj ids.
  assert (Hc : 0 <= (generate_ids earlier counter_init).2 < 10000).
  { apply generate_ids_counter. unfold counter_init. lia. }
  subst ids. rewrite !generate_ids_lookup, Hi, Hj by exact Hc. cbn.
  rewrite <- (mod_shift_iff (generate_ids earlier counter_init).2).
  split.
  - intros [= Hid]. apply id_text_inj_both in Hid; try (apply Z.mod_pos_bound; lia).
    exact Hid.
  - intros [-> ->]. reflexivity.
Qed.

Lemma id_collision_iff_witness :
  (generate_ids [5; 5; 6] counter_init).1 !! 0%nat
  <> (generate_ids [5; 5; 6] counter_init).1 !! 1%nat.
Proof.
  intros Hsame.
  apply (id_collision_iff [] [5; 5; 6] 0 1 5 5 eq_refl eq_refl) in Hsame.
  destruct Hsame as [_ Hmod]. vm_compute in Hmod. discriminate Hmod.
Defined.

(** ** What needs no escaping *)

Lemma id_byte_plain (c : ascii) : Bytes.id_byte c = true -> Bytes.plain_byte c = true.
Proof. destruct c as [[] [] [] [] [] [] [] []]; vm_compute; congruence. Qed.

Lemma name_byte_plain (c : ascii) : Bytes.name_byte c = true -> Bytes.plain_byte c = true.
Proof. destruct c as [[] [] [] [] [] [] [] []]; vm_compute; congruence. Qed.

Lemma id_bytes_uint (d : Decimal.uint) :
  Bytes.all_bytes Bytes.id_byte (DecimalString.NilEmpty.string_of_uint d) = true.
Proof. induction d; simpl; auto. Qed.

Lemma id_bytes_dec_digits (n : N) :
  Bytes.all_bytes Bytes.id_byte (Printf.dec_digits n) = true.
Proof.
  unfold Printf.dec_digits, DecimalString.NilZero.string_of_uint.
  destruct (N.to_uint n) eqn:Hd; try reflexivity; rewrite <- Hd; apply id_bytes_uint.
Qed.

Lemma id_bytes_pad0 (width : nat) (digits : string) :
  Bytes.all_bytes Bytes.id_byte digits = true ->
  Bytes.all_bytes Bytes.id_byte (Printf.pad0 width digits) = true.
Proof.
  intros Hd. unfold Printf.pad0. rewrite all_bytes_app, Hd, andb_true_r.
  induction (width - String.length digits)%nat; simpl; auto.
Qed.

(** X8. An id is made of decimal digits and minus signs only, so escaping
    leaves it as it is: [to_json] writes the id byte for byte. *)
Theorem id_needs_no_escape (now counter : Z) :
  let id := (fe_web_generate_message_id now counter).1 in
  Bytes.all_bytes Bytes.id_byte id = true
  /\ fe_web_escape_json (Some id) = id.
Proof.
  intros id.
  assert (Hid : Bytes.all_bytes Bytes.id_byte id = true).
  { subst id. unfold fe_web_generate_message_id. cbn [fst].
    rewrite !all_bytes_app. unfold Printf.fmt_d, Printf.fmt_04d.
    destruct (now <? 0), (counter <? 0);
      rewrite ?all_bytes_app, ?id_bytes_pad0, ?id_bytes_dec_digits;
      auto using id_bytes_dec_digits. }
  split; [exact Hid|].
  apply escape_plain.
  revert Hid. apply all_bytes_impl, id_byte_plain.
Qed.

(** X9. The name of every type, the fallback included, is made of
    lowercase letters and underscores, so the serializer can (and does)
    write it without escaping. *)
Theorem type_name_needs_no_escape (type : WEB_MESSAGE_TYPE) :
  Bytes.all_bytes Bytes.name_byte (fe_web_type_to_string type) = true
  /\ fe_web_escape_json (Some (fe_web_type_to_string type))
     = fe_web_type_to_string type.
Proof.
  assert (Hname : Bytes.all_bytes Bytes.name_byte (fe_web_type_to_string type) = true)
    by (destruct type; reflexivity).
  split; [exact Hname|].
  apply escape_plain.
  revert Hname. apply all_bytes_impl, name_byte_plain.
Qed.

(** ** The serializer, end to end *)

(** X10. A message fresh from [fe_web_message_new] serializes to its type
    and its creation time, and for a chat message the flag [is_own] as
    false; nothing else. *)
Theorem new_message_to_json (type : WEB_MESSAGE_TYPE) (now : Z) :
  fe_web_message_to_json (fe_web_message_new type now)
  = Str.lit "{'type':'" +:+ fe_web_type_to_string type
    +:+ Str.lit "','timestamp':" +:+ Printf.fmt_d now
    +:+ (if decide (type = WEB_MSG_MESSAGE) then Str.lit ",'is_own':false" else "")
    +:+ "}".
Proof.
  unfold fe_web_message_to_json, fe_web_message_new, extra_block.
  cbn [msg_id msg_type msg_server_tag msg_target msg_nick msg_text
       msg_response_to msg_timestamp msg_level msg_is_own msg_extra_data].
  change (g_hash_table_size g_hash_table_new_full)
    with (size (∅ : gmap string (option string))).
  rewrite map_size_empty.
  change (0 <? 0)%nat with false. change (negb (0 =? 0)) with false. cbv iota zeta.
  destruct (decide (type = WEB_MSG_MESSAGE)); str_norm; reflexivity.
Qed.

(** X11. The object [to_json] writes gives back the id (or its absence) and
    the name of the type to a reader of JSON strings. *)
Theorem to_json_head_read_back (msg : WEB_MESSAGE_REC) :
  Reader.read_id (fe_web_message_to_json msg) = msg_id msg
  /\ Spec.read_type (fe_web_message_to_json msg)
     = Some (fe_web_type_to_string (msg_type msg)).
Proof.
  split; [|apply read_type_to_json].
  destruct (to_json_head msg) as [rest ->].
  unfold Reader.read_id.
  destruct (msg_id msg) as [i|].
  - rewrite !StrFacts.app_assoc.
    repeat (first [rewrite expect_head | rewrite read_string_quote];
            cbn [mbind option_bind String.eqb Ascii.eqb Bool.eqb]).
    reflexivity.
  - rewrite StrFacts.app_nil_l.
    repeat (first [rewrite expect_head | rewrite read_string_quote];
            cbn [mbind option_bind String.eqb Ascii.eqb Bool.eqb]).
    reflexivity.
Qed.

(** ** The writes of a send *)

Section MoreSenderFacts.
Context `{Collaborators}.

Lemma writes_app (w1 w2 : list event) :
  Obs.writes (w1 ++ w2) = Obs.writes w1 ++ Obs.writes w2.
Proof. apply omap_app. Qed.

Lemma send_frame_writes (c : WEB_CLIENT_REC) (h : Z) (type_str frame : string)
    (w : list event) :
  Obs.writes (send_frame c h type_str frame w).2
  = Obs.writes w ++ [Obs.write_to c h frame].
Proof.
  unfold send_frame, Obs.write_to, printtext.
  destruct (use_ssl c), (ssl_channel c) as [channel|];
    try destruct (fe_web_ssl_write channel frame <? 0);
    cbn [snd]; rewrite !writes_app; cbn; now rewrite ?app_nil_r.
Qed.

Lemma send_json_writes (c : WEB_CLIENT_REC) (h : Z) (type_str : string)
    (msg : WEB_MESSAGE_REC) (w : list event) :
  Obs.writes (send_json c h type_str msg w).2
  = Obs.writes w
    ++ match Obs.framed c msg with
       | Some frame => [Obs.write_to c h frame]
       | None => []
       end.
Proof.
  unfold send_json, Obs.framed, printtext. cbv zeta.
  destruct (encryption_enabled c).
  - destruct fe_web_crypto_get_key as [key|]; cbn [mbind option_bind].
    + destruct (fe_web_crypto_encrypt (fe_web_message_to_json msg) key) as [ct|];
        cbn [mbind option_bind].
      * rewrite send_frame_writes, !writes_app. cbn. now rewrite !app_nil_r.
      * cbn [snd]. rewrite !writes_app. cbn. now rewrite !app_nil_r.
    + cbn [snd]. rewrite !writes_app. cbn. now rewrite !app_nil_r.
  - rewrite send_frame_writes, !writes_app. cbn. now rewrite !app_nil_r.
Qed.

(** The writes of a call. *)
Lemma call_writes (c : WEB_CLIENT_REC) (msg : WEB_MESSAGE_REC) :
  Obs.writes (Obs.call_events (Some c) msg)
  = if SendSpec.ready c msg then
      match handle c, Obs.framed c msg with
      | Some h, Some frame => [Obs.write_to c h frame]
      | _, _ => []
      end
    else [].
Proof.
  unfold Obs.call_events, fe_web_send_message, SendSpec.ready, printtext. cbv zeta.
  assert (Hchecked :
    Obs.writes
      (match handle c with
       | Some h =>
           let '(c', w0) := send_json c h (fe_web_type_to_string (msg_type msg)) msg [] in
           (Some c', w0)
       | None =>
           (Some c,
            [] ++ [EvPrint MSGLEVEL_CLIENTERROR
                     ("fe-web: [" +:+ client_id c +:+ "] ERROR: Cannot send "
                      +:+ fe_web_type_to_string (msg_type msg) +:+ " - handle is NULL")])
       end).2
    = match handle c, Obs.framed c msg with
      | Some h, Some frame => [Obs.write_to c h frame]
      | _, _ => []
      end).
  { destruct (handle c) as [h|]; [|reflexivity].
    pose proof (send_json_writes c h (fe_web_type_to_string (msg_type msg)) msg []) as Hw.
    destruct (send_json c h _ msg []) as [c' w']. exact Hw. }
  destruct (decide (msg_type msg = WEB_MSG_AUTH_OK)) as [Hty|Hty].
  - rewrite (bool_decide_eq_true_2 _ Hty). cbn [negb].
    destruct (handshake_done c); cbn [negb]; [exact Hchecked | reflexivity].
  - rewrite (bool_decide_eq_false_2 _ Hty). cbn [negb].
    destruct (authenticated c), (handshake_done c); cbn [negb andb orb];
      try reflexivity; exact Hchecked.
Qed.

(** X12. A send hands a frame to a transport at most once, and only to the
    client's own: to its SSL channel when the client uses SSL and has one
    (never to the plain handle then), to its plain handle otherwise. *)
Theorem send_writes_once (c : WEB_CLIENT_REC) (msg : WEB_MESSAGE_REC) :
  let ws := Obs.writes (Obs.call_events (Some c) msg) in
  (length ws <= 1)%nat
  /\ (forall h frame, Obs.PlainWrite h frame ∈ ws ->
        handle c = Some h /\ (use_ssl c = false \/ ssl_channel c = None))
  /\ (forall channel frame, Obs.SslWrite channel frame ∈ ws ->
        use_ssl c = true /\ ssl_channel c = Some channel).
Proof.
  cbv zeta. rewrite call_writes. unfold Obs.write_to.
  destruct (SendSpec.ready c msg), (handle c) as [h|], (Obs.framed c msg) as [f|],
    (use_ssl c), (ssl_channel c) as [ch|]; cbn [length];
    (split; [lia|]; split; intros a frame Hin;
     first [ apply elem_of_nil in Hin; contradiction
           | apply list_elem_of_singleton in Hin; try discriminate Hin;
             injection Hin as <- <-; auto ]).
Qed.

(** X13. With encryption enabled for the client, the only frame a send ever
    hands to a transport is the binary frame (opcode 2) of the ciphertext
    of the JSON under the current key, never the plaintext; without it,
    the text frame (opcode 1) of the JSON. *)
Theorem send_frame_content (c : WEB_CLIENT_REC) (msg : WEB_MESSAGE_REC)
    (x : Obs.write) :
  x ∈ Obs.writes (Obs.call_events (Some c) msg) ->
  if encryption_enabled c then
    exists key ciphertext,
      fe_web_crypto_get_key = Some key
      /\ fe_web_crypto_encrypt (fe_web_message_to_json msg) key = Some ciphertext
      /\ Obs.frame_of x = fe_web_websocket_create_frame 2 ciphertext
  else
    Obs.frame_of x = fe_web_websocket_create_frame 1 (fe_web_message_to_json msg).
Proof.
  rewrite call_writes. unfold Obs.framed, Obs.write_to. cbv zeta.
  destruct (SendSpec.ready c msg); [|intros Hin; now apply elem_of_nil in Hin].
  destruct (handle c) as [h|]; [|intros Hin; now apply elem_of_nil in Hin].
  destruct (encryption_enabled c).
  - destruct fe_web_crypto_get_key as [key|]; cbn [mbind option_bind];
      [|intros Hin; now apply elem_of_nil in Hin].
    destruct (fe_web_crypto_encrypt (fe_web_message_to_json msg) key) as [ct|] eqn:Hct;
      cbn [mbind option_bind]; [|intros Hin; now apply elem_of_nil in Hin].
    intros Hin. apply list_elem_of_singleton in Hin. subst x.
    exists key, ct. split; [reflexivity|]. split; [exact Hct|].
    destruct (use_ssl c), (ssl_channel c); reflexivity.
  - intros Hin. apply list_elem_of_singleton in Hin. subst x.
    destruct (use_ssl c), (ssl_channel c); reflexivity.
Qed.

Lemma error_lines_app (w1 w2 : list event) :
  Obs.error_lines (w1 ++ w2) = Obs.error_lines w1 ++ Obs.error_lines w2.
Proof. apply omap_app. Qed.

Lemma send_frame_errors (c : WEB_CLIENT_REC) (h : Z) (type_str frame : string)
    (w : list event) :
  length (Obs.error_lines (send_frame c h type_str frame w).2)
  = (length (Obs.error_lines w)
     + match SendSpec.transmit c frame with
       | SendSpec.Sent _ => 0
       | SendSpec.Aborted _ => 1
       end)%nat.
Proof.
  unfold send_frame, SendSpec.transmit, printtext.
  destruct (use_ssl c), (ssl_channel c) as [channel|];
    try destruct (fe_web_ssl_write channel frame <? 0);
    cbn [snd]; rewrite !error_lines_app, !length_app; cbn; lia.
Qed.

Lemma send_json_errors (c : WEB_CLIENT_REC) (h : Z) (type_str : string)
    (msg : WEB_MESSAGE_REC) (w : list event) :
  length (Obs.error_lines (send_json c h type_str msg w).2)
  = (length (Obs.error_lines w)
     + match SendSpec.pipeline c msg with
       | SendSpec.Sent _ => 0
       | SendSpec.Aborted _ => 1
       end)%nat.
Proof.
  unfold send_json, SendSpec.pipeline, printtext. cbv zeta.
  destruct (encryption_enabled c).
  - destruct fe_web_crypto_get_key as [key|].
    + destruct (fe_web_crypto_encrypt (fe_web_message_to_json msg) key) as [ct|].
      * rewrite send_frame_errors, !error_lines_app, !length_app. cbn. lia.
      * cbn [snd]. rewrite !error_lines_app, !length_app. cbn. lia.
    + cbn [snd]. rewrite !error_lines_app, !length_app. cbn. lia.
  - rewrite send_frame_errors, !error_lines_app, !length_app. cbn. lia.
Qed.

(** X14. A send that completes logs nothing at error level.  A send that is
    given up logs exactly one error line, with one exception: the skip of
    a message other than the authentication acknowledgement for a client
    that is not ready is a notice, not an error. *)
Theorem error_lines_by_outcome (client : option WEB_CLIENT_REC)
    (msg : WEB_MESSAGE_REC) :
  length (Obs.error_lines (Obs.call_events client msg))
  = match SendSpec.send_outcome client msg with
    | SendSpec.Sent _ => 0%nat
    | SendSpec.Aborted SendSpec.AbortNotReady =>
        if decide (msg_type msg = WEB_MSG_AUTH_OK) then 1%nat else 0%nat
    | SendSpec.Aborted _ => 1%nat
    end.
Proof.
  unfold Obs.call_events, SendSpec.send_outcome, SendSpec.ready,
    fe_web_send_message, printtext. cbv zeta.
  destruct client as [c|]; [|reflexivity].
  assert (Hchecked :
    length (Obs.error_lines
      (match handle c with
       | Some h =>
           let '(c', w0) := send_json c h (fe_web_type_to_string (msg_type msg)) msg [] in
           (Some c', w0)
       | None =>
           (Some c,
            [] ++ [EvPrint MSGLEVEL_CLIENTERROR
                     ("fe-web: [" +:+ client_id c +:+ "] ERROR: Cannot send "
                      +:+ fe_web_type_to_string (msg_type msg) +:+ " - handle is NULL")])
       end).2)
    = match match handle c with
            | Some _ => SendSpec.pipeline c msg
            | None => SendSpec.Aborted SendSpec.AbortNoHandle
            end with
      | SendSpec.Sent _ => 0%nat
      | SendSpec.Aborted SendSpec.AbortNotReady =>
          if decide (msg_type msg = WEB_MSG_AUTH_OK) then 1%nat else 0%nat
      | SendSpec.Aborted _ => 1%nat
      end).
  { destruct (handle c) as [h|]; [|reflexivity].
    pose proof (send_json_errors c h (fe_web_type_to_string (msg_type msg)) msg []) as He.
    destruct (send_json c h _ msg []) as [c' w']. cbn [snd] in *. rewrite He.
    unfold SendSpec.pipeline, SendSpec.transmit.
    repeat case_match; first [reflexivity | congruence]. }
  destruct (decide (msg_type msg = WEB_MSG_AUTH_OK)) as [Hty|Hty].
  - rewrite (bool_decide_eq_true_2 _ Hty). cbn [negb].
    destruct (handshake_done c); cbn [negb]; [exact Hchecked | reflexivity].
  - rewrite (bool_decide_eq_false_2 _ Hty). cbn [negb].
    destruct (authenticated c), (handshake_done c); cbn [negb andb orb];
      try reflexivity; exact Hchecked.
Qed.

(** The transmission block of a client that uses SSL and has no channel. *)
Lemma send_frame_without_channel (c : WEB_CLIENT_REC) (h : Z)
    (type_str frame : string) (w : list event) :
  use_ssl c = true -> ssl_channel c = None ->
  exists line,
    send_frame c h type_str frame w
    = (count_sent c, (w ++ [EvNetSend h frame]) ++ [EvPrint MSGLEVEL_CLIENTNOTICE line])
    /\ Str.includes " [SSL]" line.
Proof.
  intros Hssl Hchannel. unfold send_frame, printtext. rewrite Hssl, Hchannel.
  exists ("fe-web: [" +:+ client_id c +:+ "] Sent " +:+ type_str +:+ " ("
          +:+ Printf.fmt_d (int_of_size (String.length frame)) +:+ " bytes frame)"
          +:+ " [SSL]"
          +:+ (if encryption_enabled c then " [ENCRYPTED]" else "")).
  split; [reflexivity|].
  do 7 apply includes_skip. apply includes_head.
Qed.

(** X15. A client marked as using SSL whose SSL channel is missing is not
    refused: the frame goes out through the plain handle, the send counts,
    and the closing notice still says [SSL]. *)
Theorem ssl_without_channel_goes_plain (c : WEB_CLIENT_REC) (h : Z)
    (msg : WEB_MESSAGE_REC) (frame : string) :
  use_ssl c = true -> ssl_channel c = None ->
  SendSpec.ready c msg = true -> handle c = Some h ->
  Obs.framed c msg = Some frame ->
  Obs.writes (Obs.call_events (Some c) msg) = [Obs.PlainWrite h frame]
  /\ (fe_web_send_message (Some c) msg []).1 = Some (count_sent c)
  /\ exists line,
       last (Obs.call_events (Some c) msg) = Some (EvPrint MSGLEVEL_CLIENTNOTICE line)
       /\ Str.includes " [SSL]" line.
Proof.
  intros Hssl Hchannel Hready Hhandle Hframed.
  split.
  { rewrite call_writes, Hready, Hhandle, Hframed.
    unfold Obs.write_to. rewrite Hssl, Hchannel. reflexivity. }
  assert (Hjson : exists line,
    (send_json c h (fe_web_type_to_string (msg_type msg)) msg []).1 = count_sent c
    /\ last (send_json c h (fe_web_type_to_string (msg_type msg)) msg []).2
       = Some (EvPrint MSGLEVEL_CLIENTNOTICE line)
    /\ Str.includes " [SSL]" line).
  { unfold Obs.framed in Hframed. unfold send_json, printtext. cbv zeta in *.
    destruct (encryption_enabled c).
    - destruct fe_web_crypto_get_key as [key|]; [|discriminate].
      cbn [mbind option_bind] in Hframed.
      destruct (fe_web_crypto_encrypt (fe_web_message_to_json msg) key) as [ct|];
        [|discriminate].
      match goal with
      | |- context [send_frame c h ?t ?f ?w0] =>
          destruct (send_frame_without_channel c h t f w0 Hssl Hchannel)
            as (line & Heq & Hline); rewrite Heq
      end.
      exists line. split; [reflexivity|]. split; [apply last_snoc | exact Hline].
    - match goal with
      | |- context [send_frame c h ?t ?f ?w0] =>
          destruct (send_frame_without_channel c h t f w0 Hssl Hchannel)
            as (line & Heq & Hline); rewrite Heq
      end.
      exists line. split; [reflexivity|]. split; [apply last_snoc | exact Hline]. }
  destruct Hjson as (line & Hclient & Hlast & Hline).
  assert (Hcall : fe_web_send_message (Some c) msg []
                  = (Some (send_json c h (fe_web_type_to_string (msg_type msg)) msg []).1,
                     (send_json c h (fe_web_type_to_string (msg_type msg)) msg []).2)).
  { unfold fe_web_send_message. cbv zeta. rewrite Hhandle.
    destruct (send_json c h (fe_web_type_to_string (msg_type msg)) msg []) as [c' w'].
    unfold SendSpec.ready in Hready.
    destruct (decide (msg_type msg = WEB_MSG_AUTH_OK)) as [Hty|Hty].
    - rewrite (bool_decide_eq_true_2 _ Hty), Hready. reflexivity.
    - rewrite (bool_decide_eq_false_2 _ Hty).
      apply andb_true_iff in Hready as [-> ->]. reflexivity. }
  unfold Obs.call_events. rewrite Hcall. cbn [fst snd]. rewrite Hclient.
  split; [reflexivity|].
  exists line. split; [exact Hlast | exact Hline].
Qed.

(** X23. A send hands a frame to a transport exactly when the send
    completes or is given up at the SSL write: nothing is written before
    the gating, the handle check, the key lookup and the encryption have
    passed. *)
Theorem write_attempted_iff (client : option WEB_CLIENT_REC)
    (msg : WEB_MESSAGE_REC) :
  Obs.writes (Obs.call_events client msg) <> []
  <-> (exists frame, SendSpec.send_outcome client msg = SendSpec.Sent frame)
      \/ SendSpec.send_outcome client msg
         = SendSpec.Aborted SendSpec.AbortSslWriteFailed.
Proof.
  destruct client as [c|].
  2:{ split; [intros Hw; now contradiction Hw | intros [[frame Hs] | Hs]; discriminate]. }
  rewrite call_writes.
  unfold SendSpec.send_outcome, SendSpec.pipeline, SendSpec.transmit, Obs.framed.
  cbv zeta.
  destruct (SendSpec.ready c msg); cbn [negb].
  2:{ split; [congruence | intros [[frame Hs] | Hs]; discriminate]. }
  destruct (handle c) as [h|].
  2:{ split; [congruence | intros [[frame Hs] | Hs]; discriminate]. }
  destruct (encryption_enabled c).
  - destruct fe_web_crypto_get_key as [key|]; cbn [mbind option_bind].
    2:{ split; [congruence | intros [[frame Hs] | Hs]; discriminate]. }
    destruct (fe_web_crypto_encrypt (fe_web_message_to_json msg) key) as [ct|];
      cbn [mbind option_bind].
    2:{ split; [congruence | intros [[frame Hs] | Hs]; discriminate]. }
    split; [intros _ | discriminate].
    destruct (use_ssl c), (ssl_channel c) as [ch|]; eauto.
    destruct (fe_web_ssl_write ch _ <? 0); eauto.
  - split; [intros _ | discriminate].
    destruct (use_ssl c), (ssl_channel c) as [ch|]; eauto.
    destruct (fe_web_ssl_write ch _ <? 0); eauto.
Qed.

(** ** The fan-out and the registry *)

Lemma fan_out_ledger (selects : WEB_CLIENT_REC -> bool) (msg : WEB_MESSAGE_REC)
    (web_clients : list WEB_CLIENT_REC) (w : list event) :
  let r := SendSpec.fan_out selects msg web_clients w in
  (Obs.total_sent r.1 + N.of_nat (length (SendSpec.transmitted w)))%N
  = (Obs.total_sent web_clients + N.of_nat (length (SendSpec.transmitted r.2)))%N.
Proof.
  cbv zeta. rewrite fan_out_clients, fan_out_transmitted, length_app.
  induction web_clients as [|c cs IH]; [cbn; lia|].
  cbn [map omap list_omap Obs.total_sent foldr].
  fold (Obs.total_sent cs).
  fold (Obs.total_sent
          (map (fun c => if selects c && bool_decide (is_Some (SendSpec.delivered c msg))
                         then count_sent c else c) cs)).
  destruct (selects c); cbn [andb].
  - destruct (SendSpec.delivered c msg) as [frame|].
    + rewrite bool_decide_eq_true_2 by eauto. cbn [length count_sent messages_sent]. lia.
    + rewrite bool_decide_eq_false_2 by (intros [? ?]; discriminate). lia.
  - lia.
Qed.

(** X16. The send counters account for the frames: over a fan-out, the sum
    of the counters of the registry grows by the number of frames the
    fan-out transmitted. *)
Theorem counters_account_for_frames (to : option Z) (msg : WEB_MESSAGE_REC)
    (web_clients : list WEB_CLIENT_REC) (w : list event) :
  let r1 := fe_web_send_to_server_clients to msg web_clients w in
  let r2 := fe_web_send_to_all_clients msg web_clients w in
  (Obs.total_sent r1.1 + N.of_nat (length (SendSpec.transmitted w)))%N
  = (Obs.total_sent web_clients + N.of_nat (length (SendSpec.transmitted r1.2)))%N
  /\ (Obs.total_sent r2.1 + N.of_nat (length (SendSpec.transmitted w)))%N
     = (Obs.total_sent web_clients + N.of_nat (length (SendSpec.transmitted r2.2)))%N.
Proof.
  cbv zeta. split.
  - destruct to as [to|]; [|reflexivity].
    cbn [fe_web_send_to_server_clients].
    rewrite server_clients_loop_fan_out. apply fan_out_ledger.
  - unfold fe_web_send_to_all_clients.
    rewrite all_clients_loop_fan_out. apply fan_out_ledger.
Qed.

Lemma fan_out_sublist (narrow wide : WEB_CLIENT_REC -> bool) (msg : WEB_MESSAGE_REC)
    (web_clients : list WEB_CLIENT_REC) (w : list event) :
  (forall c, narrow c = true -> wide c = true) ->
  sublist (SendSpec.fan_out narrow msg web_clients w).2
          (SendSpec.fan_out wide msg web_clients w).2.
Proof.
  intros Himpl. unfold SendSpec.fan_out. cbn [snd].
  apply sublist_app; [reflexivity|].
  induction web_clients as [|c cs IH]; [reflexivity|].
  cbn [map concat]. apply sublist_app; [|exact IH].
  specialize (Himpl c). destruct (narrow c).
  - rewrite Himpl by reflexivity. reflexivity.
  - apply sublist_nil_l.
Qed.

Lemma transmitted_sublist (w1 w2 : list event) :
  sublist w1 w2 -> sublist (SendSpec.transmitted w1) (SendSpec.transmitted w2).
Proof.
  unfold SendSpec.transmitted.
  induction 1 as [|e l1 l2 _ IH|e l1 l2 _ IH]; [reflexivity| |].
  - cbn [omap list_omap]. case_match; [apply sublist_skip|]; exact IH.
  - cbn [omap list_omap]. case_match; [apply sublist_cons|]; exact IH.
Qed.

(** X17. A fan-out to the clients of one server does nothing a broadcast of
    the same message over the same registry does not do: its events, and
    so the frames it transmits, are a subsequence of the broadcast's. *)
Theorem server_fan_out_within_broadcast (to : option Z) (msg : WEB_MESSAGE_REC)
    (web_clients : list WEB_CLIENT_REC) (w : list event) :
  let narrow := (fe_web_send_to_server_clients to msg web_clients w).2 in
  let wide := (fe_web_send_to_all_clients msg web_clients w).2 in
  sublist narrow wide
  /\ sublist (SendSpec.transmitted narrow) (SendSpec.transmitted wide).
Proof.
  cbv zeta.
  assert (Hsub : sublist (fe_web_send_to_server_clients to msg web_clients w).2
                         (fe_web_send_to_all_clients msg web_clients w).2).
  { unfold fe_web_send_to_all_clients. rewrite all_clients_loop_fan_out.
    destruct to as [to|]; cbn [fe_web_send_to_server_clients].
    - rewrite server_clients_loop_fan_out. apply fan_out_sublist.
      intros c. unfold SendSpec.for_server. intros Hc.
      apply andb_true_iff in Hc as [Hc _]. exact Hc.
    - unfold SendSpec.fan_out. cbn [snd]. apply sublist_inserts_r. reflexivity. }
  split; [exact Hsub | apply transmitted_sublist, Hsub].
Qed.

Lemma fan_out_ext (f g : WEB_CLIENT_REC -> bool) (msg : WEB_MESSAGE_REC)
    (web_clients : list WEB_CLIENT_REC) (w : list event) :
  (forall c, c ∈ web_clients -> f c = g c) ->
  SendSpec.fan_out f msg web_clients w = SendSpec.fan_out g msg web_clients w.
Proof.
  intros Hfg. unfold SendSpec.fan_out.
  induction web_clients as [|c cs IH]; [reflexivity|].
  cbn [map concat]. rewrite (Hfg c) by apply list_elem_of_here.
  assert (IH' := IH (fun c' Hc' => Hfg c' (list_elem_of_further _ _ _ Hc'))).
  injection IH' as Hclients Hevents.
  apply app_inv_head in Hevents. rewrite Hclients, Hevents. reflexivity.
Qed.

(** X18. When every authenticated client of the registry is bound to the
    server or wants all servers, the fan-out to that server is the
    broadcast. *)
Theorem server_fan_out_is_broadcast (to : Z) (msg : WEB_MESSAGE_REC)
    (web_clients : list WEB_CLIENT_REC) (w : list event) :
  (forall c, c ∈ web_clients -> authenticated c = true ->
             server c = Some to \/ wants_all_servers c = true) ->
  fe_web_send_to_server_clients (Some to) msg web_clients w
  = fe_web_send_to_all_clients msg web_clients w.
Proof.
  intros Hbound. unfold fe_web_send_to_all_clients.
  cbn [fe_web_send_to_server_clients].
  rewrite server_clients_loop_fan_out, all_clients_loop_fan_out.
  apply fan_out_ext. intros c Hc. unfold SendSpec.for_server.
  destruct (authenticated c) eqn:Hauth; [|reflexivity]. cbn [andb].
  destruct (Hbound c Hc Hauth) as [Hs | ->].
  - rewrite (bool_decide_eq_true_2 _ Hs). reflexivity.
  - apply orb_true_r.
Qed.

Lemma fan_out_app (selects : WEB_CLIENT_REC -> bool) (msg : WEB_MESSAGE_REC)
    (first_clients more_clients : list WEB_CLIENT_REC) (w : list event) :
  SendSpec.fan_out selects msg (first_clients ++ more_clients) w
  = let r1 := SendSpec.fan_out selects msg first_clients w in
    let r2 := SendSpec.fan_out selects msg more_clients r1.2 in
    (r1.1 ++ r2.1, r2.2).
Proof.
  unfold SendSpec.fan_out. cbv zeta. cbn [fst snd].
  rewrite !map_app, concat_app, app_assoc. reflexivity.
Qed.

(** X19. A fan-out over a registry made of two parts is the fan-out over
    the first part followed by the fan-out over the second part, on the
    trace the first one left. *)
Theorem fan_out_in_parts (to : option Z) (msg : WEB_MESSAGE_REC)
    (first_clients more_clients : list WEB_CLIENT_REC) (w : list event) :
  fe_web_send_to_server_clients to msg (first_clients ++ more_clients) w
  = (let r1 := fe_web_send_to_server_clients to msg first_clients w in
     let r2 := fe_web_send_to_server_clients to msg more_clients r1.2 in
     (r1.1 ++ r2.1, r2.2))
  /\ fe_web_send_to_all_clients msg (first_clients ++ more_clients) w
     = (let r1 := fe_web_send_to_all_clients msg first_clients w in
        let r2 := fe_web_send_to_all_clients msg more_clients r1.2 in
        (r1.1 ++ r2.1, r2.2)).
Proof.
  split.
  - destruct to as [to|]; [|reflexivity].
    cbn [fe_web_send_to_server_clients].
    rewrite !server_clients_loop_fan_out. apply fan_out_app.
  - unfold fe_web_send_to_all_clients.
    rewrite !all_clients_loop_fan_out. apply fan_out_app.
Qed.


End MoreSenderFacts.

(** ** Sample runs for the further properties *)

Lemma send_frame_content_witness :
  exists key ciphertext,
    fe_web_crypto_get_key (Collaborators := sample_collaborators) = Some key
    /\ fe_web_crypto_encrypt (Collaborators := sample_collaborators)
         (fe_web_message_to_json chat_message) key = Some ciphertext
    /\ Obs.frame_of
         (Obs.PlainWrite 9
            (String (ascii_of_N 130)
               (Str.lit "enc:{'type':'message','timestamp':0,'is_own':false}")))
       = fe_web_websocket_create_frame (Collaborators := sample_collaborators)
           2 ciphertext.
Proof.
  apply (send_frame_content (H := sample_collaborators) encrypted_client
           chat_message).
  vm_compute. constructor.
Defined.

Lemma ssl_without_channel_goes_plain_witness :
  Obs.writes
    (Obs.call_events (H := sample_collaborators) (Some half_ssl_client)
       chat_message)
  = [Obs.PlainWrite 11
       (String (ascii_of_N 130)
          (Str.lit "enc:{'type':'message','timestamp':0,'is_own':false}"))]
  /\ (fe_web_send_message (H := sample_collaborators) (Some half_ssl_client)
        chat_message []).1
     = Some (count_sent half_ssl_client)
  /\ exists line,
       last (Obs.call_events (H := sample_collaborators) (Some half_ssl_client)
               chat_message)
       = Some (EvPrint MSGLEVEL_CLIENTNOTICE line)
       /\ Str.includes " [SSL]" line.
Proof.
  apply (ssl_without_channel_goes_plain (H := sample_collaborators)
           half_ssl_client 11 chat_message); reflexivity.
Defined.

Lemma server_fan_out_is_broadcast_witness :
  fe_web_send_to_server_clients (H := sample_collaborators) (Some 1)
    pong_message [plain_client; pending_client; encrypted_client] []
  = fe_web_send_to_all_clients (H := sample_collaborators)
      pong_message [plain_client; pending_client; encrypted_client] [].
Proof.
  apply (server_fan_out_is_broadcast (H := sample_collaborators)).
  intros c Hc Hauth.
  apply elem_of_cons in Hc as [-> | Hc]; [left; reflexivity|].
  apply elem_of_cons in Hc as [-> | Hc]; [discriminate Hauth|].
  apply list_elem_of_singleton in Hc as ->. right; reflexivity.
Defined.


(** * The serializer and a JSON parser *)

(** ** The parser on what the serializer writes *)

Lemma read_value_quote (fuel : nat) (body : string) :
  Doc.read_value (S fuel) (String "034" body)
  = '(v, rest) ← Json.read_string (String "034" body); Some (Doc.Text v, rest).
Proof. reflexivity. Qed.

Lemma read_value_open (fuel : nat) (body : string) :
  Doc.read_value (S fuel) (String "{" (String "034" body))
  = '(ms, rest) ← Doc.read_members fuel (String "034" body);
    Some (Doc.Object ms, rest).
Proof. reflexivity. Qed.

Lemma read_members_eq (fuel : nat) (s : string) :
  Doc.read_members (S fuel) s
  = '(key, s) ← Json.read_string s;
    s ← Doc.strip ":" (Doc.skip_ws s);
    '(v, s) ← Doc.read_value fuel s;
    match Doc.strip "," (Doc.skip_ws s) with
    | Some s' =>
        '(ms, rest) ← Doc.read_members fuel (Doc.skip_ws s');
        Some ((key, v) :: ms, rest)
    | None => rest ← Doc.strip "}" (Doc.skip_ws s); Some ([(key, v)], rest)
    end.
Proof. reflexivity. Qed.

Lemma read_value_number (fuel : nat) (s : string) :
  DocAux.number_start (Str.first_byte s) = true ->
  Doc.read_value (S fuel) s
  = '(d, rest) ← Doc.read_number s; Some (Doc.Number d, rest).
Proof.
  destruct s as [|c s]; [discriminate|].
  destruct c as [[] [] [] [] [] [] [] []]; try discriminate; reflexivity.
Qed.

Lemma read_int_unsigned (s : string) :
  Str.first_byte s <> "-"%char ->
  Doc.read_int s = Doc.read_signed Doc.int_digits Decimal.Pos s.
Proof.
  destruct s as [|c s]; [reflexivity|].
  destruct c as [[] [] [] [] [] [] [] []]; try reflexivity.
  intros Hne. now contradiction Hne.
Qed.

Lemma read_digits_delimited (rest : string) :
  DocAux.delimited rest -> Doc.read_digits rest = (Decimal.Nil, rest).
Proof. intros [r [-> | ->]]; reflexivity. Qed.

Lemma read_digits_uint (d : Decimal.uint) (rest : string) :
  DocAux.delimited rest ->
  Doc.read_digits (DecimalString.NilEmpty.string_of_uint d +:+ rest) = (d, rest).
Proof.
  intros Hrest.
  induction d; cbn [DecimalString.NilEmpty.string_of_uint];
    rewrite ?StrFacts.app_nil_l, ?StrFacts.app_cons;
    [apply read_digits_delimited, Hrest | ..];
    cbn [Doc.read_digits Doc.digit_of]; rewrite IHd; reflexivity.
Qed.

Lemma nzhead_head (d : Decimal.uint) :
  match Decimal.nzhead d with Decimal.D0 _ => False | _ => True end.
Proof. induction d; simpl; auto. Qed.

Lemma int_digits_unorm (d : Decimal.uint) : Doc.int_digits (Decimal.unorm d) = true.
Proof.
  unfold Decimal.unorm. pose proof (nzhead_head d) as Hhead.
  destruct (Decimal.nzhead d); try reflexivity. contradiction.
Qed.

Lemma int_digits_to_uint (n : N) : Doc.int_digits (N.to_uint n) = true.
Proof.
  rewrite <- (DecimalN.Unsigned.of_to n) at 1.
  rewrite DecimalN.Unsigned.to_of. apply int_digits_unorm.
Qed.

Lemma dec_digits_nil_empty (n : N) :
  Printf.dec_digits n = DecimalString.NilEmpty.string_of_uint (N.to_uint n).
Proof.
  unfold Printf.dec_digits, DecimalString.NilZero.string_of_uint.
  pose proof (to_uint_nonnil n) as Hnn.
  destruct (N.to_uint n); [contradiction|..]; reflexivity.
Qed.

Lemma first_digit (d : Decimal.uint) (rest : string) :
  d <> Decimal.Nil ->
  let c := Str.first_byte (DecimalString.NilEmpty.string_of_uint d +:+ rest) in
  c <> "-"%char /\ DocAux.number_start c = true.
Proof.
  intros Hd. destruct d; [contradiction|..];
    cbn [DecimalString.NilEmpty.string_of_uint]; rewrite StrFacts.app_cons;
    (split; [discriminate | reflexivity]).
Qed.

Lemma to_int_dec_int (z : Z) : dec_int z = Z.to_int z.
Proof. destruct z; reflexivity. Qed.

Lemma read_tail_delimited (i : Decimal.int) (rest : string) :
  DocAux.delimited rest ->
  ('(f, s) ← Doc.read_frac rest;
   '(e, s) ← Doc.read_exp s;
   Some (match e with
         | Some e => Decimal.DecimalExp i f e
         | None => Decimal.Decimal i f
         end, s))
  = Some (Decimal.Decimal i Decimal.Nil, rest).
Proof. intros [r [-> | ->]]; reflexivity. Qed.

Lemma read_number_fmt_d (z : Z) (rest : string) :
  DocAux.delimited rest ->
  Doc.read_number (Printf.fmt_d z +:+ rest)
  = Some (Decimal.Decimal (Z.to_int z) Decimal.Nil, rest).
Proof.
  intros Hrest. rewrite <- to_int_dec_int.
  unfold Doc.read_number, Printf.fmt_d, dec_int.
  destruct (z <? 0).
  - rewrite dec_digits_nil_empty, !StrFacts.app_cons, StrFacts.app_nil_l.
    unfold Doc.read_int. cbn [Doc.strip Ascii.eqb Bool.eqb]. unfold Doc.read_signed.
    rewrite read_digits_uint by exact Hrest.
    rewrite int_digits_to_uint. cbn [mbind option_bind].
    apply read_tail_delimited, Hrest.
  - rewrite dec_digits_nil_empty.
    destruct (first_digit (N.to_uint (Z.to_N z)) rest (to_uint_nonnil _)) as [Hne _].
    rewrite read_int_unsigned by exact Hne. unfold Doc.read_signed.
    rewrite read_digits_uint by exact Hrest.
    rewrite int_digits_to_uint. cbn [mbind option_bind].
    apply read_tail_delimited, Hrest.
Qed.

Lemma fmt_d_number_start (z : Z) (rest : string) :
  DocAux.number_start (Str.first_byte (Printf.fmt_d z +:+ rest)) = true.
Proof.
  unfold Printf.fmt_d. destruct (z <? 0).
  - rewrite StrFacts.app_cons. reflexivity.
  - rewrite dec_digits_nil_empty. apply first_digit, to_uint_nonnil.
Qed.

(** *** The values *)

Lemma reads_as_mono (k k' : nat) (m : DocAux.member) :
  (k <= k')%nat -> DocAux.reads_as k m -> DocAux.reads_as k' m.
Proof. intros Hk Hm fuel rest Hfuel. apply Hm. lia. Qed.

Lemma reads_as_text (key s : string) :
  DocAux.reads_as 1 (key, (Json.quote (escaped s), Doc.Text s)).
Proof.
  intros fuel rest Hfuel _. destruct fuel as [|fuel]; [lia|]. cbn [fst snd].
  pose proof (read_string_quote s rest) as Hread.
  unfold Json.quote in *. rewrite StrFacts.app_cons in *.
  rewrite read_value_quote, Hread. reflexivity.
Qed.

Lemma reads_as_int (key : string) (z : Z) :
  DocAux.reads_as 1 (key, (Printf.fmt_d z, Doc.Int z)).
Proof.
  intros fuel rest Hfuel Hrest. destruct fuel as [|fuel]; [lia|]. cbn [fst snd].
  rewrite read_value_number by apply fmt_d_number_start.
  rewrite read_number_fmt_d by exact Hrest. reflexivity.
Qed.

Lemma reads_as_bool (key : string) (b : bool) :
  DocAux.reads_as 1 (key, (if b then "true" else "false", Doc.Bool b)).
Proof.
  intros fuel rest Hfuel _. destruct fuel as [|fuel]; [lia|].
  destruct b; reflexivity.
Qed.

(** *** The members *)

Lemma written_head (m : DocAux.member) (tail : string) :
  exists body, DocAux.written m +:+ tail = String "034" body.
Proof.
  unfold DocAux.written, Spec.field, Json.quote.
  rewrite !StrFacts.app_cons. eauto.
Qed.

Lemma join_written_head (m : DocAux.member) (ms : list DocAux.member)
    (tail : string) :
  exists body,
    Str.join "," (map DocAux.written (m :: ms)) +:+ tail = String "034" body.
Proof.
  destruct ms as [|m' ms].
  - apply written_head.
  - cbn [map]. rewrite JoinFacts.join_cons.
    rewrite StrFacts.app_assoc. apply written_head.
Qed.

Lemma join_one (sep x : string) : Str.join sep [x] = x.
Proof. reflexivity. Qed.

Lemma join_two (sep x y : string) (l : list string) :
  Str.join sep (x :: y :: l) = x +:+ sep +:+ Str.join sep (y :: l).
Proof. reflexivity. Qed.

Lemma members_read (k : nat) (ms : list DocAux.member) :
  ms <> [] -> Forall (DocAux.reads_as k) ms ->
  forall fuel rest, (length ms + k <= fuel)%nat ->
    Doc.read_members fuel
      (Str.join "," (map DocAux.written ms) +:+ "}" +:+ rest)
    = Some (map DocAux.read ms, rest).
Proof.
  induction ms as [|m ms IH]; [congruence|].
  intros _ Hall fuel rest Hfuel.
  apply Forall_cons in Hall as [Hm Hall].
  destruct fuel as [|fuel]; [cbn [length] in Hfuel; lia|].
  cbn [length] in Hfuel.
  rewrite read_members_eq.
  destruct ms as [|m' ms].
  - cbn [map]. rewrite join_one. unfold DocAux.written at 1, Spec.field.
    rewrite !StrFacts.app_assoc, read_string_quote. cbn [mbind option_bind].
    rewrite StrFacts.app_cons, StrFacts.app_nil_l.
    cbn [Doc.skip_ws Doc.is_ws Ascii.eqb Bool.eqb orb Doc.strip mbind option_bind].
    rewrite (Hm fuel) by (try lia; eexists; right; rewrite StrFacts.app_cons, StrFacts.app_nil_l; reflexivity).
    cbn [mbind option_bind].
    rewrite StrFacts.app_cons, StrFacts.app_nil_l. reflexivity.
  - cbn [map]. rewrite join_two.
    unfold DocAux.written at 1, Spec.field.
    rewrite !StrFacts.app_assoc, read_string_quote. cbn [mbind option_bind].
    rewrite StrFacts.app_cons, StrFacts.app_nil_l.
    cbn [Doc.skip_ws Doc.is_ws Ascii.eqb Bool.eqb orb Doc.strip mbind option_bind].
    rewrite (Hm fuel) by (try lia; eexists; left; rewrite StrFacts.app_cons, StrFacts.app_nil_l; reflexivity).
    cbn [mbind option_bind].
    rewrite (StrFacts.app_cons "," ""), StrFacts.app_nil_l.
    destruct (join_written_head m' ms ("}" +:+ rest)) as [body Hbody].
    change (map DocAux.written (m' :: ms)) with (DocAux.written m' :: map DocAux.written ms) in Hbody.
    cbn [Doc.skip_ws Doc.is_ws Ascii.eqb Bool.eqb orb].
    rewrite Hbody.
    cbn [Doc.skip_ws Doc.is_ws Ascii.eqb Bool.eqb orb].
    rewrite <- Hbody.
    assert (Hlen : (length (m' :: ms) + k <= fuel)%nat) by (cbn [length] in *; lia).
    pose proof (IH ltac:(discriminate) Hall fuel rest Hlen) as Hrest.
    cbn [map] in Hrest. rewrite Hrest. reflexivity.
Qed.

Lemma reads_as_object (k : nat) (key : string) (ms : list DocAux.member) :
  ms <> [] -> Forall (DocAux.reads_as k) ms ->
  DocAux.reads_as (length ms + k + 1)
    (key, ("{" +:+ Str.join "," (map DocAux.written ms) +:+ "}",
           Doc.Object (map DocAux.read ms))).
Proof.
  intros Hms Hall fuel rest Hfuel _. cbn [fst snd].
  destruct fuel as [|fuel]; [lia|].
  rewrite !StrFacts.app_assoc, StrFacts.app_cons, StrFacts.app_nil_l.
  destruct ms as [|m ms]; [congruence|].
  destruct (join_written_head m ms ("}" +:+ rest)) as [body Hbody].
  rewrite Hbody, read_value_open, <- Hbody.
  rewrite (members_read k) by (auto; lia). reflexivity.
Qed.

(** *** The message *)

Lemma omap_id_fmap {A B : Type} (f : A -> B) (l : list (option A)) :
  omap id (map (fmap f) l) = map f (omap id l).
Proof.
  induction l as [|[x|] l IH]; [reflexivity| |exact IH].
  cbn. f_equal. exact IH.
Qed.

Lemma text_written_field (key : string) (v : option string) :
  escaped key = key ->
  DocAux.written <$> DocAux.text_written key v = Spec.str_field key v.
Proof.
  intros Hkey. destruct v as [s|]; [|reflexivity].
  cbn. unfold DocAux.written. cbn [fst snd]. now rewrite Hkey.
Qed.

Lemma entry_written_entry (raw : Doc.value) (kv : string * option string) :
  DocAux.written (DocAux.entry_written raw kv) = Spec.entry kv.
Proof.
  destruct kv as [key value].
  unfold DocAux.written, DocAux.entry_written, Spec.entry. cbn [fst snd].
  destruct (Spec.is_raw key value); [reflexivity|]. now destruct value.
Qed.

Lemma entries_written (raw : Doc.value) (kvs : list (string * option string)) :
  map DocAux.written (map (DocAux.entry_written raw) kvs) = map Spec.entry kvs.
Proof.
  rewrite map_map. apply map_ext. intros kv. apply entry_written_entry.
Qed.

Lemma fields_written (raw : Doc.value) (msg : WEB_MESSAGE_REC) :
  Spec.fields msg = map (fmap DocAux.written) (DocAux.members_written raw msg).
Proof.
  unfold Spec.fields, Spec.fields_before_text, Spec.text_field,
    Spec.fields_after_text, DocAux.members_written.
  cbn [map app].
  rewrite !text_written_field
    by (reflexivity || (unfold Spec.text_key; now destruct (decide _))).
  repeat apply (f_equal2 (@cons (option string))); try reflexivity.
  - cbn [fmap option_fmap option_map]. unfold DocAux.written. cbn [fst snd].
    rewrite escaped_type_name. reflexivity.
  - now destruct (decide (msg_level msg = 0)).
  - now destruct (decide (msg_type msg = WEB_MSG_MESSAGE)).
  - unfold Spec.extra_field, Spec.extra_object, DocAux.extra_written.
    destruct (Spec.entries (msg_extra_data msg)) as [|kv kvs]; [reflexivity|].
    cbn [fmap option_fmap option_map]. unfold DocAux.written at 1. cbn [fst snd].
    now rewrite (entries_written raw (kv :: kvs)).
Qed.

Lemma members_as_written (raw : Doc.value) (msg : WEB_MESSAGE_REC) :
  Doc.members raw msg = map (fmap DocAux.read) (DocAux.members_written raw msg).
Proof.
  unfold Doc.members, DocAux.members_written, Doc.text_member,
    DocAux.text_written. cbn [map].
  repeat apply (f_equal2 (@cons (option (string * Doc.value))));
    try reflexivity; try (now destruct (_ : option string)).
  - now destruct (decide (msg_level msg = 0)).
  - now destruct (decide (msg_type msg = WEB_MSG_MESSAGE)).
  - unfold Doc.extra_member, DocAux.extra_written.
    destruct (Spec.entries (msg_extra_data msg)) as [|kv kvs]; [reflexivity|].
    cbn [fmap option_fmap option_map]. unfold DocAux.read at 1. cbn [fst snd].
    do 3 f_equal. rewrite map_map. apply map_ext. intros [key value].
    unfold Doc.entry_member, DocAux.entry_written, DocAux.read. cbn [fst snd].
    now destruct (Spec.is_raw key value).
Qed.

Lemma entries_read (raw : Doc.value) (k : nat)
    (kvs : list (string * option string)) :
  (1 <= k)%nat ->
  Forall (fun kv => Spec.is_raw kv.1 kv.2 = true ->
            DocAux.reads_as k (DocAux.entry_written raw kv)) kvs ->
  Forall (DocAux.reads_as k) (map (DocAux.entry_written raw) kvs).
Proof.
  intros Hk Hraw. apply Forall_fmap. apply (Forall_impl _ _ _ Hraw).
  intros kv Hkv. unfold compose.
  destruct (Spec.is_raw kv.1 kv.2) eqn:Hr; [now apply Hkv|].
  unfold DocAux.entry_written. rewrite Hr.
  apply (reads_as_mono 1); [exact Hk | apply reads_as_text].
Qed.

Lemma members_written_read (raw : Doc.value) (k : nat) (msg : WEB_MESSAGE_REC) :
  (1 <= k)%nat ->
  Forall (fun kv => Spec.is_raw kv.1 kv.2 = true ->
            DocAux.reads_as k (DocAux.entry_written raw kv))
    (Spec.entries (msg_extra_data msg)) ->
  Forall (fun o => forall m, o = Some m ->
            DocAux.reads_as (length (Spec.entries (msg_extra_data msg)) + k + 1) m)
    (DocAux.members_written raw msg).
Proof.
  intros Hk Hraw.
  assert (Htext : forall key v m, DocAux.text_written key v = Some m ->
            DocAux.reads_as (length (Spec.entries (msg_extra_data msg)) + k + 1) m).
  { intros key [s|] m [= <-]. apply (reads_as_mono 1); [lia | apply reads_as_text]. }
  unfold DocAux.members_written.
  repeat (apply Forall_cons; split); try (apply Forall_nil; exact I);
    try (apply Htext).
  - intros m [= <-]. apply (reads_as_mono 1); [lia | apply reads_as_text].
  - intros m [= <-]. apply (reads_as_mono 1); [lia | apply reads_as_int].
  - destruct (decide (msg_level msg = 0)); intros m [= <-].
    apply (reads_as_mono 1); [lia | apply reads_as_int].
  - destruct (decide (msg_type msg = WEB_MSG_MESSAGE)); intros m [= <-].
    apply (reads_as_mono 1); [lia | apply reads_as_bool].
  - unfold DocAux.extra_written.
    destruct (Spec.entries (msg_extra_data msg)) as [|kv kvs] eqn:Hkvs;
      intros m [= <-].
    rewrite <- (length_map (DocAux.entry_written raw)).
    apply reads_as_object; [discriminate | now apply entries_read].
Qed.

Lemma omap_id_Forall {A : Type} (P : A -> Prop) (l : list (option A)) :
  Forall (fun o => forall x, o = Some x -> P x) l -> Forall P (omap id l).
Proof.
  induction 1 as [|[x|] l Hx _ IH]; [constructor| |exact IH].
  cbn. constructor; auto.
Qed.

Lemma omap_id_length {A : Type} (l : list (option A)) :
  (length (omap id l) <= length l)%nat.
Proof. induction l as [|[x|] l IH]; cbn; lia. Qed.

(** The parser on the object of a message, when [raw] is what the raw
    entries read as. *)
Lemma to_json_read (raw : Doc.value) (k fuel : nat) (msg : WEB_MESSAGE_REC) :
  (1 <= k)%nat ->
  Forall (fun kv => Spec.is_raw kv.1 kv.2 = true ->
            DocAux.reads_as k (DocAux.entry_written raw kv))
    (Spec.entries (msg_extra_data msg)) ->
  (13 + length (Spec.entries (msg_extra_data msg)) + k <= fuel)%nat ->
  Doc.parse fuel (fe_web_message_to_json msg) = Some (Doc.document raw msg).
Proof.
  intros Hk Hraw Hfuel.
  rewrite to_json_object. unfold Spec.object, Spec.present, Doc.document.
  rewrite (fields_written raw msg), members_as_written, !omap_id_fmap.
  pose proof (omap_id_Forall _ _ (members_written_read raw k msg Hk Hraw)) as Hread.
  pose proof (omap_id_length (DocAux.members_written raw msg)) as Hlen.
  change (length (DocAux.members_written raw msg)) with 11%nat in Hlen.
  assert (Hne : omap id (DocAux.members_written raw msg) <> []).
  { unfold DocAux.members_written.
    destruct (DocAux.text_written "id" (msg_id msg)); discriminate. }
  destruct (omap id (DocAux.members_written raw msg)) as [|m ms]; [congruence|].
  destruct fuel as [|fuel]; [lia|].
  unfold Doc.parse.
  rewrite StrFacts.app_cons, StrFacts.app_nil_l.
  rewrite <- (StrFacts.app_nil_r "}").
  destruct (join_written_head m ms ("}" +:+ "")) as [body Hbody].
  rewrite Hbody, read_value_open, <- Hbody.
  rewrite (members_read _ _ Hne Hread) by lia.
  reflexivity.
Qed.

(** ** The parser on a text that is followed by more *)

Lemma skip_ws_more (s rest : string) :
  Doc.skip_ws s <> "" -> Doc.skip_ws (s +:+ rest) = Doc.skip_ws s +:+ rest.
Proof.
  induction s as [|c s IH]; [cbn; congruence|].
  rewrite StrFacts.app_cons. cbn [Doc.skip_ws].
  destruct (Doc.is_ws c); [exact IH|]. intros _. now rewrite StrFacts.app_cons.
Qed.

Lemma strip_more (word s r rest : string) :
  Doc.strip word s = Some r -> Doc.strip word (s +:+ rest) = Some (r +:+ rest).
Proof.
  revert s. induction word as [|a word IH]; intros s.
  - cbn. now intros [= ->].
  - destruct s as [|b s]; [discriminate|].
    rewrite StrFacts.app_cons. cbn [Doc.strip].
    destruct (Ascii.eqb a b); [apply IH | discriminate].
Qed.

(** A single byte that is not at the head stays not at the head. *)
Lemma strip_byte_more (a : ascii) (s rest : string) :
  s <> "" -> Doc.strip (String a "") s = None ->
  Doc.strip (String a "") (s +:+ rest) = None.
Proof.
  destruct s as [|b s]; [congruence|]. intros _.
  rewrite StrFacts.app_cons. cbn [Doc.strip].
  destruct (Ascii.eqb a b); [discriminate | reflexivity].
Qed.

Lemma scan_more (st : Json.dstate) (out s v r rest : string) :
  Json.scan st out s = Some (v, r) ->
  Json.scan st out (s +:+ rest) = Some (v, r +:+ rest).
Proof.
  revert st out. induction s as [|c s IH]; intros st out; [discriminate|].
  rewrite StrFacts.app_cons. cbn [Json.scan].
  destruct (Json.step st c); try discriminate; try apply IH.
  now intros [= -> ->].
Qed.

Lemma read_string_more (s v r rest : string) :
  Json.read_string s = Some (v, r) ->
  Json.read_string (s +:+ rest) = Some (v, r +:+ rest).
Proof.
  destruct s as [|c s]; [discriminate|].
  rewrite StrFacts.app_cons. unfold Json.read_string.
  destruct c as [[] [] [] [] [] [] [] []]; try discriminate.
  apply scan_more.
Qed.

Lemma read_string_nonempty (s : string) (r : string * string) :
  Json.read_string s = Some r -> s <> "".
Proof. now destruct s. Qed.

Lemma read_digits_more (s : string) (d : Decimal.uint) (r rest : string) :
  Doc.read_digits s = (d, r) -> r <> "" ->
  Doc.read_digits (s +:+ rest) = (d, r +:+ rest).
Proof.
  revert d. induction s as [|c s IH]; intros d.
  - cbn. intros [= <- <-]. congruence.
  - rewrite StrFacts.app_cons. cbn [Doc.read_digits].
    destruct (Doc.digit_of c) as [digit|].
    + destruct (Doc.read_digits s) as [d' r'] eqn:Hs.
      intros [= <- <-] Hr. now rewrite (IH d' eq_refl Hr).
    + intros [= <- <-] _. now rewrite StrFacts.app_cons.
Qed.

Lemma read_digits_some (s : string) (d : Decimal.uint) (r : string) :
  Doc.read_digits s = (d, r) -> d <> Decimal.Nil -> s <> "".
Proof. destruct s; [|discriminate]. cbn. intros [= <- <-]. congruence. Qed.

Lemma read_signed_more (test : Decimal.uint -> bool)
    (sign : Decimal.uint -> Decimal.int) (s : string) (i : Decimal.int)
    (r rest : string) :
  Doc.read_signed test sign s = Some (i, r) -> r <> "" ->
  Doc.read_signed test sign (s +:+ rest) = Some (i, r +:+ rest).
Proof.
  unfold Doc.read_signed.
  destruct (Doc.read_digits s) as [d r'] eqn:Hs.
  destruct (test d) eqn:Htest; [|discriminate].
  intros [= <- <-] Hr. now rewrite (read_digits_more _ _ _ rest Hs Hr), Htest.
Qed.

Lemma read_signed_nonempty (test : Decimal.uint -> bool)
    (sign : Decimal.uint -> Decimal.int) (s : string)
    (res : Decimal.int * string) :
  test Decimal.Nil = false ->
  Doc.read_signed test sign s = Some res -> s <> "".
Proof.
  intros Hnil. destruct s; [|discriminate]. unfold Doc.read_signed. cbn.
  now rewrite Hnil.
Qed.

Lemma read_int_more (s : string) (i : Decimal.int) (r rest : string) :
  Doc.read_int s = Some (i, r) -> r <> "" ->
  Doc.read_int (s +:+ rest) = Some (i, r +:+ rest).
Proof.
  unfold Doc.read_int.
  destruct (Doc.strip "-" s) as [s'|] eqn:Hminus.
  - rewrite (strip_more _ _ _ rest Hminus). apply read_signed_more.
  - intros Hread Hr.
    rewrite strip_byte_more;
      [now apply read_signed_more | | exact Hminus].
    now apply (read_signed_nonempty _ _ _ _ eq_refl Hread).
Qed.

Lemma read_frac_more (s : string) (f : Decimal.uint) (r rest : string) :
  Doc.read_frac s = Some (f, r) -> r <> "" ->
  Doc.read_frac (s +:+ rest) = Some (f, r +:+ rest).
Proof.
  unfold Doc.read_frac.
  destruct (Doc.strip "." s) as [s'|] eqn:Hpoint.
  - rewrite (strip_more _ _ _ rest Hpoint).
    destruct (Doc.read_digits s') as [d r'] eqn:Hs.
    destruct (Doc.some_digits d) eqn:Hd; [|discriminate].
    intros [= <- <-] Hr. now rewrite (read_digits_more _ _ _ rest Hs Hr), Hd.
  - intros [= <- <-] Hr. now rewrite strip_byte_more.
Qed.

Lemma read_sign_more (s : string) (sign : Decimal.uint -> Decimal.int)
    (r rest : string) :
  Doc.read_sign s = (sign, r) -> r <> "" ->
  Doc.read_sign (s +:+ rest) = (sign, r +:+ rest).
Proof.
  unfold Doc.read_sign.
  destruct (Doc.strip "-" s) as [s'|] eqn:Hminus.
  - intros [= <- <-] _. now rewrite (strip_more _ _ _ rest Hminus).
  - destruct (Doc.strip "+" s) as [s'|] eqn:Hplus.
    + intros [= <- <-] Hr.
      rewrite strip_byte_more, (strip_more _ _ _ rest Hplus);
        [reflexivity | now destruct s | exact Hminus].
    + intros [= <- <-] Hr. now rewrite !strip_byte_more.
Qed.

Lemma read_exp_more (s : string) (e : option Decimal.int) (r rest : string) :
  Doc.read_exp s = Some (e, r) -> r <> "" ->
  Doc.read_exp (s +:+ rest) = Some (e, r +:+ rest).
Proof.
  unfold Doc.read_exp.
  assert (Hdigits : forall s',
    (let '(sign, s'') := Doc.read_sign s' in
     '(e, rest) ← Doc.read_signed Doc.some_digits sign s''; Some (Some e, rest))
    = Some (e, r) -> r <> "" ->
    (let '(sign, s'') := Doc.read_sign (s' +:+ rest) in
     '(e, rest) ← Doc.read_signed Doc.some_digits sign s''; Some (Some e, rest))
    = Some (e, r +:+ rest)).
  { intros s'. destruct (Doc.read_sign s') as [sign s''] eqn:Hsign.
    destruct (Doc.read_signed Doc.some_digits sign s'') as [[i r']|] eqn:Hread;
      [|discriminate].
    cbn [mbind option_bind]. intros [= <- <-] Hr.
    rewrite (read_sign_more _ _ _ rest Hsign)
      by now apply (read_signed_nonempty _ _ _ _ eq_refl Hread).
    now rewrite (read_signed_more _ _ _ _ _ rest Hread Hr). }
  destruct (Doc.strip "e" s) as [s'|] eqn:He.
  - rewrite (strip_more _ _ _ rest He). apply Hdigits.
  - destruct (Doc.strip "E" s) as [s'|] eqn:HE.
    + rewrite strip_byte_more, (strip_more _ _ _ rest HE);
        [apply Hdigits | now destruct s | exact He].
    + intros [= <- <-] Hr. now rewrite !strip_byte_more.
Qed.

Lemma read_frac_rest (s : string) (f : Decimal.uint) (r : string) :
  Doc.read_frac s = Some (f, r) -> r <> "" -> s <> "".
Proof. destruct s; [|discriminate]. cbn. intros [= <- <-]. congruence. Qed.

Lemma read_exp_rest (s : string) (e : option Decimal.int) (r : string) :
  Doc.read_exp s = Some (e, r) -> r <> "" -> s <> "".
Proof. destruct s; [|discriminate]. cbn. intros [= <- <-]. congruence. Qed.

Lemma read_number_more (s : string) (d : Decimal.decimal) (r rest : string) :
  Doc.read_number s = Some (d, r) -> r <> "" ->
  Doc.read_number (s +:+ rest) = Some (d, r +:+ rest).
Proof.
  unfold Doc.read_number.
  destruct (Doc.read_int s) as [[i s1]|] eqn:Hint; [|discriminate].
  cbn [mbind option_bind].
  destruct (Doc.read_frac s1) as [[f s2]|] eqn:Hfrac; [|discriminate].
  cbn [mbind option_bind].
  destruct (Doc.read_exp s2) as [[e s3]|] eqn:Hexp; [|discriminate].
  cbn [mbind option_bind]. intros [= <- <-] Hr.
  pose proof (read_exp_rest _ _ _ Hexp Hr) as Hs2.
  pose proof (read_frac_rest _ _ _ Hfrac Hs2) as Hs1.
  rewrite (read_int_more _ _ _ rest Hint Hs1). cbn [mbind option_bind].
  rewrite (read_frac_more _ _ _ rest Hfrac Hs2). cbn [mbind option_bind].
  rewrite (read_exp_more _ _ _ rest Hexp Hr). reflexivity.
Qed.

Lemma read_value_eq (fuel : nat) (s : string) :
  Doc.read_value (S fuel) s
  = match Doc.skip_ws s with
    | String c s1 =>
        if Ascii.eqb c "034" then
          '(v, rest) ← Json.read_string (String c s1); Some (Doc.Text v, rest)
        else if Ascii.eqb c "{" then
          match Doc.strip "}" (Doc.skip_ws s1) with
          | Some rest => Some (Doc.Object [], rest)
          | None =>
              '(ms, rest) ← Doc.read_members fuel (Doc.skip_ws s1);
              Some (Doc.Object ms, rest)
          end
        else if Ascii.eqb c "[" then
          match Doc.strip "]" (Doc.skip_ws s1) with
          | Some rest => Some (Doc.Array [], rest)
          | None =>
              '(vs, rest) ← Doc.read_elements fuel (Doc.skip_ws s1);
              Some (Doc.Array vs, rest)
          end
        else if Ascii.eqb c "t" then rest ← Doc.strip "rue" s1; Some (Doc.Bool true, rest)
        else if Ascii.eqb c "f" then rest ← Doc.strip "alse" s1; Some (Doc.Bool false, rest)
        else if Ascii.eqb c "n" then rest ← Doc.strip "ull" s1; Some (Doc.Null, rest)
        else '(d, rest) ← Doc.read_number (String c s1); Some (Doc.Number d, rest)
    | EmptyString => None
    end.
Proof. reflexivity. Qed.

Lemma read_elements_eq (fuel : nat) (s : string) :
  Doc.read_elements (S fuel) s
  = '(v, s) ← Doc.read_value fuel s;
    match Doc.strip "," (Doc.skip_ws s) with
    | Some s' => '(vs, rest) ← Doc.read_elements fuel s'; Some (v :: vs, rest)
    | None => rest ← Doc.strip "]" (Doc.skip_ws s); Some ([v], rest)
    end.
Proof. reflexivity. Qed.

Lemma read_value_nonempty (fuel : nat) (s : string) (res : Doc.value * string) :
  Doc.read_value fuel s = Some res -> Doc.skip_ws s <> "".
Proof.
  destruct fuel as [|fuel]; [discriminate|]. rewrite read_value_eq.
  now destruct (Doc.skip_ws s).
Qed.

Lemma read_members_nonempty (fuel : nat) (s : string)
    (res : list (string * Doc.value) * string) :
  Doc.read_members fuel s = Some res -> s <> "".
Proof.
  destruct fuel as [|fuel]; [discriminate|]. rewrite read_members_eq.
  now destruct s.
Qed.

Lemma skip_ws_idem (s : string) : Doc.skip_ws (Doc.skip_ws s) = Doc.skip_ws s.
Proof.
  induction s as [|c s IH]; [reflexivity|]. cbn [Doc.skip_ws].
  destruct (Doc.is_ws c) eqn:Hc; [exact IH|]. cbn [Doc.skip_ws]. now rewrite Hc.
Qed.

Lemma strip_some_nonempty (a : ascii) (s r : string) :
  Doc.strip (String a "") s = Some r -> s <> "".
Proof. now destruct s. Qed.

(** A text that starts a number when it is not one. *)
Lemma read_number_start (c : ascii) (s : string) (res : Decimal.decimal * string) :
  Doc.read_number (String c s) = Some res -> DocAux.number_start c = true.
Proof.
  destruct c as [[] [] [] [] [] [] [] []]; try reflexivity;
    unfold Doc.read_number, Doc.read_int, Doc.read_signed;
    cbn [Doc.strip Doc.read_digits Doc.digit_of Doc.int_digits Ascii.eqb Bool.eqb];
    discriminate.
Qed.

(** What a closing delimiter ends is read the same whatever follows; a
    number is, when something follows it already. *)
Lemma read_more (rest : string) (fuel : nat) :
  (forall s v r,
     Doc.read_value fuel s = Some (v, r) ->
     r <> "" \/ DocAux.number_start (Str.first_byte (Doc.skip_ws s)) = false ->
     Doc.read_value fuel (s +:+ rest) = Some (v, r +:+ rest))
  /\ (forall s ms r,
        Doc.read_members fuel s = Some (ms, r) ->
        Doc.read_members fuel (s +:+ rest) = Some (ms, r +:+ rest))
  /\ (forall s vs r,
        Doc.read_elements fuel s = Some (vs, r) ->
        Doc.read_elements fuel (s +:+ rest) = Some (vs, r +:+ rest)).
Proof.
  induction fuel as [|fuel (IHv & IHm & IHe)]; [repeat split; discriminate|].
  split; [|split].
  - intros s v r. rewrite !read_value_eq.
    destruct (Doc.skip_ws s) as [|c s1] eqn:Hs; [discriminate|].
    rewrite skip_ws_more by (rewrite Hs; discriminate).
    rewrite Hs, StrFacts.app_cons. cbn [Str.first_byte].
    destruct (Ascii.eqb c "034").
    { destruct (Json.read_string (String c s1)) as [[t r']|] eqn:Hread;
        [|discriminate].
      cbn [mbind option_bind]. intros [= <- <-] _.
      apply (read_string_more _ _ _ rest) in Hread.
      rewrite StrFacts.app_cons in Hread. now rewrite Hread. }
    destruct (Ascii.eqb c "{").
    { destruct (Doc.strip "}" (Doc.skip_ws s1)) as [r'|] eqn:Hclose.
      - intros [= <- <-] _.
        rewrite skip_ws_more by now apply strip_some_nonempty in Hclose.
        now rewrite (strip_more _ _ _ rest Hclose).
      - destruct (Doc.read_members fuel (Doc.skip_ws s1)) as [[ms r']|] eqn:Hms;
          [|discriminate].
        cbn [mbind option_bind]. intros [= <- <-] _.
        pose proof (read_members_nonempty _ _ _ Hms) as Hne.
        rewrite skip_ws_more by exact Hne.
        rewrite strip_byte_more by assumption.
        now rewrite (IHm _ _ _ Hms). }
    destruct (Ascii.eqb c "[").
    { destruct (Doc.strip "]" (Doc.skip_ws s1)) as [r'|] eqn:Hclose.
      - intros [= <- <-] _.
        rewrite skip_ws_more by now apply strip_some_nonempty in Hclose.
        now rewrite (strip_more _ _ _ rest Hclose).
      - destruct (Doc.read_elements fuel (Doc.skip_ws s1)) as [[vs r']|] eqn:Hvs;
          [|discriminate].
        cbn [mbind option_bind]. intros [= <- <-] _.
        assert (Hne : Doc.skip_ws s1 <> "").
        { destruct fuel as [|fuel']; [discriminate|].
          rewrite read_elements_eq in Hvs.
          destruct (Doc.read_value fuel' (Doc.skip_ws s1)) as [res|] eqn:Hv;
            [|discriminate].
          apply read_value_nonempty in Hv. now rewrite skip_ws_idem in Hv. }
        rewrite skip_ws_more by exact Hne.
        rewrite strip_byte_more by assumption.
        now rewrite (IHe _ _ _ Hvs). }
    destruct (Ascii.eqb c "t").
    { destruct (Doc.strip "rue" s1) as [r'|] eqn:Hword; [|discriminate].
      cbn [mbind option_bind]. intros [= <- <-] _.
      now rewrite (strip_more _ _ _ rest Hword). }
    destruct (Ascii.eqb c "f").
    { destruct (Doc.strip "alse" s1) as [r'|] eqn:Hword; [|discriminate].
      cbn [mbind option_bind]. intros [= <- <-] _.
      now rewrite (strip_more _ _ _ rest Hword). }
    destruct (Ascii.eqb c "n").
    { destruct (Doc.strip "ull" s1) as [r'|] eqn:Hword; [|discriminate].
      cbn [mbind option_bind]. intros [= <- <-] _.
      now rewrite (strip_more _ _ _ rest Hword). }
    destruct (Doc.read_number (String c s1)) as [[d r']|] eqn:Hnum; [|discriminate].
    cbn [mbind option_bind]. intros [= <- <-] [Hr | Hstart].
    + apply (read_number_more _ _ _ rest) in Hnum; [|exact Hr].
      rewrite StrFacts.app_cons in Hnum. now rewrite Hnum.
    + apply read_number_start in Hnum. congruence.
  - intros s ms r. rewrite !read_members_eq.
    destruct (Json.read_string s) as [[key s1]|] eqn:Hkey; [|discriminate].
    rewrite (read_string_more _ _ _ rest Hkey). cbn [mbind option_bind].
    destruct (Doc.strip ":" (Doc.skip_ws s1)) as [s2|] eqn:Hcolon; [|discriminate].
    rewrite skip_ws_more by now apply strip_some_nonempty in Hcolon.
    rewrite (strip_more _ _ _ rest Hcolon). cbn [mbind option_bind].
    destruct (Doc.read_value fuel s2) as [[v s3]|] eqn:Hv; [|discriminate].
    cbn [mbind option_bind].
    destruct (Doc.strip "," (Doc.skip_ws s3)) as [s4|] eqn:Hcomma.
    + assert (Hs3 : Doc.skip_ws s3 <> "") by now apply strip_some_nonempty in Hcomma.
      rewrite (IHv _ _ _ Hv) by (left; now destruct s3).
      cbn [mbind option_bind].
      rewrite skip_ws_more by exact Hs3.
      rewrite (strip_more _ _ _ rest Hcomma).
      destruct (Doc.read_members fuel (Doc.skip_ws s4)) as [[ms' r']|] eqn:Hms;
        [|discriminate].
      cbn [mbind option_bind]. intros [= <- <-].
      rewrite skip_ws_more by apply (read_members_nonempty _ _ _ Hms).
      now rewrite (IHm _ _ _ Hms).
    + destruct (Doc.strip "}" (Doc.skip_ws s3)) as [r'|] eqn:Hclose; [|discriminate].
      cbn [mbind option_bind]. intros [= <- <-].
      assert (Hs3 : Doc.skip_ws s3 <> "") by now apply strip_some_nonempty in Hclose.
      rewrite (IHv _ _ _ Hv) by (left; now destruct s3).
      cbn [mbind option_bind].
      rewrite skip_ws_more by exact Hs3.
      rewrite strip_byte_more by assumption.
      now rewrite (strip_more _ _ _ rest Hclose).
  - intros s vs r. rewrite !read_elements_eq.
    destruct (Doc.read_value fuel s) as [[v s3]|] eqn:Hv; [|discriminate].
    cbn [mbind option_bind].
    destruct (Doc.strip "," (Doc.skip_ws s3)) as [s4|] eqn:Hcomma.
    + assert (Hs3 : Doc.skip_ws s3 <> "") by now apply strip_some_nonempty in Hcomma.
      rewrite (IHv _ _ _ Hv) by (left; now destruct s3).
      cbn [mbind option_bind].
      rewrite skip_ws_more by exact Hs3.
      rewrite (strip_more _ _ _ rest Hcomma).
      destruct (Doc.read_elements fuel s4) as [[vs' r']|] eqn:Hvs; [|discriminate].
      cbn [mbind option_bind]. intros [= <- <-].
      now rewrite (IHe _ _ _ Hvs).
    + destruct (Doc.strip "]" (Doc.skip_ws s3)) as [r'|] eqn:Hclose; [|discriminate].
      cbn [mbind option_bind]. intros [= <- <-].
      assert (Hs3 : Doc.skip_ws s3 <> "") by now apply strip_some_nonempty in Hclose.
      rewrite (IHv _ _ _ Hv) by (left; now destruct s3).
      cbn [mbind option_bind].
      rewrite skip_ws_more by exact Hs3.
      rewrite strip_byte_more by assumption.
      now rewrite (strip_more _ _ _ rest Hclose).
Qed.

(** More fuel changes no result. *)
Lemma read_step (fuel : nat) :
  (forall s res, Doc.read_value fuel s = Some res ->
     Doc.read_value (S fuel) s = Some res)
  /\ (forall s res, Doc.read_members fuel s = Some res ->
        Doc.read_members (S fuel) s = Some res)
  /\ (forall s res, Doc.read_elements fuel s = Some res ->
        Doc.read_elements (S fuel) s = Some res).
Proof.
  induction fuel as [|fuel (IHv & IHm & IHe)]; [repeat split; discriminate|].
  split; [|split].
  - intros s res. rewrite (read_value_eq (S fuel)), (read_value_eq fuel).
    destruct (Doc.skip_ws s) as [|c s1]; [discriminate|].
    destruct (Ascii.eqb c "034"); [intros H; exact H|].
    destruct (Ascii.eqb c "{").
    { destruct (Doc.strip "}" (Doc.skip_ws s1)); [intros H; exact H|].
      destruct (Doc.read_members fuel (Doc.skip_ws s1)) as [res'|] eqn:Hms;
        [|discriminate].
      now rewrite (IHm _ _ Hms). }
    destruct (Ascii.eqb c "[").
    { destruct (Doc.strip "]" (Doc.skip_ws s1)); [intros H; exact H|].
      destruct (Doc.read_elements fuel (Doc.skip_ws s1)) as [res'|] eqn:Hvs;
        [|discriminate].
      now rewrite (IHe _ _ Hvs). }
    intros H; exact H.
  - intros s res. rewrite (read_members_eq (S fuel)), (read_members_eq fuel).
    destruct (Json.read_string s) as [[key s1]|]; [|discriminate].
    cbn [mbind option_bind].
    destruct (Doc.strip ":" (Doc.skip_ws s1)) as [s2|]; [|discriminate].
    cbn [mbind option_bind].
    destruct (Doc.read_value fuel s2) as [[v s3]|] eqn:Hv; [|discriminate].
    rewrite (IHv _ _ Hv). cbn [mbind option_bind].
    destruct (Doc.strip "," (Doc.skip_ws s3)) as [s4|]; [|intros H; exact H].
    destruct (Doc.read_members fuel (Doc.skip_ws s4)) as [res'|] eqn:Hms;
      [|discriminate].
    now rewrite (IHm _ _ Hms).
  - intros s res. rewrite (read_elements_eq (S fuel)), (read_elements_eq fuel).
    destruct (Doc.read_value fuel s) as [[v s3]|] eqn:Hv; [|discriminate].
    rewrite (IHv _ _ Hv). cbn [mbind option_bind].
    destruct (Doc.strip "," (Doc.skip_ws s3)) as [s4|]; [|intros H; exact H].
    destruct (Doc.read_elements fuel s4) as [res'|] eqn:Hvs; [|discriminate].
    now rewrite (IHe _ _ Hvs).
Qed.

Lemma read_value_enough (k fuel : nat) (s : string) (res : Doc.value * string) :
  (k <= fuel)%nat -> Doc.read_value k s = Some res -> Doc.read_value fuel s = Some res.
Proof.
  induction 1 as [|fuel _ IH]; [auto|].
  intros Hk. now apply read_step, IH.
Qed.

(** A raw value that is one JSON array or object reads as it does alone. *)
Lemma reads_as_raw (k : nat) (key v : string) (value : Doc.value) :
  Doc.read_value k v = Some (value, "") ->
  DocAux.number_start (Str.first_byte (Doc.skip_ws v)) = false ->
  DocAux.reads_as k (key, (v, value)).
Proof.
  intros Hread Hstart fuel rest Hfuel _. cbn [fst snd].
  apply (read_value_enough k); [exact Hfuel|].
  destruct (read_more rest k) as (Hv & _).
  rewrite (Hv _ _ _ Hread) by (right; exact Hstart).
  now rewrite StrFacts.app_nil_l.
Qed.

(** X21. A message none of whose extension values goes out raw serializes
    to a well-formed JSON text: a JSON parser reads back from it the
    document of the message, the members in the order of [to_json] (those
    of the extra object in the order in which the table gives its entries,
    whatever that order is), every string as it is in the message, the
    integers as written. *)
Theorem to_json_parses_back (msg : WEB_MESSAGE_REC) (fuel : nat) :
  Doc.no_raw_value msg = true ->
  (14 + length (Spec.entries (msg_extra_data msg)) <= fuel)%nat ->
  Doc.parse fuel (fe_web_message_to_json msg)
  = Some (Doc.document Doc.Null msg).
Proof.
  intros Hraw Hfuel. apply (to_json_read _ 1); [lia | | lia].
  unfold Doc.no_raw_value in Hraw. rewrite forallb_forall in Hraw.
  apply Forall_forall. intros kv Hkv Hr.
  apply list_elem_of_In, Hraw in Hkv. rewrite Hr in Hkv. discriminate.
Qed.

(** X22. When the value of [params] goes out raw and is, alone, the text
    of one JSON value, the serialized message is a well-formed JSON text
    again, and the parser finds that value, not a string, under [params]
    of the extra object, among the other entries in the order in which
    the table gives them. *)
Theorem to_json_raw_parses_back (msg : WEB_MESSAGE_REC)
    (table : GHashTable) (v : string) (value : Doc.value)
    (k fuel : nat) :
  msg_extra_data msg = Some table ->
  table_map table !! "params" = Some (Some v) ->
  Str.first_byte v = "["%char ->
  Doc.read_value k v = Some (value, "") ->
  (13 + g_hash_table_size table + k <= fuel)%nat ->
  Doc.parse fuel (fe_web_message_to_json msg)
  = Some (Doc.document value msg).
Proof.
  intros Htable Hparams Hfirst Hread Hfuel.
  assert (Hk : (1 <= k)%nat) by (destruct k; [discriminate | lia]).
  apply (to_json_read _ k); [exact Hk | |].
  - unfold Spec.entries. rewrite Htable.
    apply Forall_forall. intros [key val] Hkv Hr. cbn [fst snd] in Hr.
    apply is_raw_iff in Hr as (-> & v' & -> & _).
    rewrite (table_iter_once table) in Hkv.
    apply elem_of_map_to_list in Hkv. rewrite Hparams in Hkv.
    injection Hkv as <-.
    unfold DocAux.entry_written. cbn [fst snd].
    rewrite (proj2 (is_raw_iff "params" (Some v))) by eauto.
    apply reads_as_raw; [exact Hread|].
    destruct v as [|c v]; [discriminate|]. cbn in Hfirst. subst c. reflexivity.
  - unfold Spec.entries. rewrite Htable, table_iter_length. exact Hfuel.
Qed.

Lemma to_json_parses_back_witness :
  Doc.parse 17 (fe_web_message_to_json whois_message)
  = Some (Doc.document Doc.Null whois_message).
Proof. apply to_json_parses_back; [reflexivity | vm_compute; lia]. Defined.

Lemma to_json_raw_parses_back_witness :
  Doc.parse 21 (fe_web_message_to_json names_message)
  = Some (Doc.document (Doc.Array [Doc.Int 1; Doc.Int 2; Doc.Int 3]) names_message).
Proof.
  apply (to_json_raw_parses_back names_message
           (table_of [ ("realname", Some "Al"); ("away", None);
                       ("params", Some "[1,2,3]") ] three_distinct)
           "[1,2,3]" _ 5);
    [reflexivity | reflexivity | reflexivity | reflexivity | vm_compute; lia].
Defined.

(** ** Sample runs of the parser *)

Example parse_nested :
  Doc.parse 20 (Str.lit " [1, -2.50e+3 , {'a' : null, 'b':[true,false]} ] ")
  = Some (Doc.Array
            [ Doc.Int 1;
              Doc.Number
                (Decimal.DecimalExp (Decimal.Neg (Decimal.D2 Decimal.Nil))
                   (Decimal.D5 (Decimal.D0 Decimal.Nil))
                   (Decimal.Pos (Decimal.D3 Decimal.Nil)));
              Doc.Object
                [ ("a", Doc.Null);
                  ("b", Doc.Array [Doc.Bool true; Doc.Bool false]) ] ]).
Proof. vm_compute. reflexivity. Qed.

Example parse_refuses :
  Doc.parse 20 "01" = None
  /\ Doc.parse 20 "1." = None
  /\ Doc.parse 20 "[1,]" = None
  /\ Doc.parse 20 (Str.lit "{'a':1,}") = None
  /\ Doc.parse 20 (Str.lit "{'a' 1}") = None
  /\ Doc.parse 20 "[1] 2" = None
  /\ Doc.parse 20 "tru" = None.
Proof. vm_compute. repeat split; reflexivity. Qed.

(** A raw value that is not a JSON text leaves no JSON text. *)
Example to_json_broken :
  fe_web_message_to_json broken_message
  = Str.lit "{'type':'pong','timestamp':0,'extra':{'params':[1,2}}"
  /\ Doc.parse 60 (fe_web_message_to_json broken_message) = None.
Proof. vm_compute. split; reflexivity. Qed.
